(** * Spring: a shallow embedding of the damped-spring integrator

    The class [Spring] of the repository (a TypeScript port of Fraktality's
    [spr.lua]) is embedded here over IEEE-754 binary64 numbers, which is what
    a JavaScript [number] is.  Rocq's primitive floats are exactly that
    format, and [FloatAxioms] relates every primitive operation to its
    specification on [spec_float], so general statements are proved on the
    specification and concrete runs are evaluated by the kernel.

    The host functions [Math.exp], [Math.sin], [Math.cos] and the operator
    [**] are "implementation-approximated" in ECMA-262: the embedding takes
    them as a parameter (a [MathObject]) and, where a proof needs them, assumes
    only the special values the standard fixes ([MathLaws]). *)

From Stdlib Require Import ZArith Bool Lia String.
From Stdlib Require Import Floats.
From Stdlib Require Import List.

Set Warnings "-inexact-float".
Local Open Scope float_scope.

(* ===================================================================== *)
(** ** The host language: numbers and operators *)
(* ===================================================================== *)

Module JS.

(** A JavaScript number. *)
Definition number : Set := float.

(** [x > y], [x === y] on numbers (both are false on NaN). *)
Definition gt (x y : number) : bool := y <? x.
Definition strict_eq (x y : number) : bool := x =? y.

(** [ToInt32] of ECMA-262 (7.1.6): NaN, the zeros and the infinities go to
    0; a finite number is truncated toward zero, reduced modulo 2^32 and
    read as a signed 32-bit integer. *)
Definition ToInt32 (x : number) : Z :=
  match Prim2SF x with
  | S754_finite s m e =>
      let magnitude :=
        if (0 <=? e)%Z then Z.shiftl (Zpos m) e else Z.shiftr (Zpos m) (- e) in
      let int := cond_Zopp s magnitude in
      let int32bit := (int mod 2 ^ 32)%Z in
      if (2 ^ 31 <=? int32bit)%Z then (int32bit - 2 ^ 32)%Z else int32bit
  | _ => 0%Z
  end.

(** The number of a signed 32-bit integer (exact: 32 bits fit in 53). *)
Definition of_int32 (z : Z) : number :=
  if (z <? 0)%Z then - of_uint63 (Uint63.of_Z (- z)) else of_uint63 (Uint63.of_Z z).

(** [x ^ y]: the bitwise exclusive or of the operands' [ToInt32]. *)
Definition bitxor (x y : number) : number :=
  of_int32 (Z.lxor (ToInt32 x) (ToInt32 y)).

(** The part of the host's [Math] object (and the operator [**], which is
    [Math.pow]) that the class uses and that the standard leaves to the
    implementation. *)
Record MathObject : Set := {
  exp : number -> number;
  sin : number -> number;
  cos : number -> number;
  pow : number -> number -> number
}.

(** [Math.sqrt] is the correctly rounded square root. *)
Definition sqrt : number -> number := PrimFloat.sqrt.

(** [Math.PI], the binary64 number nearest to pi. *)
Definition PI : number := 0x1.921fb54442d18p+1.

(** What a statement may throw. *)
Inductive Error : Set := MkError (message : string).

(** How the evaluation of a call ends. *)
Inductive Completion (A : Type) : Type :=
| Normal (value : A)
| Throw (error : Error).
Arguments Normal {A} value.
Arguments Throw {A} error.

End JS.

Import JS.

(* ===================================================================== *)
(** ** The class *)
(* ===================================================================== *)

Module Spring.

(** The instance: the five private properties. *)
Record t : Set := mk {
  DampingRatio : number;
  Frequency : number;
  Goal : number;
  Position : number;
  Velocity : number
}.

(** A method runs on [this], ends normally or by a throw, and leaves the
    instance in some state either way. *)
Definition Method (A : Type) : Type := t -> Completion A * t.

Definition ret {A} (a : A) : Method A := fun this => (Normal a, this).

Definition bind {A B} (m : Method A) (k : A -> Method B) : Method B :=
  fun this =>
    match m this with
    | (Normal a, this') => k a this'
    | (Throw e, this') => (Throw e, this')
    end.

Definition get : Method t := fun this => (Normal this, this).

Definition throw {A} (e : Error) : Method A := fun this => (Throw e, this).

(** The assignments [this.X = v]. *)
Definition set_DampingRatio (v : number) : Method unit :=
  fun this => (Normal tt, mk v (Frequency this) (Goal this) (Position this) (Velocity this)).
Definition set_Frequency (v : number) : Method unit :=
  fun this => (Normal tt, mk (DampingRatio this) v (Goal this) (Position this) (Velocity this)).
Definition set_Goal (v : number) : Method unit :=
  fun this => (Normal tt, mk (DampingRatio this) (Frequency this) v (Position this) (Velocity this)).
Definition set_Position (v : number) : Method unit :=
  fun this => (Normal tt, mk (DampingRatio this) (Frequency this) (Goal this) v (Velocity this)).
Definition set_Velocity (v : number) : Method unit :=
  fun this => (Normal tt, mk (DampingRatio this) (Frequency this) (Goal this) (Position this) v).

Declare Scope method_scope.
Delimit Scope method_scope with method.
Notation "x <- m ;; k" := (bind m (fun x => k))
  (at level 61, m at next level, right associativity) : method_scope.
Notation "m ;; k" := (bind m (fun _ => k))
  (at level 61, right associativity) : method_scope.
Local Open Scope method_scope.

(** *** Constants *)

Definition tau : number := PI * 2.

(** [(1/3840)^2] and [1e-2^2]: in TypeScript [^] is the bitwise exclusive
    or, not a power. *)
Definition SLEEP_OFFSET_SQ_LIMIT : number := bitxor (1 / 3840) 2.
Definition SLEEP_VELOCITY_SQ_LIMIT : number := bitxor 1e-2 2.
Definition EPS : number := 1e-5.

Definition will_not_converge : Error := MkError "Spring will not converge".

(** *** Constructor *)

(** [goal] is optional and defaults to [startPosition]. *)
Definition constructor (startPosition frequency dampingRatio : number)
    (goal : option number) : Completion t :=
  let goal := match goal with Some g => g | None => startPosition end in
  if (frequency * dampingRatio) <? 0 then Throw will_not_converge
  else Normal (mk dampingRatio frequency goal startPosition 0).

(** *** Methods *)

Section Methods.

Variable Math : MathObject.

Local Abbreviation exp := (exp Math).
Local Abbreviation sin := (sin Math).
Local Abbreviation cos := (cos Math).
Local Notation "x ** y" := (pow Math x y) (at level 30, right associativity).

Definition Step (deltaTime : number) : Method number :=
  this <- get ;;
  let dampingRatio := DampingRatio this in
  let frequency := Frequency this * tau in
  let goal := Goal this in
  let position := Position this in
  let velocity := Velocity this in
  if strict_eq dampingRatio 1 then
    let q := exp ((- frequency) * deltaTime) in
    let w := deltaTime * q in
    let wScaledFrequency := w * frequency in
    let c0 := q + wScaledFrequency in
    let c2 := q - wScaledFrequency in
    let c3 := w * (frequency ** 2) in
    let goalDistance := position - goal in
    let newPosition := ((goalDistance * c0) + (velocity * w)) + goal in
    let newVelocity := (velocity * c2) - (goalDistance * c3) in
    set_Position newPosition ;; set_Velocity newVelocity ;;
    ret newPosition
  else if dampingRatio <? 1 then
    let frequencyStep := frequency * deltaTime in
    let q := exp ((- dampingRatio) * frequencyStep) in
    let c := sqrt (1 - (dampingRatio ** 2)) in
    let cFrequencyStep := c * frequencyStep in
    let i := cos cFrequencyStep in
    let j := sin cFrequencyStep in
    let z :=
      if gt c EPS then j / c
      else
        let cSquared := c ** 2 in
        frequencyStep
        + ((((((frequencyStep ** 2) * cSquared) * cSquared) / 20) - cSquared)
           * (frequencyStep ** 3)) / 6 in
    let cFrequency := frequency * c in
    let y :=
      if gt cFrequency EPS then j / cFrequency
      else
        let cFrequencySquared := cFrequency ** 2 in
        deltaTime
        + ((((((deltaTime ** 2) * cFrequencySquared) * cFrequencySquared) / 20)
            - cFrequencySquared)
           * (deltaTime ** 3)) / 6 in
    let goalDistance := position - goal in
    let newPosition :=
      (((goalDistance * (i + (z * dampingRatio))) + (velocity * y)) * q) + goal in
    let newVelocity :=
      ((velocity * (i - (z * dampingRatio))) - (goalDistance * (z * frequency))) * q in
    set_Position newPosition ;; set_Velocity newVelocity ;;
    ret newPosition
  else
    let c := sqrt ((dampingRatio ** 2) - 1) in
    let r1 := (- frequency) * (dampingRatio - c) in
    let r2 := (- frequency) * (dampingRatio + c) in
    let ec1 := exp (r1 * deltaTime) in
    let ec2 := exp (r2 * deltaTime) in
    let goalDistance := position - goal in
    let co2 := (velocity - (goalDistance * r1)) / ((2 * frequency) * c) in
    let co1 := ec1 * (goalDistance - co2) in
    let coEc2 := co2 * ec2 in
    let newPosition := (co1 + coEc2) + goal in
    let newVelocity := (co1 * r1) + (coEc2 * r2) in
    set_Position newPosition ;; set_Velocity newVelocity ;;
    ret newPosition.

Definition CanSleep : Method bool :=
  this <- get ;;
  ret (if gt (Velocity this ** 2) SLEEP_VELOCITY_SQ_LIMIT
          || gt ((Goal this - Position this) ** 2) SLEEP_OFFSET_SQ_LIMIT
       then false else true).

End Methods.

Definition GetGoal : Method number :=
  this <- get ;; ret (Goal this).

Definition SetGoal (goal : number) : Method unit :=
  set_Goal goal.

Definition SetDampingRatio (dampingRatio : number) : Method unit :=
  this <- get ;;
  if (Frequency this * dampingRatio) <? 0 then throw will_not_converge
  else set_DampingRatio dampingRatio.

Definition SetFrequency (frequency : number) : Method unit :=
  this <- get ;;
  if (frequency * DampingRatio this) <? 0 then throw will_not_converge
  else set_Frequency frequency.

End Spring.

(* ===================================================================== *)
(** ** An executable host *)
(* ===================================================================== *)

(** [Math.exp], [Math.sin], [Math.cos] and [**] are built into the host and
    not part of the repository.  [SeriesMath] is a small stand-in on which the
    model runs: Maclaurin polynomials in Horner form (with argument halving
    for [exp]), and [**] by repeated multiplication for the exponents 1, 2
    and 3 (the class uses 2 and 3).  It returns the values ECMA-262 fixes at
    the zeros and at NaN, and agrees with the real functions to about twelve
    digits near the origin. *)
Module SeriesMath.

Fixpoint horner (coefficients : list number) (x : number) : number :=
  match coefficients with
  | nil => 0
  | cons a rest => a + x * horner rest x
  end.

(** [1/k!] for k = 0 .. 14. *)
Definition inverse_factorials : list number :=
  (1 :: 1 :: 1/2 :: 1/6 :: 1/24 :: 1/120 :: 1/720 :: 1/5040 :: 1/40320
     :: 1/362880 :: 1/3628800 :: 1/39916800 :: 1/479001600
     :: 1/6227020800 :: 1/87178291200 :: nil)%list.

Fixpoint squarings (n : nat) (x : number) : number :=
  match n with
  | O => x
  | S n => let y := squarings n x in y * y
  end.

Definition exp (x : number) : number :=
  if is_nan x then nan
  else if is_zero x then 1
  else if x <? -746 then 0
  else if 710 <? x then infinity
  else squarings 10 (horner inverse_factorials (x / 1024)).

(** Coefficients of sin x / x and of cos x in powers of x^2. *)
Definition sin_coefficients : list number :=
  (1 :: -1/6 :: 1/120 :: -1/5040 :: 1/362880 :: -1/39916800
     :: 1/6227020800 :: -1/1307674368000 :: 1/355687428096000 :: nil)%list.
Definition cos_coefficients : list number :=
  (1 :: -1/2 :: 1/24 :: -1/720 :: 1/40320 :: -1/3628800
     :: 1/479001600 :: -1/87178291200 :: 1/20922789888000 :: nil)%list.

Definition sin (x : number) : number :=
  if is_nan x || is_infinity x then nan
  else if is_zero x then x
  else x * horner sin_coefficients (x * x).

Definition cos (x : number) : number :=
  if is_nan x || is_infinity x then nan
  else horner cos_coefficients (x * x).

Definition pow (x y : number) : number :=
  if is_nan y then nan
  else if is_zero y then 1
  else if y =? 1 then x
  else if y =? 2 then x * x
  else if y =? 3 then (x * x) * x
  else nan.

Definition Math : MathObject := Build_MathObject exp sin cos pow.

End SeriesMath.

(* ===================================================================== *)
(** ** Vocabulary of the statements *)
(* ===================================================================== *)

(** What ECMA-262 fixes about the host functions, as far as the proofs need
    it: the values at the zeros and at NaN ([Math.exp], [Math.sin],
    [Math.cos]: 21.3.2; [**]: Number::exponentiate, 6.1.6.1.3). *)
Record MathLaws (Math : MathObject) : Prop := {
  exp_zero : forall x, is_zero x = true -> exp Math x = 1;
  exp_nan : exp Math nan = nan;
  cos_zero : forall x, is_zero x = true -> cos Math x = 1;
  cos_nan : cos Math nan = nan;
  sin_zero : forall x, is_zero x = true -> sin Math x = x;
  sin_nan : sin Math nan = nan;
  pow_zero_2 : forall x, is_zero x = true -> is_zero (pow Math x 2) = true;
  pow_zero_3 : forall x, is_zero x = true -> is_zero (pow Math x 3) = true;
  pow_nan_2 : pow Math nan 2 = nan;
  pow_nan_3 : pow Math nan 3 = nan
}.

(** Three readings of a computed number: a zero of either sign or NaN; one
    or NaN; equal to [y] (as [===] has it, so the zeros are equal) or NaN. *)
Definition zero_or_nan (x : number) : bool := is_zero x || is_nan x.
Definition one_or_nan (x : number) : bool := (x =? 1) || is_nan x.
Definition equal_or_nan (x y : number) : bool := (x =? y) || is_nan x.

(** Not finite: an infinity or NaN. *)
Definition inf_or_nan (x : number) : bool := is_infinity x || is_nan x.

(** The same on the specification of binary64. *)
Definition SFis_zero (f : spec_float) : bool :=
  match f with S754_zero _ => true | _ => false end.
Definition SFis_nan (f : spec_float) : bool :=
  match f with S754_nan => true | _ => false end.
Definition SFzero_or_nan (f : spec_float) : bool := SFis_zero f || SFis_nan f.
Definition SFequal_or_nan (a b : spec_float) : bool := SFeqb a b || SFis_nan a.
Definition SFinf_or_nan (f : spec_float) : bool :=
  match f with S754_infinity _ | S754_nan => true | _ => false end.
Definition SFone : spec_float := S754_finite false 4503599627370496 (-52).

(** Whether a call ended by a throw. *)
Definition threw {A} (c : Completion A) : bool :=
  match c with Throw _ => true | Normal _ => false end.

(** The two ratios of the underdamped regime as the specification words
    them: [z] is sin(c a)/c, replaced by a + (((a^2 c^4)/20 - c^2) a^3)/6
    when c is at most epsilon; [y] is sin(c a)/(f c), replaced by the same
    polynomial in dt and f c when f c is at most epsilon.  The fourth power
    is the square taken twice. *)
Section SpecRatios.

Variable Math : MathObject.
Local Notation "x ** y" := (pow Math x y) (at level 30, right associativity).

Definition maclaurin (t k : number) : number :=
  t + ((((((t ** 2) * (k ** 2)) * (k ** 2)) / 20) - (k ** 2)) * (t ** 3)) / 6.

Definition spec_z (a c : number) : number :=
  if Spring.EPS <? c then sin Math (c * a) / c else maclaurin a c.

Definition spec_y (f dt c : number) : number :=
  if Spring.EPS <? f * c then sin Math (c * (f * dt)) / (f * c) else maclaurin dt (f * c).

End SpecRatios.

(** The numbers by which [Step] multiplies the offset and the velocity, in
    the regime of the instance: q + w f, w, q - w f and w f^2 when the damping
    ratio is 1; i + z d, y, i - z d, z f and q below 1; the two rates and
    their exponentials otherwise.  And the number it divides by: 2 f c, in
    the overdamped regime only. *)
Section Coefficients.

Variable Math : MathObject.

Definition coefficients (deltaTime : number) (this : Spring.t) : list number :=
  let d := Spring.DampingRatio this in
  let f := Spring.Frequency this * Spring.tau in
  if d =? 1 then
    let q := exp Math ((- f) * deltaTime) in
    let w := deltaTime * q in
    (q + w * f) :: w :: (q - w * f) :: (w * pow Math f 2) :: nil
  else if d <? 1 then
    let a := f * deltaTime in
    let c := sqrt (1 - pow Math d 2) in
    let i := cos Math (c * a) in
    let z := spec_z Math a c in
    (i + z * d) :: spec_y Math f deltaTime c :: (i - z * d) :: (z * f)
      :: exp Math ((- d) * a) :: nil
  else
    let c := sqrt (pow Math d 2 - 1) in
    let r1 := (- f) * (d - c) in
    let r2 := (- f) * (d + c) in
    r1 :: r2 :: exp Math (r1 * deltaTime) :: exp Math (r2 * deltaTime) :: nil.

Definition divisors (this : Spring.t) : list number :=
  let d := Spring.DampingRatio this in
  let f := Spring.Frequency this * Spring.tau in
  if d =? 1 then nil
  else if d <? 1 then nil
  else ((2 * f) * sqrt (pow Math d 2 - 1)) :: nil.

End Coefficients.

(** Not a zero and not NaN: what a divisor has to be for 0/x to be 0. *)
Definition can_divide (x : number) : bool := negb (zero_or_nan x).

(** A finite number smaller than 2^k in magnitude: a zero, or a mantissa of
    d binary digits at an exponent e with d + e <= k.  And a finite number of
    magnitude at least 2^j. *)
Definition SFbelow (k : Z) (f : spec_float) : bool :=
  match f with
  | S754_zero _ => true
  | S754_finite _ m e => (Zpos (digits2_pos m) + e <=? k)%Z
  | _ => false
  end.

Definition SFabove (j : Z) (f : spec_float) : bool :=
  match f with
  | S754_finite _ m e => (j <? Zpos (digits2_pos m) + e)%Z
  | _ => false
  end.

Definition below (k : Z) (x : number) : bool := SFbelow k (Prim2SF x).
Definition above (j : Z) (x : number) : bool := SFabove j (Prim2SF x).

(** *** Tactics for the methods *)

Import Spring.

(** Runs the straight-line part of a method. *)
Ltac run_method :=
  unfold Step, CanSleep, SetDampingRatio, SetFrequency, bind, get, ret, throw,
    set_Position, set_Velocity, set_DampingRatio, set_Frequency, strict_eq, gt;
  cbv beta iota zeta;
  cbn [DampingRatio Frequency Goal Position Velocity fst snd].

(** Splits [Step] into its three regimes. *)
Ltac step_regimes this :=
  run_method;
  destruct (DampingRatio this =? 1) eqn:Hcritical;
    [ | destruct (DampingRatio this <? 1) eqn:Hunder ];
  cbv beta iota zeta;
  cbn [DampingRatio Frequency Goal Position Velocity fst snd].

(** *** Sequences of calls *)

(** A call of a public method, and the instance it leaves (whether the call
    returned or threw): what a caller that catches the error goes on with. *)
Inductive Call : Set :=
| CallStep (deltaTime : number)
| CallCanSleep
| CallGetGoal
| CallSetGoal (goal : number)
| CallSetDampingRatio (dampingRatio : number)
| CallSetFrequency (frequency : number).

Definition perform (Math : MathObject) (call : Call) (this : Spring.t) : Spring.t :=
  match call with
  | CallStep deltaTime => snd (Step Math deltaTime this)
  | CallCanSleep => snd (CanSleep Math this)
  | CallGetGoal => snd (GetGoal this)
  | CallSetGoal goal => snd (SetGoal goal this)
  | CallSetDampingRatio dampingRatio => snd (SetDampingRatio dampingRatio this)
  | CallSetFrequency frequency => snd (SetFrequency frequency this)
  end.

Definition perform_all (Math : MathObject) (calls : list Call) (this : Spring.t)
    : Spring.t :=
  List.fold_left (fun this call => perform Math call this) calls this.

(** The convergence check, read on an instance. *)
Definition converges (this : Spring.t) : bool :=
  negb (Frequency this * DampingRatio this <? 0).

(* ===================================================================== *)
(** ** The scheduler *)
(* ===================================================================== *)

(** [Scheduler.ts]: handles on tasks given to the host's timers and to its
    animation frames.  A handle is a JavaScript array [[kind, id]] that the
    module shares with its callers and writes to later, so arrays live in a
    store and are named by their address.  The host's functions
    ([setTimeout], [clearTimeout], ...) are not part of the repository: a call
    to one is recorded, and what the host answers is a parameter. *)
Module Scheduler.

(** A function given to the host: one of the caller's, or the arrow function
    that [OnPostRender] builds around the caller's callback and its own
    handle. *)
Inductive Callback : Set :=
| UserCallback (name : nat)
| PostRenderStage (scheduled : nat) (callback : Callback).

(** A JavaScript value: the primitive values, and functions, arrays and
    other objects by their identity. *)
Inductive Value : Set :=
| VUndefined
| VNull
| VBoolean (b : bool)
| VNumber (n : number)
| VString (s : string)
| VFunction (f : Callback)
| VArray (address : nat)
| VObject (id : nat).

Inductive HostCall : Set :=
| setTimeout (callback : Callback) (delay : number)
| setInterval (callback : Callback) (delay : number)
| requestAnimationFrame (callback : Callback)
| clearTimeout (id : Value)
| clearInterval (id : Value)
| cancelAnimationFrame (id : Value).

(** The arrays allocated so far, by address, and the calls made to the
    host, oldest first. *)
Record World : Set := mkWorld {
  arrays : list (list Value);
  calls : list HostCall
}.

Definition Program (A : Type) : Type := World -> A * World.

Definition ret {A} (a : A) : Program A := fun w => (a, w).

Definition bind {A B} (m : Program A) (k : A -> Program B) : Program B :=
  fun w => let (a, w') := m w in k a w'.

Declare Scope program_scope.
Delimit Scope program_scope with program.
Notation "x <- m ;; k" := (bind m (fun x => k))
  (at level 61, m at next level, right associativity) : program_scope.
Notation "m ;; k" := (bind m (fun _ => k))
  (at level 61, right associativity) : program_scope.
Local Open Scope program_scope.
Local Open Scope list_scope.

(** [typeof v === 'number'], [v === undefined], [v === true] and, for the
    [case] labels, [v === k] with a number k. *)
Definition is_number (v : Value) : bool :=
  match v with VNumber _ => true | _ => false end.
Definition is_undefined (v : Value) : bool :=
  match v with VUndefined => true | _ => false end.
Definition is_true (v : Value) : bool :=
  match v with VBoolean true => true | _ => false end.
Definition is_the_number (v : Value) (k : number) : bool :=
  match v with VNumber n => strict_eq n k | _ => false end.

(** [ToBoolean] (ECMA-262 7.1.2). *)
Definition ToBoolean (v : Value) : bool :=
  match v with
  | VUndefined | VNull => false
  | VBoolean b => b
  | VNumber n => negb (is_zero n || is_nan n)
  | VString s => negb (String.eqb s "")
  | VFunction _ | VArray _ | VObject _ => true
  end.

(** [array[index] = v]: writing past the end lengthens the array, the
    elements skipped being holes (read as [undefined]). *)
Fixpoint store (index : nat) (v : Value) (elements : list Value) : list Value :=
  match index, elements with
  | O, nil => v :: nil
  | O, _ :: rest => v :: rest
  | S index, nil => VUndefined :: store index v nil
  | S index, e :: rest => e :: store index v rest
  end.

Fixpoint update {A} (address : nat) (f : A -> A) (l : list A) : list A :=
  match address, l with
  | _, nil => nil
  | O, x :: rest => f x :: rest
  | S address, x :: rest => x :: update address f rest
  end.

(** An array literal: a new array at the next address. *)
Definition alloc (elements : list Value) : Program nat :=
  fun w => (length (arrays w), mkWorld (arrays w ++ elements :: nil) (calls w)).

Definition elements_of (address : nat) (w : World) : list Value :=
  nth address (arrays w) nil.

(** [array[index]]: [undefined] past the end. *)
Definition get (address index : nat) : Program Value :=
  fun w => (nth index (elements_of address w) VUndefined, w).

Definition set (address index : nat) (v : Value) : Program unit :=
  fun w => (tt, mkWorld (update address (store index v) (arrays w)) (calls w)).

Section Host.

(** What the host returns from its n-th call (a timer id, a frame request
    id). *)
Variable handle : nat -> number.

Definition host (call : HostCall) : Program number :=
  fun w => (handle (length (calls w)), mkWorld (arrays w) (calls w ++ call :: nil)).

Definition Cancel (scheduled : nat) : Program unit :=
  cancelled <- get scheduled 2 ;;
  if ToBoolean cancelled then ret tt
  else
    set scheduled 2 (VBoolean true) ;;
    kind <- get scheduled 0 ;;
    if is_the_number kind 0 then
      id <- get scheduled 1 ;; host (clearTimeout id) ;; ret tt
    else if is_the_number kind 1 then
      id <- get scheduled 1 ;; host (clearInterval id) ;; ret tt
    else if is_the_number kind 2 then
      id <- get scheduled 1 ;; host (cancelAnimationFrame id) ;; ret tt
    else ret tt.

Definition Timeout (seconds : number) (callback : Callback) : Program nat :=
  id <- host (setTimeout callback (seconds * 1000)) ;;
  alloc (VNumber 0 :: VNumber id :: nil).

Definition Interval (everySeconds : number) (callback : Callback) : Program nat :=
  id <- host (setInterval callback (everySeconds * 1000)) ;;
  alloc (VNumber 1 :: VNumber id :: nil).

Definition OnNextProcess (callback : Callback) : Program nat :=
  id <- host (setInterval callback 0) ;;
  alloc (VNumber 1 :: VNumber id :: nil).

Definition OnPreRender (callback : Callback) : Program nat :=
  id <- host (requestAnimationFrame callback) ;;
  alloc (VNumber 2 :: VNumber id :: nil).

Definition OnPostRender (callback : Callback) : Program nat :=
  scheduled <- alloc (VNumber 2 :: VNumber 0 :: nil) ;;
  id <- host (requestAnimationFrame (PostRenderStage scheduled callback)) ;;
  set scheduled 1 (VNumber id) ;;
  ret scheduled.

(** The module's earlier version names this function [Defer]; its body is
    the same. *)
Definition Defer (callback : Callback) : Program nat := OnPostRender callback.

(** What runs when the host calls a function the module gave it.  The
    arrow function of [OnPostRender] turns the handle into the handle of a
    timeout; a callback of the caller is the caller's code. *)
Definition invoke (f : Callback) : Program unit :=
  match f with
  | PostRenderStage scheduled callback =>
      set scheduled 0 (VNumber 0) ;;
      id <- host (setTimeout callback 0) ;;
      set scheduled 1 (VNumber id)
  | UserCallback _ => ret tt
  end.

End Host.

(** The test of [IsScheduled] on the elements of an array. *)
Definition scheduled_shape (elements : list Value) : bool :=
  (Nat.eqb (length elements) 2 || Nat.eqb (length elements) 3)
  && is_number (nth 0 elements VUndefined)
  && is_number (nth 1 elements VUndefined)
  && (is_undefined (nth 2 elements VUndefined)
      || is_true (nth 2 elements VUndefined)).

Definition IsScheduled (value : Value) : Program bool :=
  fun w =>
    (match value with
     | VArray address => scheduled_shape (elements_of address w)
     | _ => false
     end, w).

(** The store after [scheduled[2] = true]. *)
Definition marked (scheduled : nat) (w : World) : list (list Value) :=
  update scheduled (store 2 (VBoolean true)) (arrays w).

(** *** Sequences of calls *)

(** What a program that uses the module does to the world, one call after
    the other: its own calls of the exported functions, and the host calling
    back a function it was given. *)
Inductive Operation : Set :=
| DoTimeout (seconds : number) (callback : Callback)
| DoInterval (everySeconds : number) (callback : Callback)
| DoOnNextProcess (callback : Callback)
| DoOnPreRender (callback : Callback)
| DoOnPostRender (callback : Callback)
| DoCancel (scheduled : nat)
| DoInvoke (f : Callback).

Definition operate (handle : nat -> number) (op : Operation) (w : World) : World :=
  match op with
  | DoTimeout seconds callback => snd (Timeout handle seconds callback w)
  | DoInterval everySeconds callback => snd (Interval handle everySeconds callback w)
  | DoOnNextProcess callback => snd (OnNextProcess handle callback w)
  | DoOnPreRender callback => snd (OnPreRender handle callback w)
  | DoOnPostRender callback => snd (OnPostRender handle callback w)
  | DoCancel scheduled => snd (Cancel handle scheduled w)
  | DoInvoke f => snd (invoke handle f w)
  end.

Definition operate_all (handle : nat -> number) (ops : list Operation) (w : World)
  : World :=
  List.fold_left (fun w op => operate handle op w) ops w.

(** The operations that write to the array at [scheduled]: cancelling it,
    and the stage of [OnPostRender] that was built around it. *)
Definition touches (scheduled : nat) (op : Operation) : bool :=
  match op with
  | DoCancel address => Nat.eqb address scheduled
  | DoInvoke (PostRenderStage address _) => Nat.eqb address scheduled
  | _ => false
  end.

(** The three kinds of task, their codes in a handle, and the host
    functions that register and clear each. *)
Inductive Kind : Set := KTimeout | KInterval | KFrame.

Definition code (kind : Kind) : number :=
  match kind with KTimeout => 0 | KInterval => 1 | KFrame => 2 end.

Definition registers (call : HostCall) : option Kind :=
  match call with
  | setTimeout _ _ => Some KTimeout
  | setInterval _ _ => Some KInterval
  | requestAnimationFrame _ => Some KFrame
  | _ => None
  end.

Definition clear (kind : Kind) (id : Value) : HostCall :=
  match kind with
  | KTimeout => clearTimeout id
  | KInterval => clearInterval id
  | KFrame => cancelAnimationFrame id
  end.

Definition empty : World := mkWorld nil nil.

(** What an operation returns: a creator returns its handle, the others
    nothing. *)
Definition result (handle : nat -> number) (op : Operation) (w : World) : Value :=
  match op with
  | DoTimeout seconds callback => VArray (fst (Timeout handle seconds callback w))
  | DoInterval everySeconds callback =>
      VArray (fst (Interval handle everySeconds callback w))
  | DoOnNextProcess callback => VArray (fst (OnNextProcess handle callback w))
  | DoOnPreRender callback => VArray (fst (OnPreRender handle callback w))
  | DoOnPostRender callback => VArray (fst (OnPostRender handle callback w))
  | DoCancel _ | DoInvoke _ => VUndefined
  end.

(** Every array of the store passes the test of [IsScheduled]. *)
Definition well_formed (w : World) : bool := forallb scheduled_shape (arrays w).

(** In a log of host calls, every call that clears a task comes after a
    call that registered a task of the same kind, and clears the id which
    the host returned from that call. *)
Definition matched (handle : nat -> number) (log : list HostCall) : Prop :=
  forall (m : nat) (kind : Kind) (id : Value),
    nth_error log m = Some (clear kind id) ->
    exists (n : nat) (registration : HostCall),
      (n < m)%nat
      /\ nth_error log n = Some registration
      /\ registers registration = Some kind
      /\ id = VNumber (handle n).

(** An array that stands for a task registered in the log. *)
Definition registered (handle : nat -> number) (log : list HostCall)
    (elements : list Value) : Prop :=
  exists (kind : Kind) (n : nat) (registration : HostCall) (rest : list Value),
    elements = VNumber (code kind) :: VNumber (handle n) :: rest
    /\ nth_error log n = Some registration
    /\ registers registration = Some kind.

End Scheduler.

(* ===================================================================== *)
(** ** The maid *)
(* ===================================================================== *)

(** [Maid.ts]: a maid keeps items under keys and cleans them, one by one
    or all at once.  What an item's own method does, what a signal does when
    it fires, and what [GetUniqueId] returns is code outside the class
    ([Signal.ts], [UniqueId.ts], the caller's objects and the host's): such
    a call is recorded, in order, and taken not to call back into the maid.
    A call on an item returns or throws, as the item decides; a call on a
    signal is taken to return.  A maid given to a maid is such an item: its
    [Destroy] is a call on that other instance.  [Cancel] and [IsScheduled]
    are the scheduler's, and run on its world. *)
Module Maid.

Import Scheduler.

Inductive SignalName : Set := DestroyingSignal | CleanedSignal | DestroyedSignal.

(** The calls that leave the class, other than those into the scheduler. *)
Inductive Effect : Set :=
| new_Signal (signal : SignalName)
| GetEvent (signal : SignalName)
| Fire (signal : SignalName)
| Signal_Destroy (signal : SignalName)
| item_Destroy (item : Value)
| item_disconnect (item : Value)
| item_Disconnect (item : Value)
| item_remove (item : Value)
| item_call (item : Value).

(** What the class asks of its surroundings: the answers of the host's
    timers, the tests on an item that the language and [Signal.ts] decide
    (["Destroy" in item], [instanceof MutationObserver] or
    [instanceof ResizeObserver], [IsConnection], [instanceof HTMLElement]),
    what the n-th call of [GetUniqueId] returns, and how a call on an item
    ends: with the error it throws, or with none. *)
Record Host : Set := mkHost {
  timers : nat -> number;
  has_Destroy : Value -> bool;
  is_observer : Value -> bool;
  IsConnection : Value -> bool;
  is_HTMLElement : Value -> bool;
  GetUniqueId : nat -> Value;
  throws : Effect -> option Error
}.

(** The instance ([Items], a Map, as the list of its entries in insertion
    order, and [DestroyedState]) together with the world around it: the
    scheduler's world, the calls recorded so far, and the number of ids
    issued. *)
Record t : Set := mk {
  Items : list (Value * Value);
  DestroyedState : bool;
  scheduler : World;
  effects : list Effect;
  issued : nat
}.

Definition Method (A : Type) : Type := t -> Completion A * t.

Definition ret {A} (a : A) : Method A := fun this => (Normal a, this).

Definition bind {A B} (m : Method A) (k : A -> Method B) : Method B :=
  fun this =>
    match m this with
    | (Normal a, this') => k a this'
    | (Throw e, this') => (Throw e, this')
    end.

Definition get : Method t := fun this => (Normal this, this).

Definition throw {A} (e : Error) : Method A := fun this => (Throw e, this).

Definition set_Items (items : list (Value * Value)) : Method unit :=
  fun this =>
    (Normal tt,
     mk items (DestroyedState this) (scheduler this) (effects this) (issued this)).

Definition set_DestroyedState (state : bool) : Method unit :=
  fun this =>
    (Normal tt, mk (Items this) state (scheduler this) (effects this) (issued this)).

(** A recorded call. *)
Definition effect (e : Effect) : Method unit :=
  fun this =>
    (Normal tt,
     mk (Items this) (DestroyedState this) (scheduler this)
        (effects this ++ e :: nil) (issued this)).

(** A call of [GetUniqueId]. *)
Definition unique_id (H : Host) : Method Value :=
  fun this =>
    (Normal (GetUniqueId H (issued this)),
     mk (Items this) (DestroyedState this) (scheduler this) (effects this)
        (S (issued this))).

(** A call into the scheduler. *)
Definition in_Scheduler {A} (p : Program A) : Method A :=
  fun this =>
    let (a, w) := p (scheduler this) in
    (Normal a, mk (Items this) (DestroyedState this) w (effects this) (issued this)).

Declare Scope maid_scope.
Delimit Scope maid_scope with maid.
Notation "x <- m ;; k" := (bind m (fun x => k))
  (at level 61, m at next level, right associativity) : maid_scope.
Notation "m ;; k" := (bind m (fun _ => k))
  (at level 61, right associativity) : maid_scope.
Local Open Scope maid_scope.
Local Open Scope list_scope.

(** [for (const x of l) body]. *)
Fixpoint for_of {A} (l : list A) (body : A -> Method unit) : Method unit :=
  match l with
  | nil => ret tt
  | x :: rest => body x ;; for_of rest body
  end.

(** *** The language: objects, nullish values, Map *)

(** The values [in] takes on its right (any other throws a TypeError). *)
Definition is_object (v : Value) : bool :=
  match v with
  | VFunction _ | VArray _ | VObject _ => true
  | _ => false
  end.

(** The values [??] replaces. *)
Definition nullish (v : Value) : bool :=
  match v with VUndefined | VNull => true | _ => false end.

Fixpoint same_function (f g : Callback) : bool :=
  match f, g with
  | UserCallback m, UserCallback n => Nat.eqb m n
  | PostRenderStage a f', PostRenderStage b g' => Nat.eqb a b && same_function f' g'
  | _, _ => false
  end.

(** [SameValueZero] (ECMA-262 7.2.11), which compares the keys of a Map:
    NaN is the same as NaN, and 0 the same as -0. *)
Definition SameValueZero (x y : Value) : bool :=
  match x, y with
  | VUndefined, VUndefined => true
  | VNull, VNull => true
  | VBoolean a, VBoolean b => Bool.eqb a b
  | VNumber a, VNumber b => strict_eq a b || (is_nan a && is_nan b)
  | VString a, VString b => String.eqb a b
  | VFunction f, VFunction g => same_function f g
  | VArray a, VArray b => Nat.eqb a b
  | VObject a, VObject b => Nat.eqb a b
  | _, _ => false
  end.

(** [Map.prototype.get], [has], [delete] and [set] (ECMA-262 24.1.3): [set]
    keeps the place of a key that is present and appends one that is not,
    storing -0 as 0. *)
Fixpoint Map_get (key : Value) (entries : list (Value * Value)) : Value :=
  match entries with
  | nil => VUndefined
  | (k, v) :: rest => if SameValueZero k key then v else Map_get key rest
  end.

Fixpoint Map_has (key : Value) (entries : list (Value * Value)) : bool :=
  match entries with
  | nil => false
  | (k, _) :: rest => SameValueZero k key || Map_has key rest
  end.

Fixpoint Map_delete (key : Value) (entries : list (Value * Value))
  : list (Value * Value) :=
  match entries with
  | nil => nil
  | (k, v) :: rest =>
      if SameValueZero k key then rest else (k, v) :: Map_delete key rest
  end.

Definition stored_key (key : Value) : Value :=
  match key with
  | VNumber n => if is_zero n then VNumber 0 else key
  | _ => key
  end.

Fixpoint Map_set (key value : Value) (entries : list (Value * Value))
  : list (Value * Value) :=
  match entries with
  | nil => (stored_key key, value) :: nil
  | (k, v) :: rest =>
      if SameValueZero k key then (k, value) :: rest
      else (k, v) :: Map_set key value rest
  end.

(** *** The class *)

Definition constructor (w : World) (log : list Effect) (ids : nat) : t :=
  mk nil false w
     (log ++ new_Signal DestroyingSignal :: new_Signal CleanedSignal
          :: new_Signal DestroyedSignal :: GetEvent DestroyingSignal
          :: GetEvent CleanedSignal :: GetEvent DestroyedSignal :: nil)
     ids.

Section Methods.

Variable H : Host.

(** A call on an item: it is recorded, and what it throws goes on to the
    caller (the class catches nothing). *)
Definition on_item (e : Effect) : Method unit :=
  effect e ;;
  match throws H e with
  | Some error => throw error
  | None => ret tt
  end.

(** [item()]: the caller's function is called; the stage of [OnPostRender]
    is the scheduler's own code. *)
Definition call (item : Value) : Method unit :=
  match item with
  | VFunction f => on_item (item_call item) ;; in_Scheduler (invoke (timers H) f)
  | _ => throw (MkError "TypeError: item is not a function")
  end.

Definition CleanItem (item : Value) : Method unit :=
  if negb (is_object item) then
    throw (MkError "TypeError: cannot use 'in' operator in a value that is not an object")
  else if has_Destroy H item then on_item (item_Destroy item)
  else
    scheduled <- in_Scheduler (IsScheduled item) ;;
    if scheduled then
      match item with
      | VArray address => in_Scheduler (Cancel (timers H) address)
      | _ => ret tt
      end
    else if is_observer H item then on_item (item_disconnect item)
    else if IsConnection H item then on_item (item_Disconnect item)
    else if is_HTMLElement H item then on_item (item_remove item)
    else call item.

Definition Has (key : Value) : Method bool :=
  this <- get ;;
  ret (if DestroyedState this then false else Map_has key (Items this)).

Definition Get (key : Value) : Method Value :=
  this <- get ;;
  ret (if DestroyedState this then VUndefined else Map_get key (Items this)).

Definition Clean (key : Value) : Method unit :=
  this <- get ;;
  if DestroyedState this then ret tt
  else
    let item := Map_get key (Items this) in
    if negb (is_undefined item) then
      set_Items (Map_delete key (Items this)) ;;
      CleanItem item
    else ret tt.

(** [Give(item, key)]; an argument left out is [undefined]. *)
Definition Give (item key : Value) : Method Value :=
  this <- get ;;
  if DestroyedState this then
    CleanItem item ;;
    ret item
  else
    finalKey <- (if nullish key then unique_id H else ret key) ;;
    present <- Has finalKey ;;
    (if present then Clean finalKey else ret tt) ;;
    this <- get ;;
    set_Items (Map_set finalKey item (Items this)) ;;
    ret item.

Definition GiveItems (args : list Value) : Method (list Value) :=
  for_of args (fun item => Give item VUndefined ;; ret tt) ;;
  ret args.

(** The loop of [CleanUp] goes through the entries of the Map in insertion
    order.  An entry deleted before the loop reaches it would be skipped,
    and [Clean] does nothing for a key that is gone; no entry is added
    while the loop runs, since no code outside the class runs here.  So the
    loop is over the keys present when it starts. *)
Definition CleanUp : Method unit :=
  this <- get ;;
  if DestroyedState this then ret tt
  else
    for_of (List.map fst (Items this)) Clean ;;
    this <- get ;;
    if Bool.eqb (DestroyedState this) false then effect (Fire CleanedSignal)
    else ret tt.

Definition IsDestroyed : Method bool :=
  this <- get ;;
  ret (DestroyedState this).

Definition Destroy : Method unit :=
  this <- get ;;
  if Bool.eqb (DestroyedState this) false then
    effect (Fire DestroyingSignal) ;;
    CleanUp ;;
    set_DestroyedState true ;;
    effect (Fire DestroyedSignal) ;;
    effect (Signal_Destroy DestroyingSignal) ;;
    effect (Signal_Destroy CleanedSignal) ;;
    effect (Signal_Destroy DestroyedSignal)
  else ret tt.

End Methods.

(** *** Vocabulary of the statements *)

(** The entries taken in order: each is removed from the Map, then
    cleaned; a throw stops the run, the entry that threw being gone and the
    later ones still there. *)
Fixpoint clean_each (H : Host) (entries : list (Value * Value)) : Method unit :=
  match entries with
  | nil => ret tt
  | (_, item) :: rest => set_Items rest ;; CleanItem H item ;; clean_each H rest
  end.

(** No entry holds [undefined] (which is not an item). *)
Definition holds_items (entries : list (Value * Value)) : bool :=
  forallb (fun entry => negb (is_undefined (snd entry))) entries.

(** An item that [CleanItem] can clean in the world [w]: an object with a
    [Destroy] method, a handle of the scheduler, an observer, a connection,
    an element or a function. *)
Definition cleanable (H : Host) (w : World) (item : Value) : bool :=
  is_object item
  && (has_Destroy H item
      || match item with
         | VArray address => scheduled_shape (elements_of address w)
         | VFunction _ => true
         | _ => false
         end
      || is_observer H item || IsConnection H item || is_HTMLElement H item).

(** No call that [CleanItem] may make on the item throws. *)
Definition returns (H : Host) (item : Value) : bool :=
  match
    throws H (item_Destroy item), throws H (item_disconnect item),
    throws H (item_Disconnect item), throws H (item_remove item),
    throws H (item_call item)
  with
  | None, None, None, None, None => true
  | _, _, _, _, _ => false
  end.

(** A method that leaves the Map, the destroyed state and the ids as they
    are, whether it returns or throws. *)
Definition framed {A} (m : Method A) : Prop :=
  forall this,
    Items (snd (m this)) = Items this
    /\ DestroyedState (snd (m this)) = DestroyedState this
    /\ issued (snd (m this)) = issued this.

(** The Map after [GiveItems(...args)] when nothing has to be cleaned: each
    item is set under the next id. *)
Fixpoint given (H : Host) (entries : list (Value * Value)) (ids : nat)
    (args : list Value) : list (Value * Value) :=
  match args with
  | nil => entries
  | item :: rest => given H (Map_set (GetUniqueId H ids) item entries) (S ids) rest
  end.

(** The ids that [GetUniqueId] returns during [GiveItems(...args)] are new:
    none is a key of the Map when it is returned. *)
Fixpoint new_ids (H : Host) (entries : list (Value * Value)) (ids : nat)
    (args : list Value) : bool :=
  match args with
  | nil => true
  | item :: rest =>
      negb (Map_has (GetUniqueId H ids) entries)
      && new_ids H (Map_set (GetUniqueId H ids) item entries) (S ids) rest
  end.

(** No two entries have the same key, as in a Map. *)
Fixpoint unique_keys (entries : list (Value * Value)) : bool :=
  match entries with
  | nil => true
  | (key, _) :: rest => negb (Map_has key rest) && unique_keys rest
  end.

(** The calls a program makes on a maid. *)
Inductive Call : Set :=
| CallGive (item key : Value)
| CallGiveItems (args : list Value)
| CallGet (key : Value)
| CallHas (key : Value)
| CallClean (key : Value)
| CallCleanUp
| CallIsDestroyed
| CallDestroy.

Definition perform (H : Host) (c : Call) (this : t) : t :=
  match c with
  | CallGive item key => snd (Give H item key this)
  | CallGiveItems args => snd (GiveItems H args this)
  | CallGet key => snd (Get key this)
  | CallHas key => snd (Has key this)
  | CallClean key => snd (Clean H key this)
  | CallCleanUp => snd (CleanUp H this)
  | CallIsDestroyed => snd (IsDestroyed this)
  | CallDestroy => snd (Destroy H this)
  end.

Definition perform_all (H : Host) (cs : list Call) (this : t) : t :=
  List.fold_left (fun this c => perform H c this) cs this.

End Maid.

(* ===================================================================== *)
(** ** The maid as it was before *)
(* ===================================================================== *)

(** Two earlier versions of the class are kept beside the present one: the
    first has no signals and takes maids and functions only; the second has
    the signals and the other kinds of item.  They share, here, the way a
    method runs on a state. *)
Module Run.

Definition Method (S A : Type) : Type := S -> Completion A * S.

Definition ret {S A} (a : A) : Method S A := fun this => (Normal a, this).

Definition bind {S A B} (m : Method S A) (k : A -> Method S B) : Method S B :=
  fun this =>
    match m this with
    | (Normal a, this') => k a this'
    | (Throw e, this') => (Throw e, this')
    end.

Definition get {S} : Method S S := fun this => (Normal this, this).

Definition throw {S A} (e : Error) : Method S A := fun this => (Throw e, this).

Declare Scope run_scope.
Delimit Scope run_scope with run.
Notation "x <- m ;; k" := (bind m (fun x => k))
  (at level 61, m at next level, right associativity) : run_scope.
Notation "m ;; k" := (bind m (fun _ => k))
  (at level 61, right associativity) : run_scope.

Fixpoint for_of {S A} (l : list A) (body : A -> Method S unit) : Method S unit :=
  match l with
  | nil => ret tt
  | x :: rest => bind (body x) (fun _ => for_of rest body)
  end.

End Run.

(** The first version (the second half of [Maid.ts]).  As for the present
    class, a call of a method of another object is recorded, and a function
    that is called is the caller's (recorded) or the scheduler's (run). *)
Module FirstMaid.

Import Scheduler.
Import Run.
Local Open Scope run_scope.
Local Open Scope list_scope.

(** The answers of the host's timers, [item instanceof Maid], and the n-th
    answer of [GetUniqueId]. *)
Record Host : Set := mkHost {
  timers : nat -> number;
  is_Maid : Value -> bool;
  GetUniqueId : nat -> Value
}.

(** The instance ([Items], which [Destroy] deletes, and [Destroyed]), the
    scheduler's world, which holds the arrays of the program, the calls
    recorded, and the number of ids issued. *)
Record t : Set := mk {
  Items : option (list (Value * Value));
  Destroyed : bool;
  scheduler : World;
  effects : list Maid.Effect;
  issued : nat
}.

Definition Method (A : Type) : Type := Run.Method t A.

Definition set_Items (items : option (list (Value * Value))) : Method unit :=
  fun this =>
    (Normal tt, mk items (Destroyed this) (scheduler this) (effects this) (issued this)).

Definition set_Destroyed (state : bool) : Method unit :=
  fun this =>
    (Normal tt, mk (Items this) state (scheduler this) (effects this) (issued this)).

Definition effect (e : Maid.Effect) : Method unit :=
  fun this =>
    (Normal tt,
     mk (Items this) (Destroyed this) (scheduler this) (effects this ++ e :: nil)
        (issued this)).

Definition unique_id (H : Host) : Method Value :=
  fun this =>
    (Normal (GetUniqueId H (issued this)),
     mk (Items this) (Destroyed this) (scheduler this) (effects this)
        (S (issued this))).

Definition in_Scheduler {A} (p : Program A) : Method A :=
  fun this =>
    let (a, w) := p (scheduler this) in
    (Normal a, mk (Items this) (Destroyed this) w (effects this) (issued this)).

(** [this.Items]: reading a property of it throws once it is deleted. *)
Definition the_Items : Method (list (Value * Value)) :=
  this <- get ;;
  match Items this with
  | Some entries => ret entries
  | None => throw (MkError "TypeError: this.Items is undefined")
  end.

Definition constructor (w : World) (log : list Maid.Effect) (ids : nat) : t :=
  mk (Some nil) false w log ids.

Section Methods.

Variable H : Host.

Definition call (item : Value) : Method unit :=
  match item with
  | VFunction f => effect (Maid.item_call item) ;; in_Scheduler (invoke (timers H) f)
  | _ => throw (MkError "TypeError: item is not a function")
  end.

Definition CleanItem (item : Value) : Method unit :=
  if Maid.is_object item && is_Maid H item then effect (Maid.item_Destroy item)
  else call item.

(** [Give] returns what [CleanItem] returns, or nothing: [undefined]. *)
Definition Give (item key : Value) : Method unit :=
  this <- get ;;
  if Destroyed this then CleanItem item
  else
    finalKey <- (if ToBoolean key then ret key else unique_id H) ;;
    entries <- the_Items ;;
    set_Items (Some (Maid.Map_set finalKey item entries)).

Definition GiveItems (items : list Value) : Method unit :=
  for_of items (fun item => Give item VUndefined).

Definition Has (key : Value) : Method bool :=
  entries <- the_Items ;;
  ret (Maid.Map_has key entries).

Definition Clean (key : Value) : Method unit :=
  entries <- the_Items ;;
  let item := Maid.Map_get key entries in
  if negb (is_undefined item) then
    entries <- the_Items ;;
    set_Items (Some (Maid.Map_delete key entries)) ;;
    CleanItem item
  else ret tt.

(** [for (const key of this.Items)]: the iteration of a Map yields its
    entries, each a new array [[key, value]], and that array is what the
    loop names [key].  The loop is over the entries present when it starts
    (see [Maid.CleanUp]). *)
Definition CleanUp : Method unit :=
  entries <- the_Items ;;
  for_of entries
    (fun entry =>
       key <- in_Scheduler (alloc (fst entry :: snd entry :: nil)) ;;
       Clean (VArray key)).

Definition Destroy : Method unit :=
  this <- get ;;
  if Bool.eqb (Destroyed this) false then
    set_Destroyed true ;;
    CleanUp ;;
    set_Items None
  else ret tt.

End Methods.

(** *** Vocabulary of the statements *)

(** Every array that is a key of the Map is an array of the program. *)
Definition allocated (w : World) (entries : list (Value * Value)) : bool :=
  forallb
    (fun entry =>
       match fst entry with
       | VArray address => Nat.ltb address (length (Scheduler.arrays w))
       | _ => true
       end)
    entries.

(** The world after the loop of [CleanUp] has gone through the entries:
    one new array for each. *)
Definition with_entries (w : World) (entries : list (Value * Value)) : World :=
  mkWorld
    (Scheduler.arrays w
     ++ List.map (fun entry => fst entry :: snd entry :: nil) entries)
    (calls w).

End FirstMaid.

(** The second version ([part_002]): the signals and the other kinds of
    item are there, and [Give] returns the item. *)
Module SecondMaid.

Import Scheduler.
Import Run.
Local Open Scope run_scope.
Local Open Scope list_scope.

(** As for the present class, and what [GetEvent] returns for a signal. *)
Record Host : Set := mkHost {
  timers : nat -> number;
  is_Maid : Value -> bool;
  is_observer : Value -> bool;
  IsConnection : Value -> bool;
  is_HTMLElement : Value -> bool;
  GetUniqueId : nat -> Value;
  GetEvent : Maid.SignalName -> Value
}.

(** The instance: [Items] and the three signals, which [Destroy] deletes,
    [DestroyedState], and the three events; then the world around it. *)
Record t : Set := mk {
  Items : option (list (Value * Value));
  DestroyedState : bool;
  Signals : bool;
  Destroying : Value;
  Cleaned : Value;
  Destroyed : Value;
  scheduler : World;
  effects : list Maid.Effect;
  issued : nat
}.

Definition Method (A : Type) : Type := Run.Method t A.

Definition set_Items (items : option (list (Value * Value))) : Method unit :=
  fun this =>
    (Normal tt,
     mk items (DestroyedState this) (Signals this) (Destroying this) (Cleaned this)
        (Destroyed this) (scheduler this) (effects this) (issued this)).

Definition set_DestroyedState (state : bool) : Method unit :=
  fun this =>
    (Normal tt,
     mk (Items this) state (Signals this) (Destroying this) (Cleaned this)
        (Destroyed this) (scheduler this) (effects this) (issued this)).

Definition delete_Signals : Method unit :=
  fun this =>
    (Normal tt,
     mk (Items this) (DestroyedState this) false (Destroying this) (Cleaned this)
        (Destroyed this) (scheduler this) (effects this) (issued this)).

Definition effect (e : Maid.Effect) : Method unit :=
  fun this =>
    (Normal tt,
     mk (Items this) (DestroyedState this) (Signals this) (Destroying this)
        (Cleaned this) (Destroyed this) (scheduler this) (effects this ++ e :: nil)
        (issued this)).

Definition unique_id (H : Host) : Method Value :=
  fun this =>
    (Normal (GetUniqueId H (issued this)),
     mk (Items this) (DestroyedState this) (Signals this) (Destroying this)
        (Cleaned this) (Destroyed this) (scheduler this) (effects this)
        (S (issued this))).

Definition in_Scheduler {A} (p : Program A) : Method A :=
  fun this =>
    let (a, w) := p (scheduler this) in
    (Normal a,
     mk (Items this) (DestroyedState this) (Signals this) (Destroying this)
        (Cleaned this) (Destroyed this) w (effects this) (issued this)).

Definition the_Items : Method (list (Value * Value)) :=
  this <- get ;;
  match Items this with
  | Some entries => ret entries
  | None => throw (MkError "TypeError: this.Items is undefined")
  end.

(** A call of a method of one of the signals. *)
Definition on_signal (e : Maid.Effect) : Method unit :=
  this <- get ;;
  if Signals this then effect e
  else throw (MkError "TypeError: the signal is undefined").

Definition constructor (H : Host) (w : World) (log : list Maid.Effect) (ids : nat)
  : t :=
  mk (Some nil) false true
     (GetEvent H Maid.DestroyingSignal) (GetEvent H Maid.CleanedSignal)
     (GetEvent H Maid.DestroyedSignal) w
     (log ++ Maid.new_Signal Maid.DestroyingSignal
          :: Maid.new_Signal Maid.CleanedSignal
          :: Maid.new_Signal Maid.DestroyedSignal
          :: Maid.GetEvent Maid.DestroyingSignal
          :: Maid.GetEvent Maid.CleanedSignal
          :: Maid.GetEvent Maid.DestroyedSignal :: nil)
     ids.

Section Methods.

Variable H : Host.

Definition call (item : Value) : Method unit :=
  match item with
  | VFunction f => effect (Maid.item_call item) ;; in_Scheduler (invoke (timers H) f)
  | _ => throw (MkError "TypeError: item is not a function")
  end.

(** [instanceof] is false of a value that is not an object. *)
Definition CleanItem (item : Value) : Method unit :=
  if Maid.is_object item && is_Maid H item then effect (Maid.item_Destroy item)
  else if Maid.is_object item && is_observer H item then
    effect (Maid.item_disconnect item)
  else if IsConnection H item then effect (Maid.item_Disconnect item)
  else if Maid.is_object item && is_HTMLElement H item then
    effect (Maid.item_remove item)
  else call item.

(** [if (this.Destroyed)] reads the event, not [DestroyedState]. *)
Definition Give (item key : Value) : Method Value :=
  this <- get ;;
  if ToBoolean (Destroyed this) then
    CleanItem item ;;
    ret item
  else
    finalKey <- (if ToBoolean key then ret key else unique_id H) ;;
    entries <- the_Items ;;
    set_Items (Some (Maid.Map_set finalKey item entries)) ;;
    ret item.

Definition GiveItems (items : list Value) : Method (list Value) :=
  for_of items (fun item => Give item VUndefined ;; ret tt) ;;
  ret items.

Definition Has (key : Value) : Method bool :=
  entries <- the_Items ;;
  ret (Maid.Map_has key entries).

Definition Clean (key : Value) : Method unit :=
  entries <- the_Items ;;
  let item := Maid.Map_get key entries in
  if negb (is_undefined item) then
    entries <- the_Items ;;
    set_Items (Some (Maid.Map_delete key entries)) ;;
    CleanItem item
  else ret tt.

Definition CleanUp : Method unit :=
  entries <- the_Items ;;
  for_of entries
    (fun entry =>
       key <- in_Scheduler (alloc (fst entry :: snd entry :: nil)) ;;
       Clean (VArray key)) ;;
  this <- get ;;
  if Bool.eqb (DestroyedState this) false then on_signal (Maid.Fire Maid.CleanedSignal)
  else ret tt.

Definition IsDestroyed : Method bool :=
  this <- get ;;
  ret (DestroyedState this).

Definition Destroy : Method unit :=
  this <- get ;;
  if Bool.eqb (DestroyedState this) false then
    set_DestroyedState true ;;
    on_signal (Maid.Fire Maid.DestroyingSignal) ;;
    CleanUp ;;
    set_Items None ;;
    on_signal (Maid.Fire Maid.DestroyedSignal) ;;
    on_signal (Maid.Signal_Destroy Maid.DestroyingSignal) ;;
    on_signal (Maid.Signal_Destroy Maid.CleanedSignal) ;;
    on_signal (Maid.Signal_Destroy Maid.DestroyedSignal) ;;
    delete_Signals
  else ret tt.

End Methods.

(** *** Vocabulary of the statements *)

Inductive Call : Set :=
| CallGive (item key : Value)
| CallGiveItems (items : list Value)
| CallHas (key : Value)
| CallClean (key : Value)
| CallCleanUp
| CallIsDestroyed
| CallDestroy.

Definition perform (H : Host) (c : Call) (this : t) : t :=
  match c with
  | CallGive item key => snd (Give H item key this)
  | CallGiveItems items => snd (GiveItems H items this)
  | CallHas key => snd (Has key this)
  | CallClean key => snd (Clean H key this)
  | CallCleanUp => snd (CleanUp H this)
  | CallIsDestroyed => snd (IsDestroyed this)
  | CallDestroy => snd (Destroy H this)
  end.

Definition perform_all (H : Host) (cs : list Call) (this : t) : t :=
  List.fold_left (fun this c => perform H c this) cs this.

(** The Map holds nothing: it is empty or deleted. *)
Definition holds_nothing (this : t) : bool :=
  match Items this with
  | Some nil | None => true
  | Some (_ :: _) => false
  end.

End SecondMaid.

(* ===================================================================== *)
(** ** Facts about binary64 arithmetic *)
(* ===================================================================== *)

(** Proved on [spec_float] and carried to the primitive operations by
    [FloatAxioms]. *)

Lemma SFcompare_refl f : f <> S754_nan -> SFcompare f f = Some Eq.
Proof.
  destruct f as [s|s| |s m e]; simpl; intros H; try congruence.
  - destruct s; reflexivity.
  - destruct s; rewrite Z.compare_refl, Pos.compare_cont_refl; reflexivity.
Qed.

Lemma SFeqb_refl f : f <> S754_nan -> SFeqb f f = true.
Proof. intros H. unfold SFeqb. rewrite SFcompare_refl by assumption. reflexivity. Qed.

(** Equal numbers are the same number, or two zeros. *)
Lemma SFeqb_true a b :
  SFeqb a b = true -> a = b \/ (SFis_zero a = true /\ SFis_zero b = true).
Proof.
  unfold SFeqb.
  destruct a as [sa|sa| |sa ma ea], b as [sb|sb| |sb mb eb]; simpl;
    try discriminate; try (right; split; reflexivity);
    try (destruct sa, sb; (discriminate || (left; reflexivity))).
  destruct sa, sb; try discriminate;
    destruct (Z.compare_spec ea eb) as [He|He|He]; try discriminate;
    intros H; left; subst eb; f_equal.
  - destruct (Pos.compare_cont Eq ma mb) eqn:Hm; try discriminate.
    apply Pos.compare_eq in Hm. assumption.
  - destruct (Pos.compare_cont Eq ma mb) eqn:Hm; try discriminate.
    apply Pos.compare_eq in Hm. assumption.
Qed.

Lemma SFleb_not_SFltb a b : SFleb a b = true -> SFltb b a = false.
Proof.
  unfold SFleb, SFltb.
  destruct a as [sa|sa| |sa ma ea], b as [sb|sb| |sb mb eb]; simpl;
    try reflexivity; try discriminate;
    try (destruct sa; (reflexivity || discriminate));
    try (destruct sb; (reflexivity || discriminate));
    try (destruct sa, sb; (reflexivity || discriminate)).
  change (Pos.compare_cont Eq ma mb) with (Pos.compare ma mb).
  change (Pos.compare_cont Eq mb ma) with (Pos.compare mb ma).
  destruct sa, sb; try reflexivity; try discriminate;
    destruct (Z.compare_spec ea eb), (Z.compare_spec eb ea); try lia;
    try reflexivity; try discriminate;
    destruct (Pos.compare_spec ma mb), (Pos.compare_spec mb ma); try lia;
    try reflexivity; try discriminate.
Qed.

(** x - x is +0 for a finite x. *)
Lemma SFsub_diag s m e :
  SFsub prec emax (S754_finite s m e) (S754_finite s m e) = S754_zero false.
Proof.
  unfold SFsub. rewrite Z.min_id. unfold shl_align. rewrite Z.sub_diag.
  reflexivity.
Qed.

(** *** Multiplying by one is exact

    The mantissa of the product is [m * 2^52] at the exponent [e - 52];
    rounding shifts the 52 zero bits out again. *)

Lemma digits2_pos_shift52 m :
  digits2_pos (4503599627370496 * m) = (digits2_pos m + 52)%positive.
Proof.
  change (4503599627370496 * m)%positive with
    (m~0~0~0~0~0~0~0~0~0~0~0~0~0~0~0~0~0~0~0~0~0~0~0~0~0~0
      ~0~0~0~0~0~0~0~0~0~0~0~0~0~0~0~0~0~0~0~0~0~0~0~0~0~0)%positive.
  cbn [digits2_pos]. lia.
Qed.

Lemma iter_shr_52 m :
  iter_pos shr_1 52 (Build_shr_record (Zpos (4503599627370496 * m)) false false)
  = Build_shr_record (Zpos m) false false.
Proof. reflexivity. Qed.

Lemma SFmul_one_r f :
  valid_binary f = true -> SFmul prec emax f SFone = f.
Proof.
  destruct f as [s|s| |s m e]; intros Hv;
    [destruct s; reflexivity | destruct s; reflexivity | reflexivity | ].
  cbn [valid_binary] in Hv. cbn [SFone SFmul].
  unfold bounded, canonical_mantissa in Hv.
  apply andb_true_iff in Hv as [Hc Hb].
  apply Z.eqb_eq in Hc.
  rewrite Pos.mul_comm.
  unfold binary_round_aux, shr_fexp, Zdigits2.
  rewrite digits2_pos_shift52.
  replace (Z.pos (digits2_pos m + 52) + (e + -52))%Z
    with (Z.pos (digits2_pos m) + e)%Z by lia.
  rewrite Hc.
  replace (e - (e + -52))%Z with 52%Z by lia.
  unfold shr, shr_record_of_loc.
  rewrite iter_shr_52.
  cbn [loc_of_shr_record shr_m round_nearest_even Zdigits2].
  replace (e + -52 + 52)%Z with e by lia.
  rewrite Hc, Z.sub_diag.
  cbn [shr_m].
  rewrite Hb.
  destruct s; reflexivity.
Qed.

(** *** The primitive operations *)

Lemma is_nan_spec x : is_nan x = SFis_nan (Prim2SF x).
Proof.
  unfold is_nan. rewrite eqb_spec. unfold SFeqb.
  destruct (Prim2SF x) eqn:E; try reflexivity;
    rewrite SFcompare_refl by discriminate; reflexivity.
Qed.

Lemma is_zero_spec x : is_zero x = SFis_zero (Prim2SF x).
Proof.
  unfold is_zero. rewrite eqb_spec. change (Prim2SF zero) with (S754_zero false).
  unfold SFeqb.
  destruct (Prim2SF x) as [s|s| |s m e]; simpl; try reflexivity; destruct s; reflexivity.
Qed.

Lemma is_infinity_spec x :
  is_infinity x = match Prim2SF x with S754_infinity _ => true | _ => false end.
Proof.
  unfold is_infinity. rewrite eqb_spec, abs_spec.
  change (Prim2SF infinity) with (S754_infinity false).
  destruct (Prim2SF x) as [s|s| |s m e]; reflexivity.
Qed.

Lemma zero_or_nan_spec x : zero_or_nan x = SFzero_or_nan (Prim2SF x).
Proof. unfold zero_or_nan. rewrite is_nan_spec, is_zero_spec. reflexivity. Qed.

Lemma equal_or_nan_spec x y : equal_or_nan x y = SFequal_or_nan (Prim2SF x) (Prim2SF y).
Proof. unfold equal_or_nan, SFequal_or_nan. rewrite eqb_spec, is_nan_spec. reflexivity. Qed.

Lemma is_nan_true x : is_nan x = true -> x = nan.
Proof.
  rewrite is_nan_spec. intros H. apply Prim2SF_inj.
  destruct (Prim2SF x); try discriminate. reflexivity.
Qed.

Lemma is_zero_not_nan x : is_zero x = true -> is_nan x = false.
Proof. rewrite is_zero_spec, is_nan_spec. destruct (Prim2SF x); simpl; congruence. Qed.

Lemma is_zero_not_infinity x : is_zero x = true -> is_infinity x = false.
Proof. rewrite is_zero_spec, is_infinity_spec. destruct (Prim2SF x); simpl; congruence. Qed.

Lemma leb_not_ltb x y : (x <=? y) = true -> (y <? x) = false.
Proof. rewrite leb_spec, ltb_spec. apply SFleb_not_SFltb. Qed.

Lemma ltb_not_eqb x y : (x <? y) = true -> (x =? y) = false.
Proof.
  rewrite ltb_spec, eqb_spec. unfold SFltb, SFeqb.
  destruct (SFcompare (Prim2SF x) (Prim2SF y)) as [[]|]; congruence.
Qed.

(** [x <= y] is [x === y] or [x < y]. *)
Lemma leb_eqb_or_ltb x y : (x <=? y) = true -> (x =? y) = true \/ (x <? y) = true.
Proof.
  rewrite leb_spec, eqb_spec, ltb_spec. unfold SFleb, SFeqb, SFltb.
  destruct (SFcompare (Prim2SF x) (Prim2SF y)) as [[]|]; intros H;
    first [ left; reflexivity | right; reflexivity | discriminate H ].
Qed.

Lemma mul_one_r x : x * 1 = x.
Proof.
  apply Prim2SF_inj. rewrite mul_spec. change (Prim2SF 1) with SFone.
  apply SFmul_one_r, Prim2SF_valid.
Qed.

Lemma mul_nan_r x : x * nan = nan.
Proof.
  apply Prim2SF_inj. rewrite mul_spec. change (Prim2SF nan) with S754_nan.
  unfold SF64mul. destruct (Prim2SF x); reflexivity.
Qed.

(** The square of a zero is +0. *)
Lemma mul_zero_self x : is_zero x = true -> x * x = 0.
Proof.
  rewrite is_zero_spec. intros H. apply Prim2SF_inj. rewrite mul_spec.
  change (Prim2SF 0) with (S754_zero false).
  destruct (Prim2SF x) as [[]| | |]; try discriminate; reflexivity.
Qed.

Lemma is_zero_mul x y : is_zero x = true -> is_zero y = true -> is_zero (x * y) = true.
Proof.
  rewrite !is_zero_spec, mul_spec.
  destruct (Prim2SF x); try discriminate; destruct (Prim2SF y); try discriminate; reflexivity.
Qed.

(** *** How zeros and NaN propagate *)

Lemma zn_zero : zero_or_nan 0 = true.
Proof. reflexivity. Qed.

Lemma zn_is_zero x : is_zero x = true -> zero_or_nan x = true.
Proof. intros H. unfold zero_or_nan. rewrite H. reflexivity. Qed.

Lemma zn_eq_zero x : (x =? 0) = true -> zero_or_nan x = true.
Proof. intros H. apply zn_is_zero. exact H. Qed.

Lemma zn_cases x : zero_or_nan x = true -> is_zero x = true \/ x = nan.
Proof.
  unfold zero_or_nan. intros H.
  apply orb_true_iff in H as [H | H]; [left; exact H | right; apply is_nan_true, H].
Qed.

Lemma zn_mul_l x y : zero_or_nan x = true -> zero_or_nan (x * y) = true.
Proof.
  rewrite !zero_or_nan_spec, mul_spec. unfold SF64mul.
  destruct (Prim2SF x); try discriminate; destruct (Prim2SF y); reflexivity.
Qed.

Lemma zn_mul_r x y : zero_or_nan y = true -> zero_or_nan (x * y) = true.
Proof.
  rewrite !zero_or_nan_spec, mul_spec. unfold SF64mul.
  destruct (Prim2SF y); try discriminate; destruct (Prim2SF x); reflexivity.
Qed.

Lemma zn_add x y :
  zero_or_nan x = true -> zero_or_nan y = true -> zero_or_nan (x + y) = true.
Proof.
  rewrite !zero_or_nan_spec, add_spec. unfold SF64add.
  destruct (Prim2SF x) as [[]| | |]; try discriminate;
    destruct (Prim2SF y) as [[]| | |]; try discriminate; reflexivity.
Qed.

Lemma zn_sub x y :
  zero_or_nan x = true -> zero_or_nan y = true -> zero_or_nan (x - y) = true.
Proof.
  rewrite !zero_or_nan_spec, sub_spec. unfold SF64sub.
  destruct (Prim2SF x) as [[]| | |]; try discriminate;
    destruct (Prim2SF y) as [[]| | |]; try discriminate; reflexivity.
Qed.

(** 0/y is a zero, or NaN when y is a zero or NaN. *)
Lemma zn_div x y : zero_or_nan x = true -> zero_or_nan (x / y) = true.
Proof.
  rewrite !zero_or_nan_spec, div_spec. unfold SF64div.
  destruct (Prim2SF x); try discriminate; destruct (Prim2SF y); reflexivity.
Qed.

(** 0/0 is NaN, and so is every quotient of zeros and NaNs. *)
Lemma div_zn_zn x y :
  zero_or_nan x = true -> zero_or_nan y = true -> x / y = nan.
Proof.
  rewrite !zero_or_nan_spec. intros Hx Hy. apply Prim2SF_inj. rewrite div_spec.
  change (Prim2SF nan) with S754_nan. unfold SF64div.
  destruct (Prim2SF x); try discriminate; destruct (Prim2SF y); try discriminate; reflexivity.
Qed.

(** The difference of equal numbers is a zero (NaN for two infinities). *)
Lemma zn_sub_eq x y : (x =? y) = true -> zero_or_nan (x - y) = true.
Proof.
  rewrite eqb_spec, zero_or_nan_spec, sub_spec. unfold SF64sub. intros H.
  apply SFeqb_true in H as [H | [Ha Hb]].
  - rewrite H. destruct (Prim2SF y) as [[]|[]| |s m e]; try reflexivity.
    rewrite SFsub_diag. reflexivity.
  - destruct (Prim2SF x) as [[]| | |]; try discriminate;
      destruct (Prim2SF y) as [[]| | |]; try discriminate; reflexivity.
Qed.

Lemma one_or_nan_cases c : one_or_nan c = true -> c = 1 \/ c = nan.
Proof.
  unfold one_or_nan. rewrite eqb_spec.
  change (Prim2SF 1) with SFone. intros H.
  apply orb_true_iff in H as [H | H].
  - left. apply Prim2SF_inj. apply SFeqb_true in H as [H | [_ H]]; [exact H | discriminate].
  - right. apply is_nan_true, H.
Qed.

Lemma on_one : one_or_nan 1 = true.
Proof. reflexivity. Qed.

Lemma on_nan : one_or_nan nan = true.
Proof. reflexivity. Qed.

Lemma on_add_zn q z :
  one_or_nan q = true -> zero_or_nan z = true -> one_or_nan (q + z) = true.
Proof.
  intros Hq. apply one_or_nan_cases in Hq as [-> | ->].
  - rewrite zero_or_nan_spec. unfold one_or_nan. rewrite eqb_spec, is_nan_spec, add_spec.
    unfold SF64add. change (Prim2SF 1) with SFone.
    destruct (Prim2SF z); try discriminate; reflexivity.
  - intros _. unfold one_or_nan. rewrite is_nan_spec, add_spec.
    change (Prim2SF nan) with S754_nan. cbn. apply orb_true_r.
Qed.

Lemma on_sub_zn q z :
  one_or_nan q = true -> zero_or_nan z = true -> one_or_nan (q - z) = true.
Proof.
  intros Hq. apply one_or_nan_cases in Hq as [-> | ->].
  - rewrite zero_or_nan_spec. unfold one_or_nan. rewrite eqb_spec, is_nan_spec, sub_spec.
    unfold SF64sub. change (Prim2SF 1) with SFone.
    destruct (Prim2SF z); try discriminate; reflexivity.
  - intros _. unfold one_or_nan. rewrite is_nan_spec, sub_spec.
    change (Prim2SF nan) with S754_nan. cbn. apply orb_true_r.
Qed.

Lemma eon_refl x : equal_or_nan x x = true.
Proof.
  rewrite equal_or_nan_spec. unfold SFequal_or_nan.
  destruct (Prim2SF x) eqn:E; try reflexivity;
    rewrite SFeqb_refl by discriminate; reflexivity.
Qed.

Lemma eon_nan x : equal_or_nan nan x = true.
Proof. rewrite equal_or_nan_spec. reflexivity. Qed.

Lemma eon_zn_zero x : zero_or_nan x = true -> equal_or_nan x 0 = true.
Proof. intros H. exact H. Qed.

(** 0 + g is g. *)
Lemma eon_zn_add_l t g : zero_or_nan t = true -> equal_or_nan (t + g) g = true.
Proof.
  rewrite zero_or_nan_spec, equal_or_nan_spec, add_spec. unfold SF64add, SFequal_or_nan.
  destruct (Prim2SF t) as [[]| | |]; try discriminate; intros _;
    destruct (Prim2SF g) as [[]|[]| |s m e]; try reflexivity;
    cbn [SFadd]; rewrite SFeqb_refl by discriminate; reflexivity.
Qed.

Lemma eon_mul_on a b c :
  equal_or_nan a b = true -> one_or_nan c = true -> equal_or_nan (a * c) b = true.
Proof.
  intros Hab Hc. apply one_or_nan_cases in Hc as [-> | ->].
  - rewrite mul_one_r. exact Hab.
  - rewrite mul_nan_r. apply eon_nan.
Qed.

Lemma eon_add_zn a b z :
  equal_or_nan a b = true -> zero_or_nan z = true -> equal_or_nan (a + z) b = true.
Proof.
  rewrite !equal_or_nan_spec, zero_or_nan_spec, add_spec. unfold SF64add, SFequal_or_nan.
  destruct (Prim2SF z) as [sz| | |]; try discriminate; intros H _.
  - destruct (Prim2SF a) as [sa|sa| |sa ma ea]; try exact H.
    destruct (Prim2SF b) as [[]|[]| |[] mb eb], sa, sz; try discriminate H; reflexivity.
  - destruct (Prim2SF a); reflexivity.
Qed.

Lemma eon_sub_zn a b z :
  equal_or_nan a b = true -> zero_or_nan z = true -> equal_or_nan (a - z) b = true.
Proof.
  rewrite !equal_or_nan_spec, zero_or_nan_spec, sub_spec. unfold SF64sub, SFequal_or_nan.
  destruct (Prim2SF z) as [sz| | |]; try discriminate; intros H _.
  - destruct (Prim2SF a) as [sa|sa| |sa ma ea]; try exact H.
    destruct (Prim2SF b) as [[]|[]| |[] mb eb], sa, sz; try discriminate H; reflexivity.
  - destruct (Prim2SF a); reflexivity.
Qed.

Lemma eon_add_congr a b g :
  equal_or_nan a b = true -> equal_or_nan (a + g) (b + g) = true.
Proof.
  rewrite !equal_or_nan_spec, !add_spec. unfold SF64add, SFequal_or_nan. intros H.
  apply orb_true_iff in H as [H | H].
  - apply SFeqb_true in H as [H | [Ha Hb]].
    + rewrite H.
      destruct (SFadd prec emax (Prim2SF b) (Prim2SF g)) eqn:E; try reflexivity;
        rewrite SFeqb_refl by discriminate; reflexivity.
    + destruct (Prim2SF a) as [[]| | |]; try discriminate;
        destruct (Prim2SF b) as [[]| | |]; try discriminate;
        destruct (Prim2SF g) as [[]|[]| |s m e]; try reflexivity;
        cbn [SFadd]; rewrite SFeqb_refl by discriminate; reflexivity.
  - destruct (Prim2SF a); try discriminate. reflexivity.
Qed.

(** *** How NaN and the infinities propagate *)

Lemma add_nan_l x : nan + x = nan.
Proof.
  apply Prim2SF_inj. rewrite add_spec. change (Prim2SF nan) with S754_nan.
  reflexivity.
Qed.

Lemma add_nan_r x : x + nan = nan.
Proof.
  apply Prim2SF_inj. rewrite add_spec. change (Prim2SF nan) with S754_nan.
  unfold SF64add. destruct (Prim2SF x); reflexivity.
Qed.

Lemma sub_nan_r x : x - nan = nan.
Proof.
  apply Prim2SF_inj. rewrite sub_spec. change (Prim2SF nan) with S754_nan.
  unfold SF64sub. destruct (Prim2SF x); reflexivity.
Qed.

Lemma mul_nan_l x : nan * x = nan.
Proof.
  apply Prim2SF_inj. rewrite mul_spec. change (Prim2SF nan) with S754_nan.
  reflexivity.
Qed.

Lemma sub_nan_l x : nan - x = nan.
Proof.
  apply Prim2SF_inj. rewrite sub_spec. change (Prim2SF nan) with S754_nan.
  reflexivity.
Qed.

Lemma inf_or_nan_spec x : inf_or_nan x = SFinf_or_nan (Prim2SF x).
Proof.
  unfold inf_or_nan. rewrite is_infinity_spec, is_nan_spec.
  destruct (Prim2SF x); reflexivity.
Qed.

(** Whatever is multiplied by infinity is not finite. *)
Lemma ion_mul_infinity x : inf_or_nan (x * infinity) = true.
Proof.
  rewrite inf_or_nan_spec, mul_spec. change (Prim2SF infinity) with (S754_infinity false).
  unfold SF64mul. destruct (Prim2SF x); reflexivity.
Qed.

Lemma ion_add_r x y : inf_or_nan y = true -> inf_or_nan (x + y) = true.
Proof.
  rewrite !inf_or_nan_spec, add_spec. unfold SF64add.
  destruct (Prim2SF y) as [|[]| |]; try discriminate; intros _;
    destruct (Prim2SF x) as [|[]| |]; reflexivity.
Qed.

Lemma ion_sub_r x y : inf_or_nan y = true -> inf_or_nan (x - y) = true.
Proof.
  rewrite !inf_or_nan_spec, sub_spec. unfold SF64sub.
  destruct (Prim2SF y) as [|[]| |]; try discriminate; intros _;
    destruct (Prim2SF x) as [|[]| |]; reflexivity.
Qed.

(** 0 * infinity is NaN. *)
Lemma mul_zn_ion x y : zero_or_nan x = true -> inf_or_nan y = true -> x * y = nan.
Proof.
  rewrite zero_or_nan_spec, inf_or_nan_spec. intros Hx Hy.
  apply Prim2SF_inj. rewrite mul_spec. change (Prim2SF nan) with S754_nan.
  unfold SF64mul.
  destruct (Prim2SF x); try discriminate; destruct (Prim2SF y); try discriminate; reflexivity.
Qed.

Create HintDb zn discriminated.
#[export] Hint Resolve zn_zero zn_mul_l zn_mul_r zn_add zn_sub zn_div : zn.
#[export] Hint Resolve on_one on_add_zn on_sub_zn : zn.
#[export] Hint Resolve eon_refl eon_mul_on eon_add_zn eon_sub_zn eon_add_congr : zn.

(** *** Zeros among finite numbers *)

Lemma is_finite_spec x :
  is_finite x
  = match Prim2SF x with S754_zero _ | S754_finite _ _ _ => true | _ => false end.
Proof.
  unfold is_finite. rewrite is_nan_spec, is_infinity_spec.
  destruct (Prim2SF x); reflexivity.
Qed.

(** The difference of equal finite numbers is a zero. *)
Lemma zero_sub_eq x y :
  (x =? y) = true -> is_finite y = true -> is_zero (x - y) = true.
Proof.
  rewrite eqb_spec, is_finite_spec, is_zero_spec, sub_spec. unfold SF64sub.
  intros H Hy. apply SFeqb_true in H as [H | [Ha Hb]].
  - rewrite H. destruct (Prim2SF y) as [[]|[]| |s m e]; try discriminate; try reflexivity.
    rewrite SFsub_diag. reflexivity.
  - destruct (Prim2SF x) as [[]| | |]; try discriminate;
      destruct (Prim2SF y) as [[]| | |]; try discriminate; reflexivity.
Qed.

(** A zero times a finite number is a zero. *)
Lemma zero_mul_l x y : is_zero x = true -> is_finite y = true -> is_zero (x * y) = true.
Proof.
  rewrite !is_zero_spec, is_finite_spec, mul_spec. unfold SF64mul.
  destruct (Prim2SF x); try discriminate; destruct (Prim2SF y); try discriminate; reflexivity.
Qed.

Lemma zero_mul_r x y : is_finite x = true -> is_zero y = true -> is_zero (x * y) = true.
Proof.
  rewrite !is_zero_spec, is_finite_spec, mul_spec. unfold SF64mul.
  destruct (Prim2SF y); try discriminate; destruct (Prim2SF x); try discriminate; reflexivity.
Qed.

Lemma zero_add x y : is_zero x = true -> is_zero y = true -> is_zero (x + y) = true.
Proof.
  rewrite !is_zero_spec, add_spec. unfold SF64add.
  destruct (Prim2SF x) as [[]| | |]; try discriminate;
    destruct (Prim2SF y) as [[]| | |]; try discriminate; reflexivity.
Qed.

Lemma zero_sub x y : is_zero x = true -> is_zero y = true -> is_zero (x - y) = true.
Proof.
  rewrite !is_zero_spec, sub_spec. unfold SF64sub.
  destruct (Prim2SF x) as [[]| | |]; try discriminate;
    destruct (Prim2SF y) as [[]| | |]; try discriminate; reflexivity.
Qed.

(** 0/y is a zero when y is neither a zero nor NaN. *)
Lemma zero_div x y : is_zero x = true -> can_divide y = true -> is_zero (x / y) = true.
Proof.
  unfold can_divide. rewrite !is_zero_spec, zero_or_nan_spec, div_spec. unfold SF64div.
  destruct (Prim2SF x); try discriminate; destruct (Prim2SF y); try discriminate; reflexivity.
Qed.

(** A zero added to a finite number gives that number (a zero, to a zero). *)
Lemma zero_add_finite x y :
  is_zero x = true -> is_finite y = true -> (x + y =? y) = true.
Proof.
  rewrite is_zero_spec, is_finite_spec, eqb_spec, add_spec. unfold SF64add.
  destruct (Prim2SF x) as [[]| | |]; try discriminate;
    destruct (Prim2SF y) as [[]| | |s m e]; try discriminate; try reflexivity;
    intros _ _; apply SFeqb_refl; discriminate.
Qed.

Lemma zero_is_finite x : is_zero x = true -> is_finite x = true.
Proof.
  rewrite is_zero_spec, is_finite_spec. destruct (Prim2SF x); try discriminate; reflexivity.
Qed.

(** *** Magnitudes

    [below k x] says that x is finite and smaller than 2^k in magnitude.  The
    lemmas bound the result of an operation by the bounds of its operands:
    a product of numbers below 2^a and 2^b is at most 2^(a+b), a sum at
    most 2^(a+1), a quotient by a number of at least 2^j at most 2^(a-j+1);
    and what is at most 2^1023 is finite.  They are proved on the rounding
    of [SpecFloat]. *)

Section Bounds.

Local Open Scope Z_scope.

Lemma digits2_pos_size p : digits2_pos p = Pos.size p.
Proof. induction p as [p IH | p IH | ]; simpl; congruence. Qed.

(** The number of binary digits of a natural number. *)
Lemma Zdigits2_log2 m : 0 < m -> Zdigits2 m = Z.log2 m + 1.
Proof.
  destruct m as [ | p | p]; try lia. intros _. simpl.
  destruct p as [p | p | ]; simpl; rewrite ?digits2_pos_size; lia.
Qed.

Lemma Zdigits2_nonneg m : 0 <= Zdigits2 m.
Proof. destruct m; simpl; lia. Qed.

Lemma Zdigits2_lt_pow2 m k : 0 <= m -> 0 <= k -> m < 2 ^ k -> Zdigits2 m <= k.
Proof.
  intros Hm Hk Hlt. destruct (Z.eq_dec m 0) as [-> | Hne]; [simpl; lia | ].
  rewrite Zdigits2_log2 by lia. apply Z.log2_lt_pow2 in Hlt; lia.
Qed.

Lemma Zdigits2_gt m : 0 <= m -> m < 2 ^ Zdigits2 m.
Proof.
  intros Hm. destruct (Z.eq_dec m 0) as [-> | Hne]; [simpl; lia | ].
  rewrite Zdigits2_log2 by lia.
  pose proof (Z.log2_spec m ltac:(lia)) as [_ H].
  replace (Z.log2 m + 1) with (Z.succ (Z.log2 m)) by lia. exact H.
Qed.

Lemma Zdigits2_le m : 0 < m -> 2 ^ (Zdigits2 m - 1) <= m.
Proof.
  intros Hm. rewrite Zdigits2_log2 by lia.
  replace (Z.log2 m + 1 - 1) with (Z.log2 m) by lia.
  apply Z.log2_spec. lia.
Qed.

Lemma Zdigits2_mono m n : 0 <= m <= n -> Zdigits2 m <= Zdigits2 n.
Proof.
  intros [Hm Hmn]. apply Zdigits2_lt_pow2; [lia | apply Zdigits2_nonneg | ].
  pose proof (Zdigits2_gt n ltac:(lia)). lia.
Qed.

Lemma Zdigits2_succ m : 0 <= m -> Zdigits2 (m + 1) <= Zdigits2 m + 1.
Proof.
  intros Hm. pose proof (Zdigits2_nonneg m) as Hd.
  apply Zdigits2_lt_pow2; [lia | lia | ].
  pose proof (Zdigits2_gt m Hm). rewrite Z.pow_add_r by lia. lia.
Qed.

Lemma Zdigits2_mul m n : 0 <= m -> 0 <= n -> Zdigits2 (m * n) <= Zdigits2 m + Zdigits2 n.
Proof.
  intros Hm Hn. pose proof (Zdigits2_nonneg m). pose proof (Zdigits2_nonneg n).
  apply Zdigits2_lt_pow2; [nia | lia | ].
  pose proof (Zdigits2_gt m Hm). pose proof (Zdigits2_gt n Hn).
  rewrite Z.pow_add_r by lia. nia.
Qed.

Lemma Zdigits2_add m n :
  0 <= m -> 0 <= n -> Zdigits2 (m + n) <= Z.max (Zdigits2 m) (Zdigits2 n) + 1.
Proof.
  intros Hm Hn. pose proof (Zdigits2_nonneg m). pose proof (Zdigits2_nonneg n).
  apply Zdigits2_lt_pow2; [lia | lia | ].
  pose proof (Zdigits2_gt m Hm). pose proof (Zdigits2_gt n Hn).
  assert (2 ^ Zdigits2 m <= 2 ^ Z.max (Zdigits2 m) (Zdigits2 n))
    by (apply Z.pow_le_mono_r; lia).
  assert (2 ^ Zdigits2 n <= 2 ^ Z.max (Zdigits2 m) (Zdigits2 n))
    by (apply Z.pow_le_mono_r; lia).
  rewrite Z.pow_add_r by lia. lia.
Qed.

Lemma Zdigits2_pos m : 0 < m -> 1 <= Zdigits2 m.
Proof. destruct m; simpl; lia. Qed.

(** *** Shifting right and rounding *)

Lemma shr_1_digits mrs :
  0 <= shr_m mrs ->
  0 <= shr_m (shr_1 mrs)
  /\ (0 < shr_m (shr_1 mrs) -> Zdigits2 (shr_m (shr_1 mrs)) + 1 = Zdigits2 (shr_m mrs)).
Proof.
  destruct mrs as [m r s]. simpl.
  destruct m as [ | [p | p | ] | p]; simpl; lia.
Qed.

Lemma iter_shr_1_digits p :
  forall mrs,
    0 <= shr_m mrs ->
    0 <= shr_m (iter_pos shr_1 p mrs)
    /\ (0 < shr_m (iter_pos shr_1 p mrs) ->
        Zdigits2 (shr_m (iter_pos shr_1 p mrs)) + Zpos p = Zdigits2 (shr_m mrs)).
Proof.
  induction p as [p IH | p IH | ]; intros mrs Hm; cbn [iter_pos].
  - destruct (shr_1_digits mrs Hm) as [H1 E1].
    destruct (IH _ H1) as [H2 E2]. destruct (IH _ H2) as [H3 E3].
    split; [exact H3 | ]. intros Hpos. specialize (E3 Hpos).
    assert (0 < shr_m (iter_pos shr_1 p (shr_1 mrs))) as Hpos2.
    { pose proof (Zdigits2_pos _ Hpos).
      destruct (Z.eq_dec (shr_m (iter_pos shr_1 p (shr_1 mrs))) 0) as [E | ];
        [rewrite E in E3; simpl in E3 | ]; lia. }
    specialize (E2 Hpos2).
    assert (0 < shr_m (shr_1 mrs)) as Hpos1.
    { pose proof (Zdigits2_pos _ Hpos2).
      destruct (Z.eq_dec (shr_m (shr_1 mrs)) 0) as [E | ];
        [rewrite E in E2; simpl in E2 | ]; lia. }
    specialize (E1 Hpos1). lia.
  - destruct (IH _ Hm) as [H2 E2]. destruct (IH _ H2) as [H3 E3].
    split; [exact H3 | ]. intros Hpos. specialize (E3 Hpos).
    assert (0 < shr_m (iter_pos shr_1 p mrs)) as Hpos2.
    { pose proof (Zdigits2_pos _ Hpos).
      destruct (Z.eq_dec (shr_m (iter_pos shr_1 p mrs)) 0) as [E | ];
        [rewrite E in E3; simpl in E3 | ]; lia. }
    specialize (E2 Hpos2). lia.
  - apply shr_1_digits, Hm.
Qed.

Lemma shr_m_of_loc m l : shr_m (shr_record_of_loc m l) = m.
Proof. destruct l as [ | []]; reflexivity. Qed.

(** What [shr_fexp] leaves: the exponent of the format, or the one it was
    given when that is higher, and no more digits above it. *)
Lemma shr_fexp_digits m e l :
  0 <= m ->
  let '(mrs, e') := shr_fexp prec emax m e l in
  e' = Z.max e (fexp prec emax (Zdigits2 m + e))
  /\ 0 <= shr_m mrs
  /\ (0 < shr_m mrs -> Zdigits2 (shr_m mrs) + e' <= Zdigits2 m + e).
Proof.
  intros Hm. unfold shr_fexp, shr.
  destruct (fexp prec emax (Zdigits2 m + e) - e) as [ | p | p] eqn:E.
  - rewrite shr_m_of_loc. repeat split; lia.
  - pose proof (iter_shr_1_digits p (shr_record_of_loc m l)) as H.
    rewrite shr_m_of_loc in H. destruct (H Hm) as [H1 H2].
    repeat split; [lia | exact H1 | ]. intros Hpos. specialize (H2 Hpos). lia.
  - rewrite shr_m_of_loc. repeat split; lia.
Qed.

Lemma round_nearest_even_bounds m l :
  m <= round_nearest_even m l <= m + 1.
Proof.
  unfold round_nearest_even. destruct l as [ | []]; try lia.
  destruct (Z.even m); lia.
Qed.

(** Rounding a number below 2^K: the result is a zero, or finite and at most
    2^K. *)
Lemma binary_round_aux_bound sx mx ex lx K :
  0 <= mx ->
  Zdigits2 mx + ex <= K ->
  ex <= Z.max (K - 53) (-1074) ->
  -1074 <= K <= 1023 ->
  SFbelow (K + 1) (binary_round_aux prec emax sx mx ex lx) = true.
Proof.
  intros Hmx HK Hex HKrange. unfold binary_round_aux.
  pose proof (shr_fexp_digits mx ex lx Hmx) as H1.
  destruct (shr_fexp prec emax mx ex lx) as [mrs' e'].
  destruct H1 as (He' & Hm' & Hd').
  pose proof (round_nearest_even_bounds (shr_m mrs') (loc_of_shr_record mrs')) as Hr.
  set (mr := round_nearest_even (shr_m mrs') (loc_of_shr_record mrs')) in *.
  pose proof (shr_fexp_digits mr e' loc_Exact ltac:(lia)) as H2.
  destruct (shr_fexp prec emax mr e' loc_Exact) as [mrs'' e''].
  destruct H2 as (He'' & Hm'' & Hd'').
  unfold fexp, emin in He', He''. change prec with 53 in *. change emax with 1024 in *.
  assert (Hdr : Zdigits2 mr + e' <= K + 1).
  { pose proof (Zdigits2_succ (shr_m mrs') Hm').
    pose proof (Zdigits2_mono mr (shr_m mrs' + 1) ltac:(lia)).
    destruct (Z.eq_dec (shr_m mrs') 0) as [E | Hne].
    - rewrite E in *. simpl in *. lia.
    - lia. }
  destruct (shr_m mrs'') as [ | m | m] eqn:Em; [reflexivity | | lia].
  replace (e'' <=? 1024 - 53) with true by (symmetry; apply Z.leb_le; lia).
  cbn [SFbelow]. apply Z.leb_le.
  change (Zpos (digits2_pos m)) with (Zdigits2 (Zpos m)). lia.
Qed.

(** *** The operations on numbers of bounded magnitude *)

Lemma SFbelow_mono a b f : a <= b -> SFbelow a f = true -> SFbelow b f = true.
Proof.
  intros Hab. destruct f as [s | s | | s m e]; cbn [SFbelow]; try easy.
  rewrite !Z.leb_le. lia.
Qed.

(** A number of the format: at most 53 digits, and exactly 53 above the
    lowest exponent. *)
Lemma bounded_inv m e :
  bounded prec emax m e = true ->
  1 <= Zpos (digits2_pos m) <= 53
  /\ -1074 <= e <= 971
  /\ (e = -1074 \/ Zpos (digits2_pos m) = 53).
Proof.
  unfold bounded, canonical_mantissa, fexp, emin.
  change prec with 53. change emax with 1024.
  rewrite andb_true_iff, Z.eqb_eq, Z.leb_le. lia.
Qed.

Lemma SFmul_below a b x y :
  valid_binary x = true ->
  valid_binary y = true ->
  SFbelow a x = true ->
  SFbelow b y = true ->
  -1074 <= a + b <= 1023 ->
  SFbelow (a + b + 1) (SFmul prec emax x y) = true.
Proof.
  intros Vx Vy Hx Hy Hab.
  destruct x as [sx | sx | | sx mx ex], y as [sy | sy | | sy my ey];
    try discriminate; try reflexivity.
  cbn [valid_binary] in Vx, Vy. apply bounded_inv in Vx, Vy.
  cbn [SFbelow] in Hx, Hy. apply Z.leb_le in Hx, Hy.
  cbn [SFmul]. apply binary_round_aux_bound; try lia.
  - pose proof (Zdigits2_mul (Zpos mx) (Zpos my) ltac:(lia) ltac:(lia)) as H.
    cbn [Zdigits2] in H. rewrite Pos2Z.inj_mul. cbn [Zdigits2]. lia.
Qed.

Lemma digits2_pos_shift m d :
  Zpos (digits2_pos (Pos.iter xO m d)) = Zpos (digits2_pos m) + Zpos d.
Proof.
  induction d as [ | d IH] using Pos.peano_ind.
  - simpl. lia.
  - rewrite Pos.iter_succ. cbn [digits2_pos]. lia.
Qed.

(** Aligning keeps the magnitude and never raises the exponent. *)
Lemma shl_align_digits mx ex ex' :
  let '(mz, ez) := shl_align mx ex ex' in
  Zpos (digits2_pos mz) + ez = Zpos (digits2_pos mx) + ex
  /\ ez = Z.min ex ex'.
Proof.
  unfold shl_align. destruct (ex' - ex) as [ | d | d] eqn:E.
  - split; lia.
  - split; lia.
  - rewrite digits2_pos_shift. split; lia.
Qed.

Lemma binary_round_bound sx mx ex K :
  Zpos (digits2_pos mx) + ex <= K ->
  -1074 <= K <= 1023 ->
  SFbelow (K + 1) (binary_round prec emax sx mx ex) = true.
Proof.
  intros HK HKrange. unfold binary_round.
  pose proof (shl_align_digits mx ex (fexp prec emax (Zpos (digits2_pos mx) + ex))) as H.
  destruct (shl_align mx ex (fexp prec emax (Zpos (digits2_pos mx) + ex))) as [mz ez].
  destruct H as [Hd He]. unfold fexp, emin in He.
  change prec with 53 in He. change emax with 1024 in He.
  apply binary_round_aux_bound; cbn [Zdigits2]; lia.
Qed.

Lemma Zdigits2_abs m : Zdigits2 (Z.abs m) = Zdigits2 m.
Proof. destruct m; reflexivity. Qed.

Lemma binary_normalize_bound m e szero K :
  Zdigits2 m + e <= K ->
  -1074 <= K <= 1023 ->
  SFbelow (K + 1) (binary_normalize prec emax m e szero) = true.
Proof.
  intros HK HKrange. destruct m as [ | p | p]; cbn [binary_normalize];
    [reflexivity | | ]; apply binary_round_bound; cbn [Zdigits2] in HK; lia.
Qed.

(** The sum and the difference of two aligned mantissas. *)
Lemma aligned_sum_digits (op : Z -> Z -> Z) sx mx ex sy my ey a :
  (forall u v, Z.abs (op u v) <= Z.abs u + Z.abs v) ->
  Zpos (digits2_pos mx) + ex <= a ->
  Zpos (digits2_pos my) + ey <= a ->
  Zdigits2 (op (cond_Zopp sx (Zpos (fst (shl_align mx ex (Z.min ex ey)))))
               (cond_Zopp sy (Zpos (fst (shl_align my ey (Z.min ex ey))))))
  + Z.min ex ey <= a + 1.
Proof.
  intros Hop Hx Hy.
  pose proof (shl_align_digits mx ex (Z.min ex ey)) as H1.
  pose proof (shl_align_digits my ey (Z.min ex ey)) as H2.
  destruct (shl_align mx ex (Z.min ex ey)) as [mx' ex'].
  destruct (shl_align my ey (Z.min ex ey)) as [my' ey'].
  cbn [fst]. destruct H1 as [Hd1 He1], H2 as [Hd2 He2].
  rewrite <- Zdigits2_abs.
  set (u := cond_Zopp sx (Zpos mx')). set (v := cond_Zopp sy (Zpos my')).
  assert (Hu : Z.abs u = Zpos mx') by (unfold u; destruct sx; simpl; lia).
  assert (Hv : Z.abs v = Zpos my') by (unfold v; destruct sy; simpl; lia).
  pose proof (Hop u v) as Habs. rewrite Hu, Hv in Habs.
  pose proof (Zdigits2_mono (Z.abs (op u v)) (Zpos mx' + Zpos my') ltac:(lia)) as Hm.
  pose proof (Zdigits2_add (Zpos mx') (Zpos my') ltac:(lia) ltac:(lia)) as Ha.
  cbn [Zdigits2] in Ha. lia.
Qed.

Lemma SFadd_below a x y :
  SFbelow a x = true ->
  SFbelow a y = true ->
  -1075 <= a <= 1022 ->
  SFbelow (a + 2) (SFadd prec emax x y) = true.
Proof.
  intros Hx Hy Ha.
  destruct x as [sx | sx | | sx mx ex], y as [sy | sy | | sy my ey];
    try discriminate; cbn [SFadd].
  - destruct sx, sy; reflexivity.
  - apply (SFbelow_mono a); [lia | exact Hy].
  - apply (SFbelow_mono a); [lia | exact Hx].
  - cbn [SFbelow] in Hx, Hy. apply Z.leb_le in Hx, Hy.
    replace (a + 2) with (a + 1 + 1) by lia.
    apply binary_normalize_bound; [ | lia].
    apply (aligned_sum_digits Z.add); [intros; lia | assumption | assumption].
Qed.

Lemma SFsub_below a x y :
  SFbelow a x = true ->
  SFbelow a y = true ->
  -1075 <= a <= 1022 ->
  SFbelow (a + 2) (SFsub prec emax x y) = true.
Proof.
  intros Hx Hy Ha.
  destruct x as [sx | sx | | sx mx ex], y as [sy | sy | | sy my ey];
    try discriminate; cbn [SFsub].
  - destruct sx, sy; reflexivity.
  - apply (SFbelow_mono a); [lia | exact Hy].
  - apply (SFbelow_mono a); [lia | exact Hx].
  - cbn [SFbelow] in Hx, Hy. apply Z.leb_le in Hx, Hy.
    replace (a + 2) with (a + 1 + 1) by lia.
    apply binary_normalize_bound; [ | lia].
    apply (aligned_sum_digits Z.sub); [intros; lia | assumption | assumption].
Qed.

(** The digits of a quotient. *)
Lemma Zdigits2_div a b :
  0 <= a -> 0 < b -> 0 < a / b -> Zdigits2 (a / b) + Zdigits2 b <= Zdigits2 a + 1.
Proof.
  intros Ha Hb Hq.
  pose proof (Zdigits2_le (a / b) Hq) as H1.
  pose proof (Zdigits2_le b Hb) as H2.
  pose proof (Zdigits2_gt a Ha) as H3.
  pose proof (Zdigits2_pos _ Hq). pose proof (Zdigits2_pos _ Hb).
  pose proof (Z.mul_div_le a b Hb) as H4.
  assert (2 ^ (Zdigits2 (a / b) - 1 + (Zdigits2 b - 1)) < 2 ^ Zdigits2 a) as Hlt.
  { rewrite Z.pow_add_r by lia. nia. }
  apply Z.pow_lt_mono_r_iff in Hlt; [lia | lia | apply Zdigits2_nonneg].
Qed.

Lemma SFdiv_below a j x y :
  SFbelow a x = true ->
  SFabove j y = true ->
  -1074 <= a - j <= 1023 ->
  SFbelow (a - j + 1) (SFdiv prec emax x y) = true.
Proof.
  intros Hx Hy Haj.
  destruct x as [sx | sx | | sx mx ex], y as [sy | sy | | sy my ey];
    try discriminate; try reflexivity.
  cbn [SFbelow] in Hx. cbn [SFabove] in Hy. apply Z.leb_le in Hx. apply Z.ltb_lt in Hy.
  cbn [SFdiv]. unfold SFdiv_core_binary. cbn [Zdigits2].
  set (d1 := Zpos (digits2_pos mx)) in *. set (d2 := Zpos (digits2_pos my)) in *.
  set (e' := Z.min (fexp prec emax (d1 + ex - (d2 + ey))) (ex - ey)).
  assert (He' : e' <= Z.max (d1 + ex - (d2 + ey) - 53) (-1074) /\ e' <= ex - ey).
  { unfold e', fexp, emin. change prec with 53. change emax with 1024. lia. }
  set (m' := match ex - ey - e' with
             | 0 => Zpos mx
             | Zpos _ => Z.shiftl (Zpos mx) (ex - ey - e')
             | Zneg _ => 0
             end).
  assert (Hm' : m' = Zpos mx * 2 ^ (ex - ey - e')).
  { unfold m'. destruct (ex - ey - e') as [ | s | s] eqn:E; [simpl; lia | | lia].
    rewrite Z.shiftl_mul_pow2 by lia. reflexivity. }
  clearbody m'.
  assert (Hdm' : Zdigits2 m' = d1 + (ex - ey - e')).
  { rewrite Hm', Zdigits2_log2 by (apply Z.mul_pos_pos; [lia | apply Z.pow_pos_nonneg; lia]).
    rewrite Z.log2_mul_pow2 by lia. unfold d1.
    change (Zpos (digits2_pos mx)) with (Zdigits2 (Zpos mx)).
    rewrite Zdigits2_log2 by lia. lia. }
  pose proof (Z_div_mod m' (Zpos my) ltac:(lia)) as Hdiv.
  assert (Hq : fst (Z.div_eucl m' (Zpos my)) = m' / Zpos my) by reflexivity.
  destruct (Z.div_eucl m' (Zpos my)) as [q r]. cbn [fst] in Hq.
  assert (Hm'pos : 0 <= m') by (rewrite Hm'; apply Z.mul_nonneg_nonneg; [lia | apply Z.pow_nonneg; lia]).
  assert (Hq0 : 0 <= q) by (rewrite Hq; apply Z.div_pos; lia).
  apply binary_round_aux_bound; try lia.
  destruct (Z.eq_dec q 0) as [-> | Hne]; [simpl; lia | ].
  pose proof (Zdigits2_div m' (Zpos my) Hm'pos ltac:(lia) ltac:(lia)) as Hd.
  rewrite <- Hq in Hd. cbn [Zdigits2] in Hd. fold d2 in Hd. lia.
Qed.

End Bounds.

Lemma below_mono a b x : (a <= b)%Z -> below a x = true -> below b x = true.
Proof. unfold below. apply SFbelow_mono. Qed.

Lemma below_is_finite k x : below k x = true -> is_finite x = true.
Proof.
  unfold below. rewrite is_finite_spec. destruct (Prim2SF x); try discriminate; reflexivity.
Qed.

Lemma is_zero_below k x : is_zero x = true -> below k x = true.
Proof.
  unfold below. rewrite is_zero_spec. destruct (Prim2SF x); try discriminate; reflexivity.
Qed.

Lemma below_mul a b x y :
  below a x = true -> below b y = true ->
  (-1074 <= a + b <= 1023)%Z ->
  below (a + b + 1) (x * y) = true.
Proof.
  unfold below. rewrite mul_spec. apply SFmul_below; apply Prim2SF_valid.
Qed.

Lemma below_add a b x y :
  below a x = true -> below b y = true ->
  (-1075 <= Z.max a b <= 1022)%Z ->
  below (Z.max a b + 2) (x + y) = true.
Proof.
  unfold below. rewrite add_spec. intros Hx Hy. apply SFadd_below.
  - apply (SFbelow_mono a); [lia | exact Hx].
  - apply (SFbelow_mono b); [lia | exact Hy].
Qed.

Lemma below_sub a b x y :
  below a x = true -> below b y = true ->
  (-1075 <= Z.max a b <= 1022)%Z ->
  below (Z.max a b + 2) (x - y) = true.
Proof.
  unfold below. rewrite sub_spec. intros Hx Hy. apply SFsub_below.
  - apply (SFbelow_mono a); [lia | exact Hx].
  - apply (SFbelow_mono b); [lia | exact Hy].
Qed.

Lemma below_div a j x y :
  below a x = true -> above j y = true ->
  (-1074 <= a - j <= 1023)%Z ->
  below (a - j + 1) (x / y) = true.
Proof. unfold below, above. rewrite div_spec. apply SFdiv_below. Qed.

(** Bounds an expression from the bounds of its leaves, which are
    hypotheses. *)
Ltac bound :=
  first
    [ eassumption
    | lazymatch goal with
      | |- below _ (_ * _) = true => eapply below_mul; [bound | bound | lia]
      | |- below _ (_ + _) = true => eapply below_add; [bound | bound | lia]
      | |- below _ (_ - _) = true => eapply below_sub; [bound | bound | lia]
      | |- below _ (_ / _) = true => eapply below_div; [bound | eassumption | lia]
      end ].

(* ===================================================================== *)
(** ** The host functions at the zeros and at NaN *)
(* ===================================================================== *)

Section HostLaws.

Variable Math : MathObject.
Hypothesis laws : MathLaws Math.

Lemma exp_zn x : zero_or_nan x = true -> one_or_nan (exp Math x) = true.
Proof.
  intros H. apply zn_cases in H as [H | ->].
  - rewrite (exp_zero Math laws x H). reflexivity.
  - rewrite (exp_nan Math laws). reflexivity.
Qed.

Lemma cos_zn x : zero_or_nan x = true -> one_or_nan (cos Math x) = true.
Proof.
  intros H. apply zn_cases in H as [H | ->].
  - rewrite (cos_zero Math laws x H). reflexivity.
  - rewrite (cos_nan Math laws). reflexivity.
Qed.

Lemma sin_zn x : zero_or_nan x = true -> zero_or_nan (sin Math x) = true.
Proof.
  intros H. apply zn_cases in H as [H | ->].
  - rewrite (sin_zero Math laws x H). apply zn_is_zero, H.
  - rewrite (sin_nan Math laws). reflexivity.
Qed.

Lemma pow2_zn x : zero_or_nan x = true -> zero_or_nan (pow Math x 2) = true.
Proof.
  intros H. apply zn_cases in H as [H | ->].
  - apply zn_is_zero, (pow_zero_2 Math laws x H).
  - rewrite (pow_nan_2 Math laws). reflexivity.
Qed.

Lemma pow3_zn x : zero_or_nan x = true -> zero_or_nan (pow Math x 3) = true.
Proof.
  intros H. apply zn_cases in H as [H | ->].
  - apply zn_is_zero, (pow_zero_3 Math laws x H).
  - rewrite (pow_nan_3 Math laws). reflexivity.
Qed.

End HostLaws.

(** The executable host keeps the laws. *)
Lemma SeriesMath_laws : MathLaws SeriesMath.Math.
Proof.
  split; cbn [exp sin cos pow SeriesMath.Math].
  - intros x H. unfold SeriesMath.exp.
    rewrite (is_zero_not_nan x H), H. reflexivity.
  - reflexivity.
  - intros x H. unfold SeriesMath.cos.
    rewrite (is_zero_not_nan x H), (is_zero_not_infinity x H), (mul_zero_self x H).
    reflexivity.
  - reflexivity.
  - intros x H. unfold SeriesMath.sin.
    rewrite (is_zero_not_nan x H), (is_zero_not_infinity x H), H. reflexivity.
  - reflexivity.
  - intros x H. change (SeriesMath.pow x 2) with (x * x). apply is_zero_mul; exact H.
  - intros x H. change (SeriesMath.pow x 3) with ((x * x) * x).
    apply is_zero_mul; [apply is_zero_mul|]; exact H.
  - reflexivity.
  - reflexivity.
Qed.

(* ===================================================================== *)
(** ** The class: what the methods do *)
(* ===================================================================== *)

(** *** The sleep limits *)

Lemma SLEEP_OFFSET_SQ_LIMIT_value : SLEEP_OFFSET_SQ_LIMIT = 2.
Proof. reflexivity. Qed.

Lemma SLEEP_VELOCITY_SQ_LIMIT_value : SLEEP_VELOCITY_SQ_LIMIT = 2.
Proof. reflexivity. Qed.

(** [CanSleep] compares both squares with 2, and leaves the instance as it
    was. *)
Lemma CanSleep_spec Math this :
  CanSleep Math this
  = (Normal (negb ((2 <? pow Math (Velocity this) 2)
                   || (2 <? pow Math (Goal this - Position this) 2))),
     this).
Proof.
  run_method. rewrite SLEEP_OFFSET_SQ_LIMIT_value, SLEEP_VELOCITY_SQ_LIMIT_value.
  destruct (_ || _); reflexivity.
Qed.

(** C1 (the code departs from it).  Both sleep limits are written with [^],
    which is the bitwise exclusive or: [(1/3840)^2] and [1e-2^2] are both
    [0 xor 2 = 2], not (1/3840)^2 and 1e-4.  So on every host [CanSleep]
    compares the two squares with 2: a spring built one unit away from its
    goal, [new Spring(1, 4, 1, 0)], can sleep at once although its squared
    offset 1 is above (1/3840)^2, and so can a spring at its goal with
    velocity 1, although 1 is above 1e-4.  [CanSleep] is a pure query: the
    instance is returned as it was. *)
Theorem CanSleep_limits_are_xor :
  SLEEP_VELOCITY_SQ_LIMIT = 2 /\ SLEEP_OFFSET_SQ_LIMIT = 2
  /\ (forall Math this,
        CanSleep Math this
        = (Normal (negb ((2 <? pow Math (Velocity this) 2)
                         || (2 <? pow Math (Goal this - Position this) 2))),
           this))
  /\ constructor 1 4 1 (Some 0) = Normal (mk 1 4 0 1 0)
  /\ ((1 / 3840) * (1 / 3840) <? (0 - 1) * (0 - 1)) = true
  /\ CanSleep SeriesMath.Math (mk 1 4 0 1 0) = (Normal true, mk 1 4 0 1 0)
  /\ (1e-4 <? 1 * 1) = true
  /\ CanSleep SeriesMath.Math (mk 1 4 0 0 1) = (Normal true, mk 1 4 0 0 1).
Proof.
  repeat apply conj; first [ intros Math this; apply CanSleep_spec | reflexivity ].
Qed.

(** *** The convergence check *)

(** C3.  The constructor, [SetDampingRatio] and [SetFrequency] throw exactly
    when the product of the frequency and the damping ratio that would be
    stored is below zero, and what they throw is the error "Spring will not
    converge"; when the product is at least zero they succeed and store the
    pair (the constructor with the start position, the goal, which defaults
    to the start position, and velocity 0). *)
Theorem convergence_check (startPosition frequency dampingRatio : number)
    (goal : option number) (this : Spring.t) :
  (threw (constructor startPosition frequency dampingRatio goal)
     = (frequency * dampingRatio <? 0)
   /\ ((frequency * dampingRatio <? 0) = true ->
       constructor startPosition frequency dampingRatio goal = Throw will_not_converge)
   /\ ((0 <=? frequency * dampingRatio) = true ->
       constructor startPosition frequency dampingRatio goal
       = Normal (mk dampingRatio frequency
                   (match goal with Some g => g | None => startPosition end)
                   startPosition 0)))
  /\ (threw (fst (SetDampingRatio dampingRatio this))
      = (Frequency this * dampingRatio <? 0)
     /\ ((Frequency this * dampingRatio <? 0) = true ->
         SetDampingRatio dampingRatio this = (Throw will_not_converge, this))
     /\ ((0 <=? Frequency this * dampingRatio) = true ->
         SetDampingRatio dampingRatio this
         = (Normal tt, mk dampingRatio (Frequency this) (Goal this)
                          (Position this) (Velocity this))))
  /\ (threw (fst (SetFrequency frequency this))
      = (frequency * DampingRatio this <? 0)
     /\ ((frequency * DampingRatio this <? 0) = true ->
         SetFrequency frequency this = (Throw will_not_converge, this))
     /\ ((0 <=? frequency * DampingRatio this) = true ->
         SetFrequency frequency this
         = (Normal tt, mk (DampingRatio this) frequency (Goal this)
                          (Position this) (Velocity this)))).
Proof.
  unfold constructor. run_method.
  repeat apply conj;
    first [ intros H; rewrite (leb_not_ltb _ _ H); reflexivity
          | intros H; rewrite H; reflexivity
          | destruct (_ <? 0); reflexivity ].
Qed.

(** C10.  When [SetDampingRatio] or [SetFrequency] throws, the instance is
    left exactly as it was: the check comes before the assignment. *)
Theorem setters_atomic_on_failure (x : number) (this : Spring.t) :
  (threw (fst (SetDampingRatio x this)) = true -> snd (SetDampingRatio x this) = this)
  /\ (threw (fst (SetFrequency x this)) = true -> snd (SetFrequency x this) = this).
Proof.
  run_method. split.
  - destruct (_ <? 0); [reflexivity | discriminate].
  - destruct (_ <? 0); [reflexivity | discriminate].
Qed.

Lemma setters_atomic_on_failure_witness :
  let this := mk 1 4 0 10 3 in
  (threw (fst (SetDampingRatio (-1) this)) = true /\ snd (SetDampingRatio (-1) this) = this)
  /\ (threw (fst (SetFrequency (-1) this)) = true /\ snd (SetFrequency (-1) this) = this).
Proof.
  intros this.
  pose proof (setters_atomic_on_failure (-1) this) as [Hd Hf].
  split; split; [reflexivity | apply Hd; reflexivity | reflexivity | apply Hf; reflexivity].
Defined.

(** *** Step: frame and determinism *)

(** C8.  [Step] assigns [Position] and [Velocity] only: [Frequency],
    [DampingRatio] and [Goal] are the same after the call. *)
Theorem Step_frame (Math : MathObject) (deltaTime : number) (this : Spring.t) :
  let after := snd (Step Math deltaTime this) in
  Frequency after = Frequency this
  /\ DampingRatio after = DampingRatio this
  /\ Goal after = Goal this.
Proof.
  step_regimes this; repeat apply conj; reflexivity.
Qed.

(** C9.  [Step] is a function of the five properties and of [deltaTime]
    (on one host): two instances that agree on them get the same result and
    end in the same state. *)
Theorem Step_deterministic (Math : MathObject) (deltaTime : number) (a b : Spring.t) :
  Position a = Position b -> Velocity a = Velocity b ->
  Frequency a = Frequency b -> DampingRatio a = DampingRatio b ->
  Goal a = Goal b ->
  Step Math deltaTime a = Step Math deltaTime b.
Proof.
  destruct a, b. cbn [DampingRatio Frequency Goal Position Velocity].
  intros -> -> -> -> ->. reflexivity.
Qed.

Lemma Step_deterministic_witness :
  Step SeriesMath.Math (1 / 60) (mk 0.5 4 1 0 0)
  = Step SeriesMath.Math (1 / 60) (mk (1 / 2) (2 + 2) (3 - 2) (0 * 7) (- 0 + 0)).
Proof.
  apply (Step_deterministic SeriesMath.Math (1 / 60)
           (mk 0.5 4 1 0 0) (mk (1 / 2) (2 + 2) (3 - 2) (0 * 7) (- 0 + 0)));
    reflexivity.
Defined.

(** *** Step: the critically damped regime *)

(** C7.  With the damping ratio exactly 1, and f = frequency * 2 pi,
    q = exp(-f dt), w = dt q, [Step] stores
    (position - goal)(q + w f) + velocity w + goal as the position and
    velocity (q - w f) - (position - goal) w f^2 as the velocity, and returns
    the new position. *)
Theorem Step_critically_damped (Math : MathObject)
    (deltaTime frequency goal position velocity : number) :
  let f := frequency * (PI * 2) in
  let q := exp Math ((- f) * deltaTime) in
  let w := deltaTime * q in
  let newPosition := (((position - goal) * (q + w * f)) + (velocity * w)) + goal in
  let newVelocity := (velocity * (q - w * f)) - ((position - goal) * (w * pow Math f 2)) in
  Step Math deltaTime (mk 1 frequency goal position velocity)
  = (Normal newPosition, mk 1 frequency goal newPosition newVelocity).
Proof.
  run_method. change (1 =? 1) with true. cbv beta iota. reflexivity.
Qed.

(** *** Step: the underdamped regime *)

(** C6.  In the underdamped regime (the damping ratio below 1), with
    f = frequency * 2 pi, a = f dt and c = sqrt(1 - d^2),
    [Step] uses the ratios z and y of the specification: z is sin(c a)/c
    when c exceeds epsilon = 1e-5 and a + (((a^2 c^4)/20 - c^2) a^3)/6 when
    c is at most epsilon; y is sin(c a)/(f c) when f c exceeds epsilon and
    dt + (((dt^2 (f c)^4)/20 - (f c)^2) dt^3)/6 when f c is at most
    epsilon. *)
Theorem Step_underdamped_ratios (Math : MathObject) (deltaTime : number)
    (this : Spring.t) :
  (DampingRatio this <? 1) = true ->
  let pw := pow Math in
  let d := DampingRatio this in
  let f := Frequency this * (PI * 2) in
  let a := f * deltaTime in
  let c := sqrt (1 - pw d 2) in
  let i := cos Math (c * a) in
  let j := sin Math (c * a) in
  let q := exp Math ((- d) * a) in
  let z := spec_z Math a c in
  let y := spec_y Math f deltaTime c in
  let goalDistance := Position this - Goal this in
  let newPosition :=
    (((goalDistance * (i + (z * d))) + (Velocity this * y)) * q) + Goal this in
  let newVelocity :=
    ((Velocity this * (i - (z * d))) - (goalDistance * (z * f))) * q in
  Step Math deltaTime this
  = (Normal newPosition,
     mk d (Frequency this) (Goal this) newPosition newVelocity)
  /\ ((1e-5 <? c) = true -> z = j / c)
  /\ ((c <=? 1e-5) = true ->
      z = a + ((((((pw a 2) * (pw c 2)) * (pw c 2)) / 20) - (pw c 2)) * (pw a 3)) / 6)
  /\ ((1e-5 <? f * c) = true -> y = j / (f * c))
  /\ ((f * c <=? 1e-5) = true ->
      y = deltaTime
          + ((((((pw deltaTime 2) * (pw (f * c) 2)) * (pw (f * c) 2)) / 20)
              - (pw (f * c) 2)) * (pw deltaTime 3)) / 6).
Proof.
  intros Hunder. pose proof (ltb_not_eqb _ _ Hunder) as Hcritical.
  run_method. rewrite Hcritical, Hunder.
  cbv beta iota zeta. unfold spec_z, spec_y, maclaurin, EPS.
  repeat apply conj.
  - reflexivity.
  - intros H. rewrite H. reflexivity.
  - intros H. rewrite (leb_not_ltb _ _ H). reflexivity.
  - intros H. rewrite H. reflexivity.
  - intros H. rewrite (leb_not_ltb _ _ H). reflexivity.
Qed.

Lemma Step_underdamped_ratios_witness :
  let Math := SeriesMath.Math in
  let this := mk 0.5 4 1 0 0 in
  let f := 4 * (PI * 2) in
  let a := f * (1 / 60) in
  let c := sqrt (1 - pow Math 0.5 2) in
  (1e-5 <? c) = true /\ (1e-5 <? f * c) = true
  /\ spec_z Math a c = sin Math (c * a) / c
  /\ spec_y Math f (1 / 60) c = sin Math (c * a) / (f * c).
Proof.
  intros Math this f a c.
  pose proof (Step_underdamped_ratios Math (1 / 60) this eq_refl)
    as (_ & Hz & _ & Hy & _).
  repeat apply conj;
    [ reflexivity | reflexivity | apply Hz; reflexivity | apply Hy; reflexivity ].
Defined.

(** *** Step: when the new position and velocity are finite *)

(** For every host, every [deltaTime] and every instance, [Step] does not
    throw: it returns a number, which is the position it stores, and a
    velocity. *)
Lemma Step_never_throws (Math : MathObject) (deltaTime : number) (this : Spring.t) :
  exists newPosition newVelocity : number,
    Step Math deltaTime this
    = (Normal newPosition,
       mk (DampingRatio this) (Frequency this) (Goal this) newPosition newVelocity).
Proof.
  step_regimes this; eexists; eexists; reflexivity.
Qed.

(** C2, as amended.  For every host, every [deltaTime] and every instance
    whose position, goal and velocity are below 2^k in magnitude: if the
    coefficients of its regime are below 2^m and, in the overdamped regime,
    the divisor 2 f c is at least 2^-j in magnitude, and if
    k + 3 m + j + 13 <= 1024, then [Step] does not fail and the position and
    the velocity it stores are finite. *)
Theorem Step_finite (Math : MathObject) (deltaTime : number) (this : Spring.t)
    (k m j : Z) :
  (0 <= k)%Z -> (0 <= m)%Z -> (0 <= j)%Z ->
  (k + 3 * m + j + 13 <= 1024)%Z ->
  below k (Position this) = true ->
  below k (Goal this) = true ->
  below k (Velocity this) = true ->
  forallb (below m) (coefficients Math deltaTime this) = true ->
  forallb (above (- j)) (divisors Math this) = true ->
  exists newPosition newVelocity : number,
    Step Math deltaTime this
    = (Normal newPosition,
       mk (DampingRatio this) (Frequency this) (Goal this) newPosition newVelocity)
    /\ is_finite newPosition = true
    /\ is_finite newVelocity = true.
Proof.
  intros Hk Hm Hj Hbudget Hposition Hgoal Hvelocity.
  unfold coefficients, divisors, spec_z, spec_y, maclaurin.
  step_regimes this; cbn [forallb]; rewrite ?andb_true_iff.
  - intros (Hc0 & Hw & Hc2 & Hc3 & _) _.
    eexists; eexists; split; [reflexivity | split];
      eapply below_is_finite; bound.
  - intros (Hplus & Hy & Hminus & Hzf & Hq & _) _.
    eexists; eexists; split; [reflexivity | split];
      eapply below_is_finite; bound.
  - intros (Hr1 & Hr2 & Hec1 & Hec2 & _) (Hdivisor & _).
    eexists; eexists; split; [reflexivity | split];
      eapply below_is_finite; bound.
Qed.

Lemma Step_finite_witness :
  exists newPosition newVelocity : number,
    Step SeriesMath.Math (1 / 60) (mk 2 4 1 0 0)
    = (Normal newPosition, mk 2 4 1 newPosition newVelocity)
    /\ is_finite newPosition = true
    /\ is_finite newVelocity = true.
Proof.
  apply (Step_finite SeriesMath.Math (1 / 60) (mk 2 4 1 0 0) 10 10 0);
    first [lia | reflexivity].
Defined.

(** How the bounds read: 0.75 is below 2^0 and 1 is not; 1 is at least 2^0
    and 0.75 is not; the largest number of the format is below 2^1024. *)
Example below_above_read :
  below 0 0.75 = true /\ below 0 1 = false /\ below 1 1 = true
  /\ above 0 1 = true /\ above 0 0.75 = false /\ above (-1) 0.75 = true
  /\ below 1024 0x1.fffffffffffffp+1023 = true
  /\ below 1023 0x1.fffffffffffffp+1023 = false
  /\ below 1024 infinity = false /\ below 1024 nan = false.
Proof. repeat apply conj; reflexivity. Qed.

(** At these instances, one in each regime (a spring at rest one unit from
    its goal, stepped by 1/60 s), the bounds hold with k = m = 10 and j = 0,
    and these are the finite numbers that come out. *)
Example Step_finite_runs :
  let Math := SeriesMath.Math in
  (forallb (below 10) (coefficients Math (1 / 60) (mk 0.5 4 1 0 0)) = true
   /\ Step Math (1 / 60) (mk 0.5 4 1 0 0)
      = (Normal 0.075580407377290437,
         mk 0.5 4 1 0.075580407377290437 8.3522361885211556))
  /\ (forallb (below 10) (coefficients Math (1 / 60) (mk 1 4 1 0 0)) = true
      /\ Step Math (1 / 60) (mk 1 4 1 0 0)
         = (Normal 0.066684410410106754,
            mk 1 4 1 0.066684410410106754 6.9248699516904457))
  /\ (forallb (below 10) (coefficients Math (1 / 60) (mk 2 4 1 0 0)) = true
      /\ forallb (above 0) (divisors Math (mk 2 4 1 0 0)) = true
      /\ Step Math (1 / 60) (mk 2 4 1 0 0)
         = (Normal 0.1591059588904179,
            mk 2 4 1 0.1591059588904179 7.0733188205003126)).
Proof. repeat apply conj; reflexivity. Qed.

(** A zero, a negative and a very large [deltaTime], on a critically damped
    spring: the bounds hold with k = 10 and m = 20. *)
Example Step_finite_deltaTime_runs :
  let Math := SeriesMath.Math in
  (forallb (below 20) (coefficients Math 0 (mk 1 4 1 0 0)) = true
   /\ Step Math 0 (mk 1 4 1 0 0) = (Normal 0, mk 1 4 1 0 0))
  /\ (forallb (below 20) (coefficients Math (-0.25) (mk 1 4 1 0 0)) = true
      /\ Step Math (-0.25) (mk 1 4 1 0 0)
         = (Normal 2830.1016465857106,
            mk 1 4 1 2830.1016465857106 (-84561.45280182155)))
  /\ (forallb (below 20) (coefficients Math 1e6 (mk 1 4 1 0 0)) = true
      /\ Step Math 1e6 (mk 1 4 1 0 0) = (Normal 1, mk 1 4 1 1 0)).
Proof. repeat apply conj; reflexivity. Qed.

(** The angular frequency is [Frequency * tau], and 1e308 * tau overflows to
    infinity.  Then the coefficients q + w f and q - w f are not finite,
    whatever the host's [exp] returns, and a spring at rest at its goal gets
    0 * infinity: on every host and for every [deltaTime] its position and
    velocity become NaN. *)
Lemma Step_critical_frequency_overflow (Math : MathObject)
    (deltaTime goal position velocity : number) :
  (position =? goal) = true ->
  (velocity =? 0) = true ->
  Step Math deltaTime (mk 1 1e308 goal position velocity)
  = (Normal nan, mk 1 1e308 goal nan nan).
Proof.
  intros Hposition Hvelocity.
  apply zn_sub_eq in Hposition. apply zn_eq_zero in Hvelocity.
  run_method. change (1 =? 1) with true. cbv beta iota zeta.
  change (1e308 * tau) with infinity.
  set (q := exp Math (- infinity * deltaTime)).
  rewrite (mul_zn_ion (position - goal) (q + deltaTime * q * infinity))
    by auto using ion_add_r, ion_mul_infinity.
  rewrite (mul_zn_ion velocity (q - deltaTime * q * infinity))
    by auto using ion_sub_r, ion_mul_infinity.
  rewrite !add_nan_l, sub_nan_l. reflexivity.
Qed.

(** C2 as it stands fails.  A critically damped spring at 1 Hz, one unit
    from its goal and at rest, stepped by -1000 s: all inputs are finite and
    the product frequency * dampingRatio is 1; exp(2000 pi) overflows to
    infinity, and infinity - infinity is NaN.  And, on every host and for
    every [deltaTime], a critically damped spring at rest at its goal 0 with
    the finite frequency 1e308. *)
Lemma Step_not_finite :
  (is_finite (-1000) = true
   /\ is_finite 1 = true /\ is_finite 0 = true
   /\ (0 <=? 1 * 1) = true
   /\ Step SeriesMath.Math (-1000) (mk 1 1 0 1 0) = (Normal nan, mk 1 1 0 nan nan))
  /\ (is_finite 1e308 = true
      /\ (0 <=? 1e308 * 1) = true
      /\ (forall (Math : MathObject) (deltaTime : number),
            Step Math deltaTime (mk 1 1e308 0 0 0) = (Normal nan, mk 1 1e308 0 nan nan)))
  /\ is_finite nan = false.
Proof.
  repeat apply conj;
    first [ intros Math deltaTime; apply Step_critical_frequency_overflow; reflexivity
          | reflexivity ].
Qed.

(** *** Step: a spring at rest at its goal *)

(** C4, as amended.  For every host, every [deltaTime] (of either sign) and
    every instance whose position equals its goal, a finite number, and
    whose velocity equals 0: if the coefficients of its regime are finite
    and, in the overdamped regime, the divisor 2 f c is neither a zero nor
    NaN, then [Step] returns a number equal to the goal, stores it as the
    position, and leaves a velocity equal to 0.  (Equal as [===] has it: the
    two zeros are equal.) *)
Theorem Step_equilibrium (Math : MathObject) (deltaTime : number) (this : Spring.t) :
  (Position this =? Goal this) = true ->
  (Velocity this =? 0) = true ->
  is_finite (Goal this) = true ->
  forallb is_finite (coefficients Math deltaTime this) = true ->
  forallb can_divide (divisors Math this) = true ->
  exists newPosition newVelocity : number,
    Step Math deltaTime this
    = (Normal newPosition,
       mk (DampingRatio this) (Frequency this) (Goal this) newPosition newVelocity)
    /\ (newPosition =? Goal this) = true
    /\ (newVelocity =? 0) = true.
Proof.
  intros Hposition Hvelocity Hgoal.
  pose proof (zero_sub_eq _ _ Hposition Hgoal) as Hoffset.
  change (is_zero (Velocity this) = true) in Hvelocity.
  unfold coefficients, divisors, spec_z, spec_y, maclaurin.
  step_regimes this; cbn [forallb]; rewrite ?andb_true_iff.
  - intros (Hc0 & Hw & Hc2 & Hc3 & _) _.
    eexists; eexists; split; [reflexivity | split].
    + apply zero_add_finite; auto using zero_add, zero_mul_l.
    + apply zero_sub; auto using zero_mul_l.
  - intros (Hplus & Hy & Hminus & Hzf & Hq & _) _.
    eexists; eexists; split; [reflexivity | split].
    + apply zero_add_finite; [ | exact Hgoal].
      apply zero_mul_l; [ | exact Hq]. auto using zero_add, zero_mul_l.
    + apply zero_mul_l; [ | exact Hq]. apply zero_sub; auto using zero_mul_l.
  - intros (Hr1 & Hr2 & Hec1 & Hec2 & _) (Hdivisor & _).
    match goal with
    | |- context [(?v - ?o * ?r) / ?y] =>
        assert (Hco2 : is_zero ((v - o * r) / y) = true)
          by (apply zero_div; [apply zero_sub; auto using zero_mul_l | exact Hdivisor])
    end.
    eexists; eexists; split; [reflexivity | split].
    + apply zero_add_finite; [ | exact Hgoal].
      apply zero_add; [apply zero_mul_r; [exact Hec1 | apply zero_sub; assumption] | ].
      apply zero_mul_l; assumption.
    + apply zero_add; (apply zero_mul_l; [ | assumption]).
      * apply zero_mul_r; [exact Hec1 | apply zero_sub; assumption].
      * apply zero_mul_l; assumption.
Qed.

Lemma Step_equilibrium_witness :
  exists newPosition newVelocity : number,
    Step SeriesMath.Math (1 / 60) (mk 0.5 4 1 1 0)
    = (Normal newPosition, mk 0.5 4 1 newPosition newVelocity)
    /\ (newPosition =? 1) = true
    /\ (newVelocity =? 0) = true.
Proof.
  apply (Step_equilibrium SeriesMath.Math (1 / 60) (mk 0.5 4 1 1 0)); reflexivity.
Defined.

(** At these instances, one in each regime, the coefficients are finite and
    the divisor is not zero; the goal and a zero are what comes out. *)
Example Step_equilibrium_runs :
  let Math := SeriesMath.Math in
  (forallb is_finite (coefficients Math (1 / 60) (mk 0.5 4 1 1 0)) = true
   /\ Step Math (1 / 60) (mk 0.5 4 1 1 0) = (Normal 1, mk 0.5 4 1 1 0))
  /\ (forallb is_finite (coefficients Math (1 / 60) (mk 1 4 1 1 0)) = true
      /\ Step Math (1 / 60) (mk 1 4 1 1 0) = (Normal 1, mk 1 4 1 1 0))
  /\ (forallb is_finite (coefficients Math (1 / 60) (mk 2 4 1 1 0)) = true
      /\ forallb can_divide (divisors Math (mk 2 4 1 1 0)) = true
      /\ Step Math (1 / 60) (mk 2 4 1 1 0) = (Normal 1, mk 2 4 1 1 (-0))).
Proof. repeat apply conj; reflexivity. Qed.

(** C4 as it stands fails: a critically damped spring at rest at its goal
    with the finite frequency 1e308, for which frequency * dampingRatio is
    not below 0.  On every host and for every [deltaTime], [Step] returns
    NaN, not the goal, and leaves the velocity NaN, not 0. *)
Lemma Step_equilibrium_overflow :
  let this := mk 1 1e308 0 0 0 in
  (Position this =? Goal this) = true
  /\ (Velocity this =? 0) = true
  /\ (0 <=? Frequency this * DampingRatio this) = true
  /\ (forall (Math : MathObject) (deltaTime : number),
        Step Math deltaTime this = (Normal nan, mk 1 1e308 0 nan nan))
  /\ (nan =? 0) = false.
Proof.
  repeat apply conj;
    first [ intros Math deltaTime; apply Step_critical_frequency_overflow; reflexivity
          | reflexivity ].
Qed.

(** *** Step: an overdamped spring with frequency 0 *)

(** The overdamped regime divides by 2 f c with no guard for a small f (the
    underdamped regime has one).  With frequency 0 an overdamped spring at
    rest at its goal gets 0/0: on every host, for every [deltaTime], the
    position and the velocity become NaN. *)
Lemma Step_overdamped_frequency_zero (Math : MathObject)
    (deltaTime dampingRatio goal position velocity : number) :
  (dampingRatio =? 1) = false ->
  (dampingRatio <? 1) = false ->
  (position =? goal) = true ->
  (velocity =? 0) = true ->
  Step Math deltaTime (mk dampingRatio 0 goal position velocity)
  = (Normal nan, mk dampingRatio 0 goal nan nan).
Proof.
  intros Hcritical Hunder Hposition Hvelocity.
  apply zn_sub_eq in Hposition. apply zn_eq_zero in Hvelocity.
  run_method. rewrite Hcritical, Hunder. cbv beta iota zeta.
  change (0 * tau) with 0. change (2 * 0) with 0. change (- 0) with (-0)%float.
  set (c := sqrt (pow Math dampingRatio 2 - 1)).
  rewrite (div_zn_zn (velocity - (position - goal) * (-0 * (dampingRatio - c))) (0 * c))
    by auto 8 with zn.
  rewrite sub_nan_r, mul_nan_r, !mul_nan_l, !add_nan_l. reflexivity.
Qed.

(** The check of the constructor also lets a negative frequency with a
    negative damping ratio through.  Below -1 the damping ratio takes the
    underdamped branch, where 1 - d^2 is negative and its square root NaN. *)
Example Step_negative_pair_run :
  constructor 1 (-1) (-2) None = Normal (mk (-2) (-1) 1 1 0)
  /\ Step SeriesMath.Math (1 / 60) (mk (-2) (-1) 1 1 0)
     = (Normal nan, mk (-2) (-1) 1 nan nan).
Proof. split; reflexivity. Qed.

Example Step_overdamped_frequency_zero_run :
  (0 <=? 0 * 2) = true
  /\ Step SeriesMath.Math (1 / 60) (mk 2 0 1 1 0) = (Normal nan, mk 2 0 1 nan nan).
Proof. split; reflexivity. Qed.

(** These two kinds of instance are outside the hypotheses on the
    coefficients and the divisor, under which the results are finite and a
    spring at rest stays at rest; nothing is said of them there.  With
    frequency 0 the divisor 2 f c of the overdamped regime is a zero or NaN,
    on every host; and with the damping ratio -2 the coefficient i + z d of
    the underdamped regime is NaN, on every host that keeps the laws and has
    (-2) ** 2 = 4. *)
Lemma overdamped_frequency_zero_divisor (Math : MathObject)
    (dampingRatio goal position velocity : number) (j : Z) :
  (dampingRatio =? 1) = false ->
  (dampingRatio <? 1) = false ->
  let this := mk dampingRatio 0 goal position velocity in
  forallb (above j) (divisors Math this) = false
  /\ forallb can_divide (divisors Math this) = false.
Proof.
  intros Hcritical Hunder this. unfold divisors, this.
  cbn [DampingRatio Frequency]. rewrite Hcritical, Hunder. cbn [forallb].
  change (2 * (0 * tau)) with 0.
  assert (Hzn : zero_or_nan (0 * sqrt (pow Math dampingRatio 2 - 1)) = true)
    by auto with zn.
  unfold can_divide. rewrite Hzn. split; [ | reflexivity].
  unfold above. rewrite zero_or_nan_spec in Hzn.
  destruct (Prim2SF (0 * sqrt (pow Math dampingRatio 2 - 1))); try discriminate; reflexivity.
Qed.

Lemma negative_pair_coefficients (Math : MathObject)
    (deltaTime frequency goal position velocity : number) (m : Z) :
  MathLaws Math ->
  pow Math (-2) 2 = 4 ->
  let this := mk (-2) frequency goal position velocity in
  forallb (below m) (coefficients Math deltaTime this) = false
  /\ forallb is_finite (coefficients Math deltaTime this) = false.
Proof.
  intros laws Hpow this. unfold coefficients, this.
  cbn [DampingRatio Frequency].
  change (-2 =? 1) with false. change (-2 <? 1) with true. cbv beta iota zeta.
  rewrite Hpow. change (sqrt (1 - 4)) with nan.
  rewrite mul_nan_l, (cos_nan Math laws), add_nan_l. split; reflexivity.
Qed.

(** *** Step(0) *)

(** On a host that keeps ECMA-262's special values, in the critically damped
    and the underdamped regime, [Step 0] leaves the velocity as it was, or
    NaN, and stores as the position the rounded (position - goal) + goal, or
    NaN; that position is what it returns. *)
Lemma Step_zero (Math : MathObject) (this : Spring.t) :
  MathLaws Math ->
  (DampingRatio this <=? 1) = true ->
  exists newPosition newVelocity : number,
    Step Math 0 this
    = (Normal newPosition,
       mk (DampingRatio this) (Frequency this) (Goal this) newPosition newVelocity)
    /\ equal_or_nan newPosition ((Position this - Goal this) + Goal this) = true
    /\ equal_or_nan newVelocity (Velocity this) = true.
Proof.
  intros laws Hregime.
  pose proof (exp_zn Math laws) as Hexp.
  pose proof (cos_zn Math laws) as Hcos.
  pose proof (sin_zn Math laws) as Hsin.
  pose proof (pow2_zn Math laws) as Hpow2.
  pose proof (pow3_zn Math laws) as Hpow3.
  step_regimes this.
  - eexists; eexists; split; [reflexivity | split].
    + apply eon_add_congr, eon_add_zn; [apply eon_mul_on | ]; auto 10 with zn.
    + apply eon_sub_zn; [apply eon_mul_on | ]; auto 10 with zn.
  - eexists; eexists; split; [reflexivity | ].
    set (f := Frequency this * tau).
    set (d := DampingRatio this).
    set (c := sqrt (1 - pow Math d 2)).
    assert (Hstep : zero_or_nan (f * 0) = true) by auto with zn.
    assert (Hj : zero_or_nan (sin Math (c * (f * 0))) = true) by auto with zn.
    assert (Hi : one_or_nan (cos Math (c * (f * 0))) = true) by auto with zn.
    assert (Hq : one_or_nan (exp Math (- d * (f * 0))) = true) by auto with zn.
    assert (Hz : zero_or_nan
                   (if EPS <? c then sin Math (c * (f * 0)) / c
                    else f * 0
                         + (pow Math (f * 0) 2 * pow Math c 2 * pow Math c 2 / 20
                            - pow Math c 2) * pow Math (f * 0) 3 / 6) = true)
      by (destruct (EPS <? c); auto 10 with zn).
    assert (Hy : zero_or_nan
                   (if EPS <? f * c then sin Math (c * (f * 0)) / (f * c)
                    else 0
                         + (pow Math 0 2 * pow Math (f * c) 2 * pow Math (f * c) 2 / 20
                            - pow Math (f * c) 2) * pow Math 0 3 / 6) = true)
      by (destruct (EPS <? f * c); auto 10 with zn).
    split.
    + apply eon_add_congr, eon_mul_on; [ | exact Hq].
      apply eon_add_zn; [apply eon_mul_on | ]; auto 10 with zn.
    + apply eon_mul_on; [ | exact Hq].
      apply eon_sub_zn; [apply eon_mul_on | ]; auto 10 with zn.
  - (* the overdamped regime is excluded: dampingRatio <= 1 *)
    exfalso. apply leb_eqb_or_ltb in Hregime as [H | H]; congruence.
Qed.

(** At these instances the position and the velocity come out unchanged. *)
Example Step_zero_runs :
  Step SeriesMath.Math 0 (mk 0.5 4 1 0 3) = (Normal 0, mk 0.5 4 1 0 3)
  /\ Step SeriesMath.Math 0 (mk 1 4 1 0 3) = (Normal 0, mk 1 4 1 0 3).
Proof. split; reflexivity. Qed.

(** The position is kept up to the rounding of (position - goal) + goal:
    a critically damped spring at position 1 with the goal 1e30 is moved to
    0, since 1 - 1e30 rounds to -1e30. *)
Lemma Step_zero_rounds_position :
  let this := mk 1 1 1e30 1 0 in
  (0 <=? Frequency this * DampingRatio this) = true
  /\ (forall Math : MathObject,
        MathLaws Math -> fst (Step Math 0 this) = Normal 0)
  /\ Step SeriesMath.Math 0 this = (Normal 0, mk 1 1 1e30 0 0)
  /\ (1e-9 <? abs (0 - Position this)) = true.
Proof.
  repeat apply conj; try reflexivity.
  intros Math laws. run_method. change (1 =? 1) with true. cbv beta iota zeta.
  cbn [fst].
  change (- (1 * tau) * 0) with (-0)%float.
  rewrite (exp_zero Math laws (-0) eq_refl).
  reflexivity.
Qed.

(** The overdamped regime does not keep the velocity at [Step 0]: with
    r1 = -f (d - c) and r2 = -f (d + c) the coefficient co2 should be
    (velocity - offset r1) / (r2 - r1), and r2 - r1 is -2 f c, not 2 f c.
    The position comes out right and the velocity as 2 offset r1 - velocity:
    a spring at its goal has its velocity reversed.  At [Step 0] the host's
    [exp] is only applied to a zero, so this is so on every host that keeps
    the laws and has 2 ** 2 = 4. *)
Lemma Step_zero_overdamped_reverses_velocity (Math : MathObject) :
  MathLaws Math ->
  pow Math 2 2 = 4 ->
  Step Math 0 (mk 2 1 0 0 1) = (Normal 0, mk 2 1 0 0 (-0x1.fffffffffffffp-1)).
Proof.
  intros laws Hpow. run_method.
  change (2 =? 1) with false. change (2 <? 1) with false. cbv beta iota zeta.
  rewrite Hpow.
  change (- (1 * tau) * (2 - sqrt (4 - 1)) * 0) with (-0)%float.
  change (- (1 * tau) * (2 + sqrt (4 - 1)) * 0) with (-0)%float.
  rewrite (exp_zero Math laws (-0) eq_refl).
  reflexivity.
Qed.

(** Two overdamped springs with velocity 3. *)
Example Step_zero_overdamped_runs :
  Step SeriesMath.Math 0 (mk 2 4 0 0 3) = (Normal 0, mk 2 4 0 0 (-3))
  /\ Step SeriesMath.Math 0 (mk 2 4 1 0 3)
     = (Normal 0, mk 2 4 1 0 10.468595431630931).
Proof. repeat apply conj; reflexivity. Qed.

(** C5.  The code at [new Spring(0, 4, 2, 1)] (start position 0, frequency
    4, damping ratio 2, goal 1), a valid overdamped spring at rest one unit
    from its goal.  [Step(0)] returns the position 0 and leaves the position
    as it was, but replaces the velocity 0 by 13.468595431630931, which is
    not within 1e-9 of 0: so on every host that keeps ECMA-262's special
    values and has 2 ** 2 = 4, and so on the executable one.  The same spring
    with the damping ratio 1 or 0.5 keeps its velocity at [Step(0)]. *)
Theorem Step_zero_overdamped_velocity :
  constructor 0 4 2 (Some 1) = Normal (mk 2 4 1 0 0)
  /\ (forall Math : MathObject,
        MathLaws Math ->
        pow Math 2 2 = 4 ->
        Step Math 0 (mk 2 4 1 0 0) = (Normal 0, mk 2 4 1 0 13.468595431630931))
  /\ Step SeriesMath.Math 0 (mk 2 4 1 0 0)
     = (Normal 0, mk 2 4 1 0 13.468595431630931)
  /\ (abs (13.468595431630931 - 0) <=? 1e-9) = false
  /\ Step SeriesMath.Math 0 (mk 1 4 1 0 0) = (Normal 0, mk 1 4 1 0 0)
  /\ Step SeriesMath.Math 0 (mk 0.5 4 1 0 0) = (Normal 0, mk 0.5 4 1 0 0).
Proof.
  repeat apply conj; try reflexivity.
  intros Math laws Hpow. run_method.
  change (2 =? 1) with false. change (2 <? 1) with false. cbv beta iota zeta.
  rewrite Hpow.
  change (- (4 * tau) * (2 - sqrt (4 - 1)) * 0) with (-0)%float.
  change (- (4 * tau) * (2 + sqrt (4 - 1)) * 0) with (-0)%float.
  rewrite (exp_zero Math laws (-0) eq_refl).
  reflexivity.
Qed.

(* ===================================================================== *)
(** ** More about binary64 arithmetic *)
(* ===================================================================== *)

Lemma SFeqb_sym a b : SFeqb a b = true -> SFeqb b a = true.
Proof.
  intros H. destruct (SFeqb_true a b H) as [<- | [Ha Hb]]; [exact H | ].
  destruct a; try discriminate; destruct b; try discriminate; reflexivity.
Qed.

Lemma eqb_sym x y : (x =? y) = true -> (y =? x) = true.
Proof. rewrite !eqb_spec. apply SFeqb_sym. Qed.

(** Nothing positive is below a zero, and nothing is below NaN. *)
Lemma ltb_zn_false c x :
  (0 <? c) = true -> zero_or_nan x = true -> (c <? x) = false.
Proof.
  rewrite !ltb_spec, zero_or_nan_spec. change (Prim2SF 0) with (S754_zero false).
  unfold SFltb.
  destruct (Prim2SF c) as [sc|[]| |[] mc ec]; try discriminate; intros _;
    destruct (Prim2SF x) as [sx|sx| |sx mx ex]; try discriminate; reflexivity.
Qed.

Lemma ion_mul_l x y : inf_or_nan x = true -> inf_or_nan (x * y) = true.
Proof.
  rewrite !inf_or_nan_spec, mul_spec. unfold SF64mul.
  destruct (Prim2SF x); try discriminate; intros _; destruct (Prim2SF y); reflexivity.
Qed.

Lemma ion_mul_r x y : inf_or_nan y = true -> inf_or_nan (x * y) = true.
Proof.
  rewrite !inf_or_nan_spec, mul_spec. unfold SF64mul.
  destruct (Prim2SF y); try discriminate; intros _; destruct (Prim2SF x); reflexivity.
Qed.

Lemma ion_add_l x y : inf_or_nan x = true -> inf_or_nan (x + y) = true.
Proof.
  rewrite !inf_or_nan_spec, add_spec. unfold SF64add.
  destruct (Prim2SF x) as [|[]| |]; try discriminate; intros _;
    destruct (Prim2SF y) as [|[]| |]; reflexivity.
Qed.

(** x/0 is an infinity, or NaN when x is a zero or NaN. *)
Lemma ion_div_zn x y : zero_or_nan y = true -> inf_or_nan (x / y) = true.
Proof.
  rewrite zero_or_nan_spec, inf_or_nan_spec, div_spec. unfold SF64div.
  destruct (Prim2SF y); try discriminate; intros _; destruct (Prim2SF x); reflexivity.
Qed.

Lemma eon_mul_congr_r v y y' :
  equal_or_nan y y' = true -> equal_or_nan (v * y) (v * y') = true.
Proof.
  rewrite !equal_or_nan_spec, !mul_spec. unfold SF64mul, SFequal_or_nan. intros H.
  apply orb_true_iff in H as [H | H].
  - apply SFeqb_true in H as [H | [Ha Hb]].
    + rewrite H.
      destruct (SFmul prec emax (Prim2SF v) (Prim2SF y')) eqn:E; try reflexivity;
        rewrite SFeqb_refl by discriminate; reflexivity.
    + destruct (Prim2SF y) as [[]| | |]; try discriminate;
        destruct (Prim2SF y') as [[]| | |]; try discriminate;
        destruct (Prim2SF v) as [[]|[]| |[] m e]; reflexivity.
  - destruct (Prim2SF y); try discriminate. destruct (Prim2SF v); reflexivity.
Qed.

Lemma eon_add_congr_r a b b' :
  equal_or_nan b b' = true -> equal_or_nan (a + b) (a + b') = true.
Proof.
  rewrite !equal_or_nan_spec, !add_spec. unfold SF64add, SFequal_or_nan. intros H.
  apply orb_true_iff in H as [H | H].
  - apply SFeqb_true in H as [H | [Ha Hb]].
    + rewrite H.
      destruct (SFadd prec emax (Prim2SF a) (Prim2SF b')) eqn:E; try reflexivity;
        rewrite SFeqb_refl by discriminate; reflexivity.
    + destruct (Prim2SF b) as [[]| | |]; try discriminate;
        destruct (Prim2SF b') as [[]| | |]; try discriminate;
        destruct (Prim2SF a) as [[]|[]| |s m e]; try reflexivity;
        cbn [SFadd]; rewrite SFeqb_refl by discriminate; reflexivity.
  - destruct (Prim2SF b); try discriminate. destruct (Prim2SF a); reflexivity.
Qed.

(** [equal_or_nan] follows a chain of equal numbers. *)
Lemma eon_trans a b c :
  equal_or_nan a b = true -> equal_or_nan b c = true -> equal_or_nan a c = true.
Proof.
  rewrite !equal_or_nan_spec. unfold SFequal_or_nan. intros Hab Hbc.
  apply orb_true_iff in Hab as [Hab | Hab]; [ | rewrite Hab; apply orb_true_r].
  apply SFeqb_true in Hab as [Hab | [Ha Hb]].
  - rewrite Hab. exact Hbc.
  - destruct (Prim2SF a) as [[]| | |]; try discriminate;
      destruct (Prim2SF b) as [[]| | |]; try discriminate; exact Hbc.
Qed.

Lemma eon_add_congr2 a a' b b' :
  equal_or_nan a a' = true -> equal_or_nan b b' = true ->
  equal_or_nan (a + b) (a' + b') = true.
Proof.
  intros Ha Hb. apply eon_trans with (a + b').
  - apply eon_add_congr_r, Hb.
  - apply eon_add_congr, Ha.
Qed.

Lemma zn_opp x : zero_or_nan x = true -> zero_or_nan (- x) = true.
Proof.
  rewrite !zero_or_nan_spec, opp_spec. destruct (Prim2SF x); try discriminate; reflexivity.
Qed.

#[export] Hint Resolve zn_opp : zn.

(* ===================================================================== *)
(** ** The class: more of what the methods do *)
(* ===================================================================== *)

(** *** The convergence check holds for good *)

Lemma perform_converges Math call this :
  converges this = true -> converges (perform Math call this) = true.
Proof.
  unfold converges. intros H. destruct call; cbn [perform].
  - step_regimes this; exact H.
  - exact H.
  - exact H.
  - exact H.
  - run_method. destruct (Frequency this * dampingRatio <? 0) eqn:E; cbn [snd].
    + exact H.
    + cbn [Frequency DampingRatio]. rewrite E. reflexivity.
  - run_method. destruct (frequency * DampingRatio this <? 0) eqn:E; cbn [snd].
    + exact H.
    + cbn [Frequency DampingRatio]. rewrite E. reflexivity.
Qed.

(** X1.  The product of the frequency and the damping ratio of a
    constructed spring is never below zero, whatever public methods are
    called on it afterwards, in whatever order, and whether or not some of
    the calls throw. *)
Theorem convergence_kept (Math : MathObject)
    (startPosition frequency dampingRatio : number) (goal : option number)
    (this : Spring.t) (calls : list Call) :
  constructor startPosition frequency dampingRatio goal = Normal this ->
  converges (perform_all Math calls this) = true.
Proof.
  intros Hnew.
  assert (H : converges this = true).
  { unfold constructor in Hnew.
    destruct (frequency * dampingRatio <? 0) eqn:E; [discriminate | ].
    injection Hnew as <-. unfold converges. cbn [Frequency DampingRatio].
    rewrite E. reflexivity. }
  clear Hnew. revert this H. unfold perform_all.
  induction calls as [ | call calls IH]; intros this H; cbn [List.fold_left].
  - exact H.
  - apply IH, perform_converges, H.
Qed.

Lemma convergence_kept_witness :
  converges
    (perform_all SeriesMath.Math
       (CallSetFrequency (-3) :: CallStep (1 / 60) :: CallSetDampingRatio 0
          :: CallSetFrequency (-3) :: CallSetDampingRatio (-0.5)
          :: CallSetGoal 7 :: CallStep (1 / 60) :: CallSetFrequency 2 :: nil)%list
       (mk 1 4 1 0 0))
  = true.
Proof.
  apply (convergence_kept SeriesMath.Math 0 4 1 (Some 1)). reflexivity.
Defined.

(** *** Sleeping *)

(** [CanSleep] is true when both the velocity and the offset are zeros or
    NaN: their squares are then zeros or NaN, and neither exceeds a limit. *)
Lemma CanSleep_zero_or_nan Math this :
  MathLaws Math ->
  zero_or_nan (Velocity this) = true ->
  zero_or_nan (Goal this - Position this) = true ->
  CanSleep Math this = (Normal true, this).
Proof.
  intros laws Hv Hx. run_method.
  rewrite (ltb_zn_false SLEEP_VELOCITY_SQ_LIMIT _ eq_refl (pow2_zn Math laws _ Hv)).
  rewrite (ltb_zn_false SLEEP_OFFSET_SQ_LIMIT _ eq_refl (pow2_zn Math laws _ Hx)).
  reflexivity.
Qed.

(** X2.  On a host that keeps the laws, a spring whose position equals its
    goal and whose velocity equals 0 can sleep. *)
Theorem CanSleep_at_rest (Math : MathObject) (this : Spring.t) :
  MathLaws Math ->
  (Position this =? Goal this) = true ->
  (Velocity this =? 0) = true ->
  CanSleep Math this = (Normal true, this).
Proof.
  intros laws Hposition Hvelocity.
  apply CanSleep_zero_or_nan; [exact laws | apply zn_eq_zero, Hvelocity | ].
  apply zn_sub_eq, eqb_sym, Hposition.
Qed.

Lemma CanSleep_at_rest_witness :
  CanSleep SeriesMath.Math (mk 1 4 10 10 0) = (Normal true, mk 1 4 10 10 0).
Proof.
  apply (CanSleep_at_rest SeriesMath.Math (mk 1 4 10 10 0) SeriesMath_laws);
    reflexivity.
Defined.

(** X3.  On a host that keeps the laws, every spring that was just
    constructed without a goal can sleep, whatever its start position (the
    goal is the start position and the velocity 0), frequency and damping
    ratio. *)
Theorem CanSleep_when_new (Math : MathObject)
    (startPosition frequency dampingRatio : number) (this : Spring.t) :
  MathLaws Math ->
  constructor startPosition frequency dampingRatio None = Normal this ->
  CanSleep Math this = (Normal true, this).
Proof.
  intros laws Hnew. unfold constructor in Hnew.
  destruct (frequency * dampingRatio <? 0); [discriminate | ].
  injection Hnew as <-.
  apply CanSleep_zero_or_nan; cbn [Velocity Goal Position]; [exact laws | reflexivity | ].
  rewrite zero_or_nan_spec, sub_spec. unfold SF64sub.
  destruct (Prim2SF startPosition) as [[]|[]| |s m e]; try reflexivity.
  rewrite SFsub_diag. reflexivity.
Qed.

Lemma CanSleep_when_new_witness :
  CanSleep SeriesMath.Math (mk 0.5 4 (-3) (-3) 0) = (Normal true, mk 0.5 4 (-3) (-3) 0).
Proof.
  apply (CanSleep_when_new SeriesMath.Math (-3) 4 0.5 (mk 0.5 4 (-3) (-3) 0)
           SeriesMath_laws).
  reflexivity.
Defined.

(** X4.  On a host that keeps the laws, a spring whose position and
    velocity have become NaN can sleep: NaN squared is NaN, and NaN exceeds
    no limit. *)
Theorem CanSleep_of_nan (Math : MathObject) (this : Spring.t) :
  MathLaws Math ->
  is_nan (Position this) = true ->
  is_nan (Velocity this) = true ->
  CanSleep Math this = (Normal true, this).
Proof.
  intros laws Hposition Hvelocity.
  apply CanSleep_zero_or_nan; [exact laws | | ].
  - unfold zero_or_nan. rewrite Hvelocity. apply orb_true_r.
  - rewrite (is_nan_true _ Hposition), sub_nan_r. reflexivity.
Qed.

Lemma CanSleep_of_nan_witness :
  Step SeriesMath.Math (1 / 60) (mk 2 0 1 1 0) = (Normal nan, mk 2 0 1 nan nan)
  /\ CanSleep SeriesMath.Math (mk 2 0 1 nan nan) = (Normal true, mk 2 0 1 nan nan).
Proof.
  split; [reflexivity | ].
  apply (CanSleep_of_nan SeriesMath.Math (mk 2 0 1 nan nan) SeriesMath_laws);
    reflexivity.
Defined.

(** *** Step: a spring with frequency 0 *)

(** X5.  On a host that keeps the laws, a critically damped or underdamped
    spring with frequency 0 moves uniformly: for every [deltaTime], [Step]
    leaves the velocity as it was, or NaN, and stores as the position the
    rounded ((position - goal) + velocity * deltaTime) + goal, or NaN. *)
Theorem Step_frequency_zero (Math : MathObject) (deltaTime : number)
    (this : Spring.t) :
  MathLaws Math ->
  is_zero (Frequency this) = true ->
  (DampingRatio this <=? 1) = true ->
  exists newPosition newVelocity : number,
    Step Math deltaTime this
    = (Normal newPosition,
       mk (DampingRatio this) (Frequency this) (Goal this) newPosition newVelocity)
    /\ equal_or_nan newPosition
         (((Position this - Goal this) + Velocity this * deltaTime) + Goal this)
       = true
    /\ equal_or_nan newVelocity (Velocity this) = true.
Proof.
  intros laws Hfrequency Hregime.
  pose proof (exp_zn Math laws) as Hexp.
  pose proof (cos_zn Math laws) as Hcos.
  pose proof (sin_zn Math laws) as Hsin.
  pose proof (pow2_zn Math laws) as Hpow2.
  pose proof (pow3_zn Math laws) as Hpow3.
  assert (Hf : zero_or_nan (Frequency this * tau) = true)
    by (apply zn_mul_l, zn_is_zero, Hfrequency).
  step_regimes this; set (f := Frequency this * tau) in *.
  - eexists; eexists; split; [reflexivity | ].
    set (q := exp Math (- f * deltaTime)).
    assert (Hq : one_or_nan q = true) by (apply Hexp; auto with zn).
    assert (Hw : equal_or_nan (deltaTime * q) deltaTime = true) by auto with zn.
    split.
    + apply eon_add_congr, eon_add_congr2.
      * apply eon_mul_on; auto 6 with zn.
      * apply eon_mul_congr_r, Hw.
    + apply eon_sub_zn; [apply eon_mul_on | ]; auto 8 with zn.
  - eexists; eexists; split; [reflexivity | ].
    set (d := DampingRatio this).
    set (c := sqrt (1 - pow Math d 2)).
    assert (Hstep : zero_or_nan (f * deltaTime) = true) by auto with zn.
    rewrite (ltb_zn_false EPS (f * c) eq_refl) by auto with zn.
    assert (Hj : zero_or_nan (sin Math (c * (f * deltaTime))) = true) by auto with zn.
    assert (Hi : one_or_nan (cos Math (c * (f * deltaTime))) = true) by auto with zn.
    assert (Hq : one_or_nan (exp Math (- d * (f * deltaTime))) = true) by auto with zn.
    assert (Hz : zero_or_nan
                   (if EPS <? c then sin Math (c * (f * deltaTime)) / c
                    else f * deltaTime
                         + (pow Math (f * deltaTime) 2 * pow Math c 2 * pow Math c 2 / 20
                            - pow Math c 2) * pow Math (f * deltaTime) 3 / 6) = true)
      by (destruct (EPS <? c); auto 10 with zn).
    assert (Hy : equal_or_nan
                   (deltaTime
                    + (pow Math deltaTime 2 * pow Math (f * c) 2 * pow Math (f * c) 2 / 20
                       - pow Math (f * c) 2) * pow Math deltaTime 3 / 6)
                   deltaTime = true).
    { apply eon_add_zn; [apply eon_refl | ].
      apply zn_div, zn_mul_l, zn_sub; auto 10 with zn. }
    split.
    + apply eon_add_congr, eon_mul_on; [ | exact Hq].
      apply eon_add_congr2.
      * apply eon_mul_on; auto 10 with zn.
      * apply eon_mul_congr_r, Hy.
    + apply eon_mul_on; [ | exact Hq].
      apply eon_sub_zn; [apply eon_mul_on | ]; auto 10 with zn.
  - exfalso. apply leb_eqb_or_ltb in Hregime as [H | H]; congruence.
Qed.

Lemma Step_frequency_zero_witness :
  exists newPosition newVelocity : number,
    Step SeriesMath.Math (1 / 4) (mk 0.5 0 1 3 2)
    = (Normal newPosition, mk 0.5 0 1 newPosition newVelocity)
    /\ equal_or_nan newPosition (((3 - 1) + 2 * (1 / 4)) + 1) = true
    /\ equal_or_nan newVelocity 2 = true.
Proof.
  apply (Step_frequency_zero SeriesMath.Math (1 / 4) (mk 0.5 0 1 3 2) SeriesMath_laws);
    reflexivity.
Defined.

(** At these instances: from position 3 with velocity 2, a quarter of a
    second later the position is 3.5 and the velocity still 2. *)
Example Step_frequency_zero_runs :
  Step SeriesMath.Math (1 / 4) (mk 0.5 0 1 3 2) = (Normal 3.5, mk 0.5 0 1 3.5 2)
  /\ Step SeriesMath.Math (1 / 4) (mk 1 0 1 3 2) = (Normal 3.5, mk 1 0 1 3.5 2).
Proof. split; reflexivity. Qed.

(** X6.  An overdamped spring with frequency 0 has no finite step: the
    regime divides by 2 f c, which is a zero or NaN, so on every host, for
    every [deltaTime] and from every position and velocity, [Step] returns
    an infinity or NaN and leaves the velocity an infinity or NaN. *)
Theorem Step_overdamped_frequency_zero_not_finite (Math : MathObject)
    (deltaTime : number) (this : Spring.t) :
  is_zero (Frequency this) = true ->
  (DampingRatio this =? 1) = false ->
  (DampingRatio this <? 1) = false ->
  exists newPosition newVelocity : number,
    Step Math deltaTime this
    = (Normal newPosition,
       mk (DampingRatio this) (Frequency this) (Goal this) newPosition newVelocity)
    /\ inf_or_nan newPosition = true
    /\ inf_or_nan newVelocity = true.
Proof.
  intros Hfrequency Hcritical Hunder.
  assert (Hf : zero_or_nan (Frequency this * tau) = true)
    by (apply zn_mul_l, zn_is_zero, Hfrequency).
  run_method. rewrite Hcritical, Hunder. cbv beta iota zeta.
  set (f := Frequency this * tau) in *.
  set (c := sqrt (pow Math (DampingRatio this) 2 - 1)).
  set (r1 := - f * (DampingRatio this - c)).
  set (co2 := (Velocity this - (Position this - Goal this) * r1) / (2 * f * c)).
  assert (Hco2 : inf_or_nan co2 = true)
    by (apply ion_div_zn; auto with zn).
  eexists; eexists; split; [reflexivity | split].
  - apply ion_add_l, ion_add_l, ion_mul_r, ion_sub_r, Hco2.
  - apply ion_add_l, ion_mul_l, ion_mul_r, ion_sub_r, Hco2.
Qed.

Lemma Step_overdamped_frequency_zero_not_finite_witness :
  exists newPosition newVelocity : number,
    Step SeriesMath.Math (1 / 60) (mk 2 0 1 3 2)
    = (Normal newPosition, mk 2 0 1 newPosition newVelocity)
    /\ inf_or_nan newPosition = true
    /\ inf_or_nan newVelocity = true.
Proof.
  apply (Step_overdamped_frequency_zero_not_finite SeriesMath.Math (1 / 60)
           (mk 2 0 1 3 2)); reflexivity.
Defined.

(** *** Step: NaN stays *)

Lemma div_nan_l x : nan / x = nan.
Proof.
  apply Prim2SF_inj. rewrite div_spec. change (Prim2SF nan) with S754_nan.
  reflexivity.
Qed.

Lemma Step_position_nan Math deltaTime this :
  is_nan (Position this) = true ->
  is_nan (Position (snd (Step Math deltaTime this))) = true.
Proof.
  intros H. apply is_nan_true in H.
  step_regimes this; rewrite H;
    repeat (progress rewrite ?sub_nan_l, ?sub_nan_r, ?mul_nan_l, ?mul_nan_r,
              ?div_nan_l, ?add_nan_l, ?add_nan_r);
    reflexivity.
Qed.

(** X7.  A position that has become NaN stays NaN: no public method, called
    in any order and with any arguments, brings it back ([Step] is the only
    one that assigns the position, and NaN goes through each of its three
    formulas). *)
Theorem position_nan_kept (Math : MathObject) (calls : list Call) (this : Spring.t) :
  is_nan (Position this) = true ->
  is_nan (Position (perform_all Math calls this)) = true.
Proof.
  revert this. unfold perform_all.
  induction calls as [ | call calls IH]; intros this H; cbn [List.fold_left].
  - exact H.
  - apply IH. destruct call; cbn [perform].
    + apply Step_position_nan, H.
    + exact H.
    + exact H.
    + exact H.
    + run_method. destruct (_ <? 0); exact H.
    + run_method. destruct (_ <? 0); exact H.
Qed.

Lemma position_nan_kept_witness :
  is_nan
    (Position
       (perform_all SeriesMath.Math
          (CallSetGoal 0 :: CallStep (1 / 60) :: CallSetDampingRatio 0.5
             :: CallSetFrequency 1 :: CallStep 0 :: CallStep (-1) :: nil)%list
          (mk 2 0 1 nan nan)))
  = true.
Proof.
  apply (position_nan_kept SeriesMath.Math). reflexivity.
Defined.

(* ===================================================================== *)
(** ** The scheduler: what its functions do *)
(* ===================================================================== *)

Import Scheduler.
Local Open Scope list_scope.
Local Open Scope nat_scope.

(** *** Arrays and the store *)

Lemma nth_store_same index v elements :
  nth index (store index v elements) VUndefined = v.
Proof.
  revert elements. induction index as [ | index IH]; intros [ | e rest]; cbn;
    auto.
Qed.

Lemma nth_store_other index j v elements :
  index <> j -> nth j (store index v elements) VUndefined = nth j elements VUndefined.
Proof.
  revert j elements.
  induction index as [ | index IH]; intros [ | j] [ | e rest] H; cbn;
    try congruence; try reflexivity.
  - destruct j; reflexivity.
  - rewrite IH by congruence. destruct j; reflexivity.
  - apply IH. congruence.
Qed.

Lemma length_store index v elements :
  length (store index v elements) = Nat.max (S index) (length elements).
Proof.
  revert elements. induction index as [ | index IH]; intros [ | e rest]; cbn;
    try reflexivity.
  - rewrite IH. reflexivity.
  - rewrite IH. reflexivity.
Qed.

Lemma length_update {A} address (f : A -> A) l :
  length (update address f l) = length l.
Proof.
  revert address. induction l as [ | x l IH]; intros [ | address]; cbn; auto.
Qed.

Lemma update_out_of_range {A} address (f : A -> A) l :
  length l <= address -> update address f l = l.
Proof.
  revert address. induction l as [ | x l IH]; intros [ | address] H; cbn in *;
    try reflexivity; try lia.
  rewrite IH by lia. reflexivity.
Qed.

Lemma nth_update_same {A} address (f : A -> A) l d :
  address < length l -> nth address (update address f l) d = f (nth address l d).
Proof.
  revert address. induction l as [ | x l IH]; intros [ | address] H; cbn in *;
    try reflexivity; try lia.
  apply IH. lia.
Qed.

Lemma nth_update_other {A} address j (f : A -> A) l d :
  address <> j -> nth j (update address f l) d = nth j l d.
Proof.
  revert address j. induction l as [ | x l IH]; intros [ | address] [ | j] H; cbn;
    try reflexivity; try congruence.
  apply IH. congruence.
Qed.

Lemma update_app_length {A} (f : A -> A) l x :
  update (length l) f (l ++ x :: nil) = l ++ f x :: nil.
Proof. induction l as [ | y l IH]; cbn; [reflexivity | rewrite IH; reflexivity]. Qed.

Lemma update_app_l {A} address (f : A -> A) l l' :
  address < length l -> update address f (l ++ l') = update address f l ++ l'.
Proof.
  revert address. induction l as [ | x l IH]; intros [ | address] H; cbn in *;
    try reflexivity; try lia.
  rewrite IH by lia. reflexivity.
Qed.

Lemma Forall_update {A} (P : A -> Prop) address (f : A -> A) l :
  (forall x, P x -> P (f x)) -> Forall P l -> Forall P (update address f l).
Proof.
  intros Hf H. revert address.
  induction H as [ | x l Hx Hl IH]; intros [ | address]; cbn; constructor; auto.
Qed.

(** *** Cancel *)

(** What [Cancel] does, by what it finds in the array. *)
Lemma Cancel_cancelled handle scheduled w :
  ToBoolean (nth 2 (elements_of scheduled w) VUndefined) = true ->
  Cancel handle scheduled w = (tt, w).
Proof.
  intros H. unfold Cancel, bind, get. cbv beta iota. rewrite H. reflexivity.
Qed.

Lemma elements_of_marked scheduled w calls j :
  j <> 2 ->
  nth j (elements_of scheduled (mkWorld (marked scheduled w) calls)) VUndefined
  = nth j (elements_of scheduled w) VUndefined.
Proof.
  intros Hj. unfold elements_of, marked. cbn [arrays].
  destruct (Nat.lt_ge_cases scheduled (length (arrays w))) as [H | H].
  - rewrite nth_update_same by exact H. apply nth_store_other. congruence.
  - rewrite update_out_of_range by exact H. reflexivity.
Qed.

Lemma Cancel_live handle scheduled w :
  ToBoolean (nth 2 (elements_of scheduled w) VUndefined) = false ->
  Cancel handle scheduled w
  = (tt,
     mkWorld (marked scheduled w)
       (let kind := nth 0 (elements_of scheduled w) VUndefined in
        let id := nth 1 (elements_of scheduled w) VUndefined in
        if is_the_number kind 0%float then calls w ++ clearTimeout id :: nil
        else if is_the_number kind 1%float then calls w ++ clearInterval id :: nil
        else if is_the_number kind 2%float then calls w ++ cancelAnimationFrame id :: nil
        else calls w)).
Proof.
  intros H. unfold Cancel, bind, get, set, ret, host. cbv beta iota.
  rewrite H. cbv beta iota. cbn [arrays calls]. fold (marked scheduled w).
  rewrite (elements_of_marked scheduled w (calls w) 0) by congruence.
  cbv zeta.
  repeat (destruct (is_the_number _ _);
          [cbv beta iota; cbn [arrays calls];
           rewrite (elements_of_marked scheduled w (calls w) 1) by congruence;
           reflexivity | ]).
  reflexivity.
Qed.

Lemma world_eta w : mkWorld (arrays w) (calls w) = w.
Proof. destruct w; reflexivity. Qed.

Lemma elements_of_out_of_range scheduled w :
  length (arrays w) <= scheduled -> elements_of scheduled w = nil.
Proof. intros H. unfold elements_of. apply nth_overflow, H. Qed.

(** X8.  Cancelling a task a second time does nothing: no call to the host
    and no write, whatever the array holds. *)
Theorem Cancel_idempotent (handle : nat -> number) (scheduled : nat) (w : World) :
  Cancel handle scheduled (snd (Cancel handle scheduled w))
  = (tt, snd (Cancel handle scheduled w)).
Proof.
  destruct (ToBoolean (nth 2 (elements_of scheduled w) VUndefined)) eqn:E.
  - rewrite (Cancel_cancelled handle _ _ E). cbn [snd]. apply Cancel_cancelled, E.
  - rewrite (Cancel_live handle _ _ E). cbn [snd].
    destruct (Nat.lt_ge_cases scheduled (length (arrays w))) as [H | H].
    + apply Cancel_cancelled. unfold elements_of, marked. cbn [arrays].
      rewrite nth_update_same by exact H. rewrite nth_store_same. reflexivity.
    + unfold marked. rewrite update_out_of_range by exact H.
      rewrite (elements_of_out_of_range _ _ H). cbn [nth is_the_number]. cbv zeta.
      rewrite world_eta.
      rewrite (Cancel_live handle _ _ E). unfold marked.
      rewrite update_out_of_range by exact H.
      rewrite (elements_of_out_of_range _ _ H). cbn [nth is_the_number]. cbv zeta.
      rewrite world_eta. reflexivity.
Qed.

(** *** The creators and the stage of OnPostRender *)

Lemma operate_create handle op w scheduled :
  result handle op w = VArray scheduled ->
  scheduled = length (arrays w)
  /\ exists (kind : Kind) (registration : HostCall),
       registers registration = Some kind
       /\ operate handle op w
          = mkWorld
              (arrays w
               ++ (VNumber (code kind) :: VNumber (handle (length (calls w))) :: nil)
               :: nil)
              (calls w ++ registration :: nil).
Proof.
  destruct op; cbn [result]; intros H; try discriminate;
    injection H as <-; (split; [reflexivity | ]).
  - exists KTimeout. eexists. split; [ | reflexivity]. reflexivity.
  - exists KInterval. eexists. split; [ | reflexivity]. reflexivity.
  - exists KInterval. eexists. split; [ | reflexivity]. reflexivity.
  - exists KFrame. eexists. split; [ | reflexivity]. reflexivity.
  - exists KFrame. eexists. split; [ | ].
    2:{ cbn [operate]. unfold OnPostRender, bind, alloc, host, set, ret.
        cbv beta iota. cbn [arrays calls snd].
        rewrite update_app_length. reflexivity. }
    reflexivity.
Qed.

Lemma invoke_stage handle scheduled callback w :
  invoke handle (PostRenderStage scheduled callback) w
  = (tt,
     mkWorld
       (update scheduled (store 1 (VNumber (handle (length (calls w)))))
          (update scheduled (store 0 (VNumber 0%float)) (arrays w)))
       (calls w ++ setTimeout callback 0%float :: nil)).
Proof. reflexivity. Qed.

Lemma operate_all_invariant handle (P : World -> Prop) :
  (forall op w, P w -> P (operate handle op w)) ->
  forall ops w, P w -> P (operate_all handle ops w).
Proof.
  intros step ops. unfold operate_all.
  induction ops as [ | op ops IH]; intros w H; cbn [fold_left]; auto.
Qed.

Lemma is_the_number_code kind :
  is_the_number (VNumber (code kind)) 0%float
  = match kind with KTimeout => true | _ => false end
  /\ is_the_number (VNumber (code kind)) 1%float
     = match kind with KInterval => true | _ => false end
  /\ is_the_number (VNumber (code kind)) 2%float
     = match kind with KFrame => true | _ => false end.
Proof. destruct kind; repeat apply conj; reflexivity. Qed.

(** Cancelling a handle that was not cancelled: the task is cleared with
    the function of its kind. *)
Lemma Cancel_registered handle scheduled w kind id rest :
  elements_of scheduled w = VNumber (code kind) :: id :: rest ->
  ToBoolean (nth 0 rest VUndefined) = false ->
  Cancel handle scheduled w
  = (tt, mkWorld (marked scheduled w) (calls w ++ clear kind id :: nil)).
Proof.
  intros He Hc. rewrite Cancel_live by (rewrite He; exact Hc).
  rewrite He. cbn [nth]. cbv zeta.
  destruct (is_the_number_code kind) as (-> & -> & ->).
  destruct kind; reflexivity.
Qed.

(** *** Handles stay handles *)

Lemma shape_store_kind n elements :
  scheduled_shape elements = true ->
  scheduled_shape (store 0 (VNumber n) elements) = true.
Proof.
  destruct elements as [ | a [ | b [ | c [ | d rest]]]]; try discriminate;
    destruct a; try discriminate; intros H; exact H.
Qed.

Lemma shape_store_id n elements :
  scheduled_shape elements = true ->
  scheduled_shape (store 1 (VNumber n) elements) = true.
Proof.
  destruct elements as [ | a [ | b [ | c [ | d rest]]]]; try discriminate;
    destruct a; try discriminate; destruct b; try discriminate; intros H; exact H.
Qed.

Lemma shape_store_true elements :
  scheduled_shape elements = true ->
  scheduled_shape (store 2 (VBoolean true) elements) = true.
Proof.
  destruct elements as [ | a [ | b [ | c [ | d rest]]]]; try discriminate;
    destruct a; try discriminate; destruct b; try discriminate; intros H;
    reflexivity.
Qed.

Lemma forallb_update {A} (p : A -> bool) address (f : A -> A) l :
  (forall x, p x = true -> p (f x) = true) ->
  forallb p l = true -> forallb p (update address f l) = true.
Proof.
  intros Hf. revert address.
  induction l as [ | x l IH]; intros [ | address] H; cbn in *;
    try reflexivity; apply andb_true_iff in H as [Hx Hl];
    apply andb_true_iff; auto.
Qed.

Lemma forallb_snoc {A} (p : A -> bool) l x :
  forallb p l = true -> p x = true -> forallb p (l ++ x :: nil) = true.
Proof.
  intros Hl Hx. rewrite forallb_app, Hl. cbn. rewrite Hx. reflexivity.
Qed.

Lemma operate_well_formed handle op w :
  well_formed w = true -> well_formed (operate handle op w) = true.
Proof.
  unfold well_formed. intros H.
  destruct op as [seconds callback | everySeconds callback | callback | callback
                 | callback | scheduled | [name | scheduled callback]].
  1-5: match goal with
       | |- context [operate ?h ?op ?w] =>
           destruct (operate_create h op w _ eq_refl)
             as (_ & kind & registration & _ & ->)
       end; cbn [arrays]; apply forallb_snoc; [exact H | destruct kind; reflexivity].
  - cbn [operate].
    destruct (ToBoolean (nth 2 (elements_of scheduled w) VUndefined)) eqn:E.
    + rewrite (Cancel_cancelled handle _ _ E). exact H.
    + rewrite (Cancel_live handle _ _ E). cbn [snd arrays]. unfold marked.
      apply forallb_update; [apply shape_store_true | exact H].
  - exact H.
  - cbn [operate]. rewrite invoke_stage. cbn [snd arrays].
    apply forallb_update; [apply shape_store_id | ].
    apply forallb_update; [apply shape_store_kind | exact H].
Qed.

(** X9.  A handle stays a handle: in a store that holds handles only,
    every array still passes [IsScheduled] after any sequence of creations,
    cancellations and frame stages, so every handle the module has returned
    is recognised at every later time, cancelled or not. *)
Theorem handles_stay_scheduled (handle : nat -> number) (ops : list Operation)
    (w : World) (scheduled : nat) :
  well_formed w = true ->
  scheduled < length (arrays (operate_all handle ops w)) ->
  IsScheduled (VArray scheduled) (operate_all handle ops w)
  = (true, operate_all handle ops w).
Proof.
  intros Hw Hs.
  assert (H : well_formed (operate_all handle ops w) = true).
  { apply (operate_all_invariant handle (fun w => well_formed w = true));
      [apply operate_well_formed | exact Hw]. }
  unfold IsScheduled. f_equal. unfold well_formed in H.
  rewrite forallb_forall in H. apply H. unfold elements_of. apply nth_In, Hs.
Qed.

Lemma handles_stay_scheduled_witness :
  let w :=
    operate_all (fun n => 5%float)
      (DoOnPostRender (UserCallback 0) :: DoTimeout 1.5%float (UserCallback 1)
         :: DoCancel 1 :: DoInvoke (PostRenderStage 0 (UserCallback 0))
         :: DoCancel 0 :: DoCancel 0 :: nil)
      empty in
  IsScheduled (VArray 0) w = (true, w) /\ IsScheduled (VArray 1) w = (true, w).
Proof.
  split;
    apply (handles_stay_scheduled (fun n => 5%float)
             (DoOnPostRender (UserCallback 0) :: DoTimeout 1.5%float (UserCallback 1)
                :: DoCancel 1 :: DoInvoke (PostRenderStage 0 (UserCallback 0))
                :: DoCancel 0 :: DoCancel 0 :: nil)
             empty);
    first [reflexivity | cbn; lia].
Defined.

(** *** Every clearing call matches a registration *)

Lemma registered_more handle log log' elements :
  registered handle log elements -> registered handle (log ++ log') elements.
Proof.
  intros (kind & n & registration & rest & He & Hn & Hk).
  exists kind, n, registration, rest. repeat apply conj; try assumption.
  rewrite nth_error_app1; [exact Hn | ].
  apply nth_error_Some. congruence.
Qed.

Lemma nth_error_snoc {A} (l : list A) x m y :
  nth_error (l ++ x :: nil) m = Some y ->
  (m < length l /\ nth_error l m = Some y) \/ (m = length l /\ y = x).
Proof.
  intros H. destruct (Nat.lt_ge_cases m (length l)) as [Hm | Hm].
  - left. rewrite nth_error_app1 in H by exact Hm. auto.
  - right. rewrite nth_error_app2 in H by exact Hm.
    destruct (m - length l) as [ | k] eqn:E; cbn in H.
    + split; [lia | congruence].
    + destruct k; discriminate.
Qed.

Lemma nth_error_snoc_length {A} (l : list A) x :
  nth_error (l ++ x :: nil) (length l) = Some x.
Proof. rewrite nth_error_app2, Nat.sub_diag by lia. reflexivity. Qed.

Lemma matched_more handle log call :
  matched handle log ->
  (forall kind id, call = clear kind id ->
     exists n registration,
       nth_error log n = Some registration
       /\ registers registration = Some kind
       /\ id = VNumber (handle n)) ->
  matched handle (log ++ call :: nil).
Proof.
  intros Hlog Hcall m kind id Hm.
  apply nth_error_snoc in Hm as [[Hlt Hm] | [-> Hm]].
  - destruct (Hlog m kind id Hm) as (n & registration & Hn & Hr & Hk & Hid).
    exists n, registration. repeat apply conj; try assumption.
    rewrite nth_error_app1; [exact Hr | lia].
  - destruct (Hcall kind id (eq_sym Hm)) as (n & registration & Hr & Hk & Hid).
    assert (Hn : n < length log) by (apply nth_error_Some; congruence).
    exists n, registration. repeat apply conj; try assumption.
    rewrite nth_error_app1; [exact Hr | lia].
Qed.

Lemma registers_not_clear call kind kind' id :
  registers call = Some kind -> call <> clear kind' id.
Proof. intros H ->. destruct kind'; discriminate. Qed.

Lemma clear_injective kind id kind' id' :
  clear kind id = clear kind' id' -> kind = kind' /\ id = id'.
Proof. destruct kind, kind'; intros H; try discriminate; injection H; auto. Qed.

Lemma update_update {A} address (f g : A -> A) l :
  update address f (update address g l) = update address (fun x => f (g x)) l.
Proof.
  revert address. induction l as [ | x l IH]; intros [ | address]; cbn;
    try reflexivity.
  rewrite IH. reflexivity.
Qed.

(** The invariant: the arrays stand for registered tasks, and the log is
    matched. *)
Lemma operate_matched handle op w :
  Forall (registered handle (calls w)) (arrays w) /\ matched handle (calls w) ->
  Forall (registered handle (calls (operate handle op w)))
    (arrays (operate handle op w))
  /\ matched handle (calls (operate handle op w)).
Proof.
  intros [Harrays Hlog].
  destruct op as [seconds callback | everySeconds callback | callback | callback
                 | callback | scheduled | [name | scheduled callback]].
  1-5: match goal with
       | |- context [operate ?h ?op ?w] =>
           destruct (operate_create h op w _ eq_refl)
             as (_ & kind & registration & Hkind & ->)
       end; cbn [arrays calls]; split;
       [ apply Forall_app; split;
         [ revert Harrays; apply Forall_impl; intros e; apply registered_more
         | constructor; [ | constructor];
           exists kind, (length (calls w)), registration, nil;
           repeat apply conj; [reflexivity | apply nth_error_snoc_length | exact Hkind] ]
       | apply matched_more; [exact Hlog | ];
         intros kind' id Hc; exfalso;
         exact (registers_not_clear _ _ _ _ Hkind Hc) ].
  - cbn [operate].
    destruct (ToBoolean (nth 2 (elements_of scheduled w) VUndefined)) eqn:E.
    { rewrite (Cancel_cancelled handle _ _ E). split; assumption. }
    destruct (Nat.lt_ge_cases scheduled (length (arrays w))) as [H | H].
    + assert (Hreg : registered handle (calls w) (elements_of scheduled w)).
      { rewrite Forall_forall in Harrays. apply Harrays. apply nth_In, H. }
      destruct Hreg as (kind & n & registration & rest & He & Hn & Hk).
      rewrite (Cancel_registered handle scheduled w kind (VNumber (handle n)) rest He)
        by (rewrite He in E; exact E).
      cbn [snd arrays calls]. split.
      * unfold marked. apply Forall_update.
        -- intros e (kind' & n' & registration' & rest' & -> & Hn' & Hk').
           exists kind', n', registration', (store 0 (VBoolean true) rest').
           repeat apply conj; try assumption. reflexivity.
        -- revert Harrays. apply Forall_impl. intros e. apply registered_more.
      * apply matched_more; [exact Hlog | ].
        intros kind' id Hc. apply clear_injective in Hc as [<- <-].
        exists n, registration. repeat apply conj; auto.
    + rewrite (Cancel_live handle _ _ E). unfold marked.
      rewrite update_out_of_range by exact H.
      rewrite (elements_of_out_of_range _ _ H). cbn [nth is_the_number]. cbv zeta.
      cbn [snd arrays calls]. split; assumption.
  - cbn. split; assumption.
  - cbn [operate]. rewrite invoke_stage. cbn [snd arrays calls].
    rewrite update_update. split.
    + apply Forall_update.
      * intros e (kind' & n' & registration' & rest' & -> & Hn' & Hk').
        exists KTimeout, (length (calls w)), (setTimeout callback 0%float), rest'.
        repeat apply conj; [reflexivity | apply nth_error_snoc_length | reflexivity].
      * revert Harrays. apply Forall_impl. intros e. apply registered_more.
    + apply matched_more; [exact Hlog | ].
      intros kind' id Hc. destruct kind'; discriminate.
Qed.

(** X10.  The module clears only what it registered: after any sequence
    of creations, cancellations and frame stages that starts with no handle
    and no call, every [clearTimeout] in the log of host calls comes after a
    [setTimeout] and is given the id the host returned from it, and
    likewise [clearInterval] after [setInterval] and
    [cancelAnimationFrame] after [requestAnimationFrame]. *)
Theorem clears_match_registrations (handle : nat -> number) (ops : list Operation) :
  matched handle (calls (operate_all handle ops empty)).
Proof.
  apply (operate_all_invariant handle
           (fun w => Forall (registered handle (calls w)) (arrays w)
                     /\ matched handle (calls w))).
  - apply operate_matched.
  - split; [constructor | ]. intros [ | m] kind id H; discriminate.
Qed.

(** *** A handle keeps its meaning *)

Lemma operate_untouched handle op w scheduled :
  touches scheduled op = false ->
  scheduled < length (arrays w) ->
  elements_of scheduled (operate handle op w) = elements_of scheduled w
  /\ scheduled < length (arrays (operate handle op w)).
Proof.
  intros Ht Hs.
  destruct op as [seconds callback | everySeconds callback | callback | callback
                 | callback | address | [name | address callback]].
  1-5: match goal with
       | |- context [operate ?h ?op ?w] =>
           destruct (operate_create h op w _ eq_refl)
             as (_ & kind & registration & _ & ->)
       end; unfold elements_of; cbn [arrays]; split;
       [apply app_nth1, Hs | rewrite length_app; lia].
  - cbn [touches] in Ht. apply Nat.eqb_neq in Ht. cbn [operate].
    destruct (ToBoolean (nth 2 (elements_of address w) VUndefined)) eqn:E.
    + rewrite (Cancel_cancelled handle _ _ E). auto.
    + rewrite (Cancel_live handle _ _ E). unfold elements_of, marked.
      cbn [snd arrays]. rewrite length_update.
      split; [apply nth_update_other, Ht | exact Hs].
  - auto.
  - cbn [touches] in Ht. apply Nat.eqb_neq in Ht. cbn [operate].
    rewrite invoke_stage. unfold elements_of. cbn [snd arrays].
    rewrite !length_update, !nth_update_other by exact Ht. auto.
Qed.

Lemma operate_all_untouched handle ops w scheduled :
  existsb (touches scheduled) ops = false ->
  scheduled < length (arrays w) ->
  elements_of scheduled (operate_all handle ops w) = elements_of scheduled w.
Proof.
  unfold operate_all. revert w.
  induction ops as [ | op ops IH]; intros w Ht Hs; cbn [fold_left existsb] in *.
  - reflexivity.
  - apply orb_false_iff in Ht as [Hop Hops].
    destruct (operate_untouched handle op w scheduled Hop Hs) as [He Hl].
    rewrite (IH _ Hops Hl). exact He.
Qed.

(** X11.  Cancelling clears the task the handle was made for.  Whatever
    creator returned the handle, and whatever is created, cancelled or staged
    on other handles in between, [Cancel] marks the handle and makes one call
    to the host: the clearing function of the kind of the function that
    registered the task, with the id the host returned from that
    registration. *)
Theorem Cancel_clears_its_registration (handle : nat -> number)
    (create : Operation) (ops : list Operation) (w : World) (scheduled : nat) :
  result handle create w = VArray scheduled ->
  existsb (touches scheduled) ops = false ->
  exists (kind : Kind) (registration : HostCall),
    calls (operate handle create w) = calls w ++ registration :: nil
    /\ registers registration = Some kind
    /\ let w' := operate_all handle ops (operate handle create w) in
       Cancel handle scheduled w'
       = (tt,
          mkWorld (marked scheduled w')
            (calls w' ++ clear kind (VNumber (handle (length (calls w)))) :: nil)).
Proof.
  intros Hcreate Hops.
  destruct (operate_create handle create w scheduled Hcreate)
    as (-> & kind & registration & Hkind & Hw).
  exists kind, registration. rewrite Hw. cbn [calls].
  repeat apply conj; [reflexivity | exact Hkind | ]. cbv zeta.
  apply Cancel_registered with (rest := nil); [ | reflexivity].
  rewrite operate_all_untouched; [ | exact Hops | ].
  - unfold elements_of. cbn [arrays].
    rewrite app_nth2, Nat.sub_diag by lia. reflexivity.
  - cbn [arrays]. rewrite length_app. cbn. lia.
Qed.

Lemma Cancel_clears_its_registration_witness :
  let handle := fun n : nat => match n with O => 7%float | _ => 9%float end in
  let w := operate_all handle
             (DoOnPreRender (UserCallback 1) :: DoCancel 1 :: nil)
             (operate handle (DoOnNextProcess (UserCallback 0)) empty) in
  exists (kind : Kind) (registration : HostCall),
    calls (operate handle (DoOnNextProcess (UserCallback 0)) empty)
    = calls empty ++ registration :: nil
    /\ registers registration = Some kind
    /\ Cancel handle 0 w
       = (tt,
          mkWorld (marked 0 w)
            (calls w
             ++ clear kind (VNumber (handle (length (calls empty)))) :: nil)).
Proof.
  intros handle w.
  exact (Cancel_clears_its_registration handle (DoOnNextProcess (UserCallback 0))
           (DoOnPreRender (UserCallback 1) :: DoCancel 1 :: nil) empty 0
           eq_refl eq_refl).
Defined.

(** At that instance the interval registered by [OnNextProcess] is cleared
    with [clearInterval] and the id 7. *)
Example Cancel_clears_its_registration_runs :
  let handle := fun n : nat => match n with O => 7%float | _ => 9%float end in
  calls
    (operate_all handle
       (DoOnNextProcess (UserCallback 0) :: DoOnPreRender (UserCallback 1)
          :: DoCancel 1 :: DoCancel 0 :: nil)
       empty)
  = setInterval (UserCallback 0) 0%float
    :: requestAnimationFrame (UserCallback 1)
    :: cancelAnimationFrame (VNumber 9%float)
    :: clearInterval (VNumber 7%float) :: nil.
Proof. reflexivity. Qed.

(** X12.  The handle of [OnPostRender] follows the task through its two
    stages.  The function given to [requestAnimationFrame] is the stage;
    once the host has run it, the callback is registered with [setTimeout]
    and delay 0, and cancelling the same handle, after whatever happens to
    other handles before and after the stage, clears that timeout with the
    id the host returned for it, not the frame request. *)
Theorem OnPostRender_after_the_frame (handle : nat -> number)
    (callback : Callback) (before after : list Operation) (w : World) :
  let scheduled := fst (OnPostRender handle callback w) in
  let stage := PostRenderStage scheduled callback in
  existsb (touches scheduled) before = false ->
  existsb (touches scheduled) after = false ->
  let w0 := snd (OnPostRender handle callback w) in
  let w1 := operate_all handle before w0 in
  let w2 := snd (invoke handle stage w1) in
  let w3 := operate_all handle after w2 in
  calls w0 = calls w ++ requestAnimationFrame stage :: nil
  /\ calls w2 = calls w1 ++ setTimeout callback 0%float :: nil
  /\ Cancel handle scheduled w3
     = (tt,
        mkWorld (marked scheduled w3)
          (calls w3 ++ clearTimeout (VNumber (handle (length (calls w1)))) :: nil)).
Proof.
  intros scheduled stage Hbefore Hafter w0 w1 w2 w3.
  destruct (operate_create handle (DoOnPostRender callback) w scheduled eq_refl)
    as (Hs & kind & registration & Hkind & Hw).
  cbn [operate] in Hw. fold w0 in Hw.
  assert (Hw0 : w0 = mkWorld
                       (arrays w
                        ++ (VNumber 2%float :: VNumber (handle (length (calls w))) :: nil)
                        :: nil)
                       (calls w ++ requestAnimationFrame stage :: nil)).
  { unfold w0, OnPostRender, bind, alloc, host, set, ret.
    cbv beta iota. cbn [arrays calls snd]. rewrite update_app_length. reflexivity. }
  assert (Hl0 : scheduled < length (arrays w0)).
  { rewrite Hw0, Hs. cbn [arrays]. rewrite length_app. cbn. lia. }
  assert (He0 : elements_of scheduled w0
                = VNumber 2%float :: VNumber (handle (length (calls w))) :: nil).
  { rewrite Hw0, Hs. unfold elements_of. cbn [arrays].
    rewrite app_nth2, Nat.sub_diag by lia. reflexivity. }
  assert (He1 : elements_of scheduled w1
                = VNumber 2%float :: VNumber (handle (length (calls w))) :: nil).
  { unfold w1. rewrite operate_all_untouched; assumption. }
  assert (Hl1 : scheduled < length (arrays w1)).
  { destruct (Nat.lt_ge_cases scheduled (length (arrays w1))) as [H | H];
      [exact H | ].
    rewrite (elements_of_out_of_range _ _ H) in He1. discriminate. }
  assert (Hw2 : w2 = mkWorld
                       (update scheduled (store 1 (VNumber (handle (length (calls w1)))))
                          (update scheduled (store 0 (VNumber 0%float)) (arrays w1)))
                       (calls w1 ++ setTimeout callback 0%float :: nil)).
  { unfold w2, stage. rewrite invoke_stage. reflexivity. }
  assert (He2 : elements_of scheduled w2
                = VNumber 0%float :: VNumber (handle (length (calls w1))) :: nil).
  { rewrite Hw2. unfold elements_of. cbn [arrays].
    rewrite update_update, nth_update_same by exact Hl1.
    fold (elements_of scheduled w1). rewrite He1. reflexivity. }
  assert (Hl2 : scheduled < length (arrays w2)).
  { rewrite Hw2. cbn [arrays]. rewrite !length_update. exact Hl1. }
  repeat apply conj.
  - rewrite Hw0. reflexivity.
  - rewrite Hw2. reflexivity.
  - apply (Cancel_registered handle scheduled w3 KTimeout) with (rest := nil);
      [ | reflexivity].
    unfold w3. rewrite operate_all_untouched; assumption.
Qed.

Lemma OnPostRender_after_the_frame_witness :
  let handle := fun n : nat => match n with O => 7%float | _ => 9%float end in
  let callback := UserCallback 0 in
  let stage := PostRenderStage 0 callback in
  let w0 := snd (OnPostRender handle callback empty) in
  let w1 := operate_all handle (DoTimeout 1%float (UserCallback 1) :: nil) w0 in
  let w2 := snd (invoke handle stage w1) in
  let w3 := operate_all handle (DoCancel 1 :: nil) w2 in
  calls w0 = calls empty ++ requestAnimationFrame stage :: nil
  /\ calls w2 = calls w1 ++ setTimeout callback 0%float :: nil
  /\ Cancel handle 0 w3
     = (tt,
        mkWorld (marked 0 w3)
          (calls w3 ++ clearTimeout (VNumber (handle (length (calls w1)))) :: nil)).
Proof.
  intros handle callback stage.
  exact (OnPostRender_after_the_frame handle callback
           (DoTimeout 1%float (UserCallback 1) :: nil) (DoCancel 1 :: nil) empty
           eq_refl eq_refl).
Defined.

(** *** What IsScheduled lets through *)

(** X13.  [IsScheduled] does not look at the kind: every array of two
    numbers passes, whatever the numbers (NaN among them).  When the first
    is none of 0, 1 and 2, [Cancel] marks the array as cancelled and calls no
    function of the host. *)
Theorem IsScheduled_any_two_numbers (handle : nat -> number) (scheduled : nat)
    (w : World) (kind id : number) :
  elements_of scheduled w = VNumber kind :: VNumber id :: nil ->
  IsScheduled (VArray scheduled) w = (true, w)
  /\ (strict_eq kind 0%float = false ->
      strict_eq kind 1%float = false ->
      strict_eq kind 2%float = false ->
      Cancel handle scheduled w = (tt, mkWorld (marked scheduled w) (calls w))
      /\ elements_of scheduled (mkWorld (marked scheduled w) (calls w))
         = VNumber kind :: VNumber id :: VBoolean true :: nil).
Proof.
  intros He. split.
  - unfold IsScheduled. rewrite He. reflexivity.
  - intros H0 H1 H2. split.
    + rewrite Cancel_live by (rewrite He; reflexivity).
      rewrite He. cbn [nth is_the_number]. cbv zeta. rewrite H0, H1, H2.
      reflexivity.
    + unfold elements_of, marked in *. cbn [arrays].
      destruct (Nat.lt_ge_cases scheduled (length (arrays w))) as [H | H].
      * rewrite nth_update_same by exact H. rewrite He. reflexivity.
      * rewrite nth_overflow in He by exact H. discriminate.
Qed.

Lemma IsScheduled_any_two_numbers_witness :
  let w := mkWorld ((VNumber nan :: VNumber 4%float :: nil) :: nil) nil in
  IsScheduled (VArray 0) w = (true, w)
  /\ Cancel (fun _ => 0%float) 0 w = (tt, mkWorld (marked 0 w) (calls w))
  /\ elements_of 0 (mkWorld (marked 0 w) (calls w))
     = VNumber nan :: VNumber 4%float :: VBoolean true :: nil.
Proof.
  intros w.
  destruct (IsScheduled_any_two_numbers (fun _ => 0%float) 0 w nan 4%float eq_refl)
    as [Hscheduled Hcancel].
  split; [exact Hscheduled | exact (Hcancel eq_refl eq_refl eq_refl)].
Defined.

(* ===================================================================== *)
(** ** The maid: what its methods do *)
(* ===================================================================== *)

Import Maid.

(** *** The keys of a Map *)

Lemma same_number_refl a : strict_eq a a || (is_nan a && is_nan a) = true.
Proof.
  destruct (is_nan a) eqn:E; [apply orb_true_r | ].
  unfold strict_eq. rewrite eqb_spec, SFeqb_refl; [reflexivity | ].
  rewrite is_nan_spec in E. intros H. rewrite H in E. discriminate.
Qed.

Lemma SFeqb_zeros a b : SFis_zero a = true -> SFis_zero b = true -> SFeqb a b = true.
Proof. destruct a; try discriminate; destruct b; try discriminate; reflexivity. Qed.

Lemma SFeqb_not_nan a b : SFeqb a b = true -> a <> S754_nan /\ b <> S754_nan.
Proof.
  unfold SFeqb. destruct a, b; cbn; try discriminate; split; discriminate.
Qed.

Lemma SFeqb_trans a b c : SFeqb a b = true -> SFeqb b c = true -> SFeqb a c = true.
Proof.
  intros Hab Hbc.
  destruct (SFeqb_true a b Hab) as [<- | [Ha Hb]]; [exact Hbc | ].
  destruct (SFeqb_true b c Hbc) as [<- | [_ Hc]]; [exact Hab | ].
  apply SFeqb_zeros; assumption.
Qed.

Lemma same_number_sym a b :
  strict_eq a b || (is_nan a && is_nan b) = true ->
  strict_eq b a || (is_nan b && is_nan a) = true.
Proof.
  intros H. apply orb_true_iff in H as [H | H].
  - unfold strict_eq in *. rewrite (eqb_sym _ _ H). reflexivity.
  - rewrite (andb_comm (is_nan b)), H. apply orb_true_r.
Qed.

Lemma same_number_trans a b c :
  strict_eq a b || (is_nan a && is_nan b) = true ->
  strict_eq b c || (is_nan b && is_nan c) = true ->
  strict_eq a c || (is_nan a && is_nan c) = true.
Proof.
  unfold strict_eq. rewrite !eqb_spec, !is_nan_spec. intros Hab Hbc.
  apply orb_true_iff in Hab as [Hab | Hab]; apply orb_true_iff in Hbc as [Hbc | Hbc].
  - rewrite (SFeqb_trans _ _ _ Hab Hbc). reflexivity.
  - apply SFeqb_not_nan in Hab as [_ Hb]. apply andb_true_iff in Hbc as [Hb' _].
    destruct (Prim2SF b); try discriminate. congruence.
  - apply SFeqb_not_nan in Hbc as [Hb _]. apply andb_true_iff in Hab as [_ Hb'].
    destruct (Prim2SF b); try discriminate. congruence.
  - apply andb_true_iff in Hab as [-> _]. apply andb_true_iff in Hbc as [_ ->].
    apply orb_true_r.
Qed.

Lemma same_function_true f g : same_function f g = true -> f = g.
Proof.
  revert g. induction f as [m | a f IH]; intros [n | b g]; cbn; try discriminate.
  - intros H. apply Nat.eqb_eq in H. congruence.
  - intros H. apply andb_true_iff in H as [Ha Hf].
    apply Nat.eqb_eq in Ha. rewrite (IH _ Hf), Ha. reflexivity.
Qed.

Lemma same_function_refl f : same_function f f = true.
Proof.
  induction f as [m | a f IH]; cbn; [apply Nat.eqb_refl | ].
  rewrite Nat.eqb_refl, IH. reflexivity.
Qed.

Lemma SameValueZero_refl x : SameValueZero x x = true.
Proof.
  destruct x; cbn; try reflexivity.
  - destruct b; reflexivity.
  - apply same_number_refl.
  - apply String.eqb_refl.
  - apply same_function_refl.
  - apply Nat.eqb_refl.
  - apply Nat.eqb_refl.
Qed.

Lemma SameValueZero_sym x y : SameValueZero x y = true -> SameValueZero y x = true.
Proof.
  destruct x, y; cbn; try discriminate; try reflexivity.
  - destruct b, b0; auto.
  - apply same_number_sym.
  - rewrite String.eqb_sym. auto.
  - intros H. apply same_function_true in H as ->. apply same_function_refl.
  - rewrite Nat.eqb_sym. auto.
  - rewrite Nat.eqb_sym. auto.
Qed.

Lemma SameValueZero_trans x y z :
  SameValueZero x y = true -> SameValueZero y z = true -> SameValueZero x z = true.
Proof.
  destruct x, y; cbn; try discriminate; destruct z; cbn; try discriminate;
    try reflexivity.
  - destruct b, b0, b1; auto.
  - apply same_number_trans.
  - intros H1 H2. apply String.eqb_eq in H1, H2. apply String.eqb_eq. congruence.
  - intros H1 H2. apply same_function_true in H1 as ->. exact H2.
  - intros H1 H2. apply Nat.eqb_eq in H1, H2. apply Nat.eqb_eq. congruence.
  - intros H1 H2. apply Nat.eqb_eq in H1, H2. apply Nat.eqb_eq. congruence.
Qed.

Lemma SameValueZero_false_l x y z :
  SameValueZero x y = true -> SameValueZero y z = false -> SameValueZero x z = false.
Proof.
  intros Hxy Hyz. destruct (SameValueZero x z) eqn:E; [ | reflexivity].
  rewrite <- Hyz. symmetry.
  apply SameValueZero_trans with x; [apply SameValueZero_sym, Hxy | exact E].
Qed.

Lemma SameValueZero_stored_key key : SameValueZero (stored_key key) key = true.
Proof.
  destruct key; try apply SameValueZero_refl. cbn [stored_key].
  destruct (is_zero n) eqn:E; [ | apply SameValueZero_refl].
  cbn. unfold strict_eq. rewrite eqb_spec. rewrite is_zero_spec in E.
  rewrite SFeqb_zeros; [reflexivity | reflexivity | exact E].
Qed.

(** *** Methods as programs *)

Lemma bind_assoc {A B C} (m : Method A) (f : A -> Method B) (g : B -> Method C) this :
  bind (bind m f) g this = bind m (fun a => bind (f a) g) this.
Proof. unfold bind. destruct (m this) as [[a | e] this']; reflexivity. Qed.

Lemma bind_congr {A B} (m : Method A) (f g : A -> Method B) this :
  (forall a this', m this = (Normal a, this') -> f a this' = g a this') ->
  bind m f this = bind m g this.
Proof.
  intros Hfg. unfold bind. destruct (m this) as [[a | e] this'];
    [apply Hfg | ]; reflexivity.
Qed.

Lemma bind_congr_l {A B} (m m' : Method A) (f : A -> Method B) this :
  m this = m' this -> bind m f this = bind m' f this.
Proof. intros Hm. unfold bind. rewrite Hm. reflexivity. Qed.

(** [CleanItem] works on the world around the maid; it leaves the Map, the
    destroyed state and the ids alone. *)
Lemma framed_ret {A} (a : A) : framed (ret a).
Proof. intros this. cbn. auto. Qed.

Lemma framed_throw {A} e : framed (@throw A e).
Proof. intros this. cbn. auto. Qed.

Lemma framed_effect e : framed (effect e).
Proof. intros this. cbn. auto. Qed.

Lemma framed_in_Scheduler {A} (p : Program A) : framed (in_Scheduler p).
Proof. intros this. unfold in_Scheduler. destruct (p (scheduler this)). cbn. auto. Qed.

Lemma framed_bind {A B} (m : Method A) (f : A -> Method B) :
  framed m -> (forall a, framed (f a)) -> framed (bind m f).
Proof.
  intros Hm Hf this. unfold bind. destruct (Hm this) as (HI & HD & Hi).
  destruct (m this) as [[a | e] this']; cbn [snd] in *.
  - destruct (Hf a this') as (HI' & HD' & Hi'). repeat apply conj; congruence.
  - auto.
Qed.

Lemma framed_on_item H e : framed (on_item H e).
Proof.
  unfold on_item. apply framed_bind; [apply framed_effect | intros _].
  destruct (throws H e); [apply framed_throw | apply framed_ret].
Qed.

Lemma framed_CleanItem H item : framed (CleanItem H item).
Proof.
  unfold CleanItem, call.
  destruct (negb (is_object item)); [apply framed_throw | ].
  destruct (has_Destroy H item); [apply framed_on_item | ].
  apply framed_bind; [apply framed_in_Scheduler | ].
  intros [ | ].
  - destruct item; first [apply framed_ret | apply framed_in_Scheduler].
  - destruct (is_observer H item); [apply framed_on_item | ].
    destruct (IsConnection H item); [apply framed_on_item | ].
    destruct (is_HTMLElement H item); [apply framed_on_item | ].
    destruct item; try apply framed_throw.
    apply framed_bind; [apply framed_on_item | intros _; apply framed_in_Scheduler].
Qed.

Lemma CleanItem_frame H item this :
  let this' := snd (CleanItem H item this) in
  Items this' = Items this
  /\ DestroyedState this' = DestroyedState this
  /\ issued this' = issued this.
Proof. apply framed_CleanItem. Qed.

(** *** CleanUp and Destroy *)

Lemma Clean_head H key item rest this :
  Items this = (key, item) :: rest ->
  DestroyedState this = false ->
  is_undefined item = false ->
  Clean H key this = (set_Items rest ;; CleanItem H item)%maid this.
Proof.
  intros Hitems Hlive Hitem. unfold Clean. unfold bind at 1. unfold get.
  rewrite Hlive, Hitems. cbn [Map_get Map_delete].
  rewrite SameValueZero_refl, Hitem. reflexivity.
Qed.

Lemma for_of_Clean H entries :
  holds_items entries = true ->
  forall this,
    Items this = entries ->
    DestroyedState this = false ->
    for_of (List.map fst entries) (Clean H) this = clean_each H entries this.
Proof.
  induction entries as [ | [key item] rest IH]; intros Hitems this Hthis Hlive.
  - reflexivity.
  - cbn in Hitems. apply andb_true_iff in Hitems as [Hitem Hrest].
    apply negb_true_iff in Hitem.
    cbn [List.map fst for_of clean_each].
    rewrite (bind_congr_l _ _ _ _ (Clean_head H key item rest this Hthis Hlive Hitem)).
    rewrite bind_assoc.
    apply bind_congr. intros [] this1 H1.
    apply bind_congr. intros [] this2 H2.
    destruct (CleanItem_frame H item this1) as (HI & HD & _).
    rewrite H2 in HI, HD. cbn [snd] in HI, HD.
    injection H1 as <-. cbn [Items DestroyedState] in HI, HD.
    apply IH; [exact Hrest | exact HI | rewrite HD; exact Hlive].
Qed.

Lemma clean_each_cons H key item rest this :
  clean_each H ((key, item) :: rest) this
  = match
      CleanItem H item
        (mk rest (DestroyedState this) (scheduler this) (effects this) (issued this))
    with
    | (Normal _, this') => clean_each H rest this'
    | (Throw e, this') => (Throw e, this')
    end.
Proof. reflexivity. Qed.

Lemma clean_each_frame H entries this :
  let this' := snd (clean_each H entries this) in
  DestroyedState this' = DestroyedState this /\ issued this' = issued this.
Proof.
  revert this. induction entries as [ | [key item] rest IH]; intros this; cbn zeta.
  - auto.
  - rewrite clean_each_cons.
    match goal with
    | |- context [CleanItem H item ?s] =>
        destruct (CleanItem_frame H item s) as (_ & HD & HI);
        destruct (CleanItem H item s) as [[[] | e] this'];
        cbn [snd DestroyedState issued] in *
    end.
    + destruct (IH this') as [HD' HI']. cbn zeta in HD', HI'.
      split; congruence.
    + auto.
Qed.

Lemma clean_each_Items H entries this this' :
  clean_each H entries this = (Normal tt, this') ->
  Items this' = nil \/ (entries = nil /\ this' = this).
Proof.
  revert this. induction entries as [ | [key item] rest IH]; intros this.
  - cbn. intros E. injection E as <-. auto.
  - rewrite clean_each_cons.
    match goal with
    | |- context [CleanItem H item ?s] =>
        destruct (CleanItem_frame H item s) as (HI & _ & _);
        destruct (CleanItem H item s) as [[[] | e] this1]; cbn [snd Items] in *
    end; [ | discriminate].
    intros Hrest. left.
    destruct (IH _ Hrest) as [Hnil | [-> ->]]; [exact Hnil | exact HI].
Qed.

(** [CleanUp] as a run through the entries. *)
Lemma CleanUp_unfolded H this :
  DestroyedState this = false ->
  holds_items (Items this) = true ->
  CleanUp H this
  = (clean_each H (Items this) ;; effect (Fire CleanedSignal))%maid this.
Proof.
  intros Hlive Hitems. unfold CleanUp. unfold bind at 1. unfold get at 1.
  rewrite Hlive. unfold bind at 1 3.
  rewrite (for_of_Clean H (Items this) Hitems this eq_refl Hlive).
  destruct (clean_each_frame H (Items this) this) as [HD _]. cbn zeta in HD.
  destruct (clean_each H (Items this) this) as [[[] | e] this']; [ | reflexivity].
  cbn [snd] in HD. unfold bind, get. rewrite HD, Hlive. reflexivity.
Qed.


(** [Destroy] as a run through the signals and the entries. *)
Lemma Destroy_unfolded H this :
  DestroyedState this = false ->
  holds_items (Items this) = true ->
  Destroy H this
  = (effect (Fire DestroyingSignal) ;;
     clean_each H (Items this) ;;
     effect (Fire CleanedSignal) ;;
     set_DestroyedState true ;;
     effect (Fire DestroyedSignal) ;;
     effect (Signal_Destroy DestroyingSignal) ;;
     effect (Signal_Destroy CleanedSignal) ;;
     effect (Signal_Destroy DestroyedSignal))%maid this.
Proof.
  intros Hlive Hitems.
  unfold Destroy. unfold bind at 1. unfold get at 1. rewrite Hlive.
  cbn [Bool.eqb]. apply bind_congr. intros [] this1 H1.
  injection H1 as <-.
  match goal with
  | |- bind (CleanUp H) _ ?s = _ =>
      rewrite (bind_congr_l _ _ _ s (CleanUp_unfolded H s Hlive Hitems))
  end.
  rewrite bind_assoc. reflexivity.
Qed.

(** X15.  [Destroy] on a maid that is not destroyed fires Destroying,
    cleans the entries as [CleanUp] does (in insertion order, each removed
    and then cleaned, once), fires Cleaned, sets the destroyed state, fires
    Destroyed and destroys the three signals, in that order.  When it
    returns, the Map is empty and the maid destroyed; if cleaning an item
    throws, the maid is left not destroyed, with the later entries. *)
Theorem Destroy_cleans_each_item (H : Host) (this : t) :
  DestroyedState this = false ->
  holds_items (Items this) = true ->
  Destroy H this
  = (effect (Fire DestroyingSignal) ;;
     clean_each H (Items this) ;;
     effect (Fire CleanedSignal) ;;
     set_DestroyedState true ;;
     effect (Fire DestroyedSignal) ;;
     effect (Signal_Destroy DestroyingSignal) ;;
     effect (Signal_Destroy CleanedSignal) ;;
     effect (Signal_Destroy DestroyedSignal))%maid this
  /\ (forall this', Destroy H this = (Normal tt, this') ->
        Items this' = nil /\ DestroyedState this' = true)
  /\ (forall e this', Destroy H this = (Throw e, this') ->
        DestroyedState this' = false).
Proof.
  intros Hlive Hitems.
  split; [apply Destroy_unfolded; assumption | ].
  rewrite (Destroy_unfolded H this Hlive Hitems).
  unfold bind, effect, set_DestroyedState.
  match goal with
  | |- context [clean_each H ?l ?s] =>
      pose proof (clean_each_Items H l s) as HI;
      destruct (clean_each_frame H l s) as [HD _];
      destruct (clean_each H l s) as [[[] | e] this1]
  end; cbn [snd DestroyedState Items] in *.
  - split.
    + intros this' E. injection E as <-. cbn [Items DestroyedState].
      split; [ | reflexivity].
      destruct (HI this1 eq_refl) as [Hnil | [Hnil ->]]; exact Hnil.
    + intros e this' E. discriminate.
  - split.
    + intros this' E. discriminate.
    + intros e' this' E. injection E as _ <-. rewrite HD. exact Hlive.
Qed.

Lemma Destroy_cleans_each_item_witness :
  let H :=
    mkHost (fun _ => 0%float) (fun _ => false) (fun _ => false) (fun _ => false)
      (fun _ => false) (fun _ => VString "id") (fun _ => None) in
  let this :=
    mk ((VString "a", VFunction (UserCallback 1))
          :: (VString "b", VFunction (UserCallback 2)) :: nil)
       false empty nil 0 in
  Destroy H this
  = (Normal tt,
     mk nil true empty
        (Fire DestroyingSignal
           :: item_call (VFunction (UserCallback 1))
           :: item_call (VFunction (UserCallback 2))
           :: Fire CleanedSignal :: Fire DestroyedSignal
           :: Signal_Destroy DestroyingSignal :: Signal_Destroy CleanedSignal
           :: Signal_Destroy DestroyedSignal :: nil)
        0).
Proof.
  intros H this.
  destruct (Destroy_cleans_each_item H this eq_refl eq_refl) as (-> & _ & _).
  reflexivity.
Defined.


(** *** Items that can be cleaned *)

Lemma shape_kept_Cancel handle scheduled address w :
  scheduled_shape (elements_of address w) = true ->
  scheduled_shape (elements_of address (snd (Cancel handle scheduled w))) = true.
Proof.
  intros Hshape.
  destruct (ToBoolean (nth 2 (elements_of scheduled w) VUndefined)) eqn:E.
  - rewrite (Cancel_cancelled handle _ _ E). exact Hshape.
  - rewrite (Cancel_live handle _ _ E). cbn [snd]. unfold elements_of, marked in *.
    cbn [arrays].
    destruct (Nat.eq_dec scheduled address) as [-> | Hne].
    + destruct (Nat.lt_ge_cases address (length (arrays w))) as [Hin | Hout].
      * rewrite nth_update_same by exact Hin. apply shape_store_true, Hshape.
      * rewrite update_out_of_range by exact Hout. exact Hshape.
    + rewrite nth_update_other by exact Hne. exact Hshape.
Qed.

Lemma shape_kept_invoke handle f address w :
  scheduled_shape (elements_of address w) = true ->
  scheduled_shape (elements_of address (snd (invoke handle f w))) = true.
Proof.
  intros Hshape. destruct f as [name | scheduled callback]; [exact Hshape | ].
  rewrite invoke_stage. cbn [snd]. unfold elements_of in *. cbn [arrays].
  rewrite update_update.
  destruct (Nat.eq_dec scheduled address) as [-> | Hne].
  - destruct (Nat.lt_ge_cases address (length (arrays w))) as [Hin | Hout].
    + rewrite nth_update_same by exact Hin.
      apply shape_store_id, shape_store_kind, Hshape.
    + rewrite update_out_of_range by exact Hout. exact Hshape.
  - rewrite nth_update_other by exact Hne. exact Hshape.
Qed.

Lemma cleanable_kept H w w' :
  (forall address,
      scheduled_shape (elements_of address w) = true ->
      scheduled_shape (elements_of address w') = true) ->
  forall item, cleanable H w item = true -> cleanable H w' item = true.
Proof.
  intros Hw item. unfold cleanable. destruct (is_object item); [ | auto].
  cbn [andb]. destruct (has_Destroy H item); [auto | ].
  destruct (is_observer H item); [rewrite !orb_true_r; auto | ].
  destruct (IsConnection H item); [rewrite !orb_true_r; auto | ].
  destruct (is_HTMLElement H item); [rewrite !orb_true_r; auto | ].
  destruct item; auto. rewrite !orb_false_r. cbn [orb]. apply Hw.
Qed.

Lemma returns_inv H item :
  returns H item = true ->
  throws H (item_Destroy item) = None
  /\ throws H (item_disconnect item) = None
  /\ throws H (item_Disconnect item) = None
  /\ throws H (item_remove item) = None
  /\ throws H (item_call item) = None.
Proof.
  unfold returns.
  destruct (throws H (item_Destroy item)); [discriminate | ].
  destruct (throws H (item_disconnect item)); [discriminate | ].
  destruct (throws H (item_Disconnect item)); [discriminate | ].
  destruct (throws H (item_remove item)); [discriminate | ].
  destruct (throws H (item_call item)); [discriminate | ].
  repeat split.
Qed.

(** A call that does not throw is recorded and returns; a call that throws
    is recorded and throws. *)
Lemma on_item_returns H e this :
  throws H e = None ->
  on_item H e this
  = (Normal tt,
     mk (Items this) (DestroyedState this) (scheduler this)
        (effects this ++ e :: nil) (issued this)).
Proof. intros E. unfold on_item, bind, effect. rewrite E. reflexivity. Qed.

Lemma on_item_throws H e error this :
  throws H e = Some error ->
  on_item H e this
  = (Throw error,
     mk (Items this) (DestroyedState this) (scheduler this)
        (effects this ++ e :: nil) (issued this)).
Proof. intros E. unfold on_item, bind, effect. rewrite E. reflexivity. Qed.

(** Cleaning an item that can be cleaned, and whose own call does not throw,
    returns normally, and the items that could be cleaned before still
    can. *)
Lemma CleanItem_cleanable H item this :
  cleanable H (scheduler this) item = true ->
  returns H item = true ->
  exists this',
    CleanItem H item this = (Normal tt, this')
    /\ forall other,
         cleanable H (scheduler this) other = true ->
         cleanable H (scheduler this') other = true.
Proof.
  unfold cleanable at 1. intros Hitem Hreturns.
  apply returns_inv in Hreturns as (RDestroy & Rdisconnect & RDisconnect & Rremove & Rcall).
  apply andb_true_iff in Hitem as [Hobject Hitem].
  unfold CleanItem. rewrite Hobject. cbn [negb].
  destruct (has_Destroy H item) eqn:EDestroy.
  { rewrite (on_item_returns _ _ _ RDestroy).
    eexists. split; [reflexivity | ]. cbn [scheduler]. auto. }
  cbn [orb] in Hitem. unfold bind at 1. unfold in_Scheduler at 1.
  unfold IsScheduled.
  assert (Hplain :
    forall e, throws H e = None ->
      exists this',
        on_item H e this = (Normal tt, this')
        /\ forall other,
             cleanable H (scheduler this) other = true ->
             cleanable H (scheduler this') other = true).
  { intros e E. rewrite (on_item_returns _ _ _ E).
    eexists. split; [reflexivity | ]. cbn [scheduler]. auto. }
  destruct item as [ | | b | n | s | f | address | id]; try discriminate.
  - (* a function *)
    cbn [scheduler fst snd].
    replace (mk (Items this) (DestroyedState this) (scheduler this)
               (effects this) (issued this)) with this by (destruct this; reflexivity).
    destruct (is_observer H (VFunction f)); [exact (Hplain _ Rdisconnect) | ].
    destruct (IsConnection H (VFunction f)); [exact (Hplain _ RDisconnect) | ].
    destruct (is_HTMLElement H (VFunction f)); [exact (Hplain _ Rremove) | ].
    unfold call. unfold bind at 1. rewrite (on_item_returns _ _ _ Rcall).
    unfold in_Scheduler. cbn [scheduler].
    destruct (invoke (timers H) f (scheduler this)) as [[] w] eqn:E.
    eexists. split; [reflexivity | ]. cbn [scheduler].
    apply cleanable_kept. intros address Hshape.
    pose proof (shape_kept_invoke (timers H) f address _ Hshape) as Hkept.
    rewrite E in Hkept. exact Hkept.
  - (* an array *)
    destruct (scheduled_shape (elements_of address (scheduler this))) eqn:Eshape.
    + unfold in_Scheduler. cbn [scheduler].
      destruct (Cancel (timers H) address (scheduler this)) as [[] w] eqn:E.
      eexists. split; [reflexivity | ]. cbn [scheduler].
      apply cleanable_kept. intros other Hshape.
      pose proof (shape_kept_Cancel (timers H) address other _ Hshape) as Hkept.
      rewrite E in Hkept. exact Hkept.
    + cbn [orb] in Hitem. cbn [scheduler fst snd].
      replace (mk (Items this) (DestroyedState this) (scheduler this)
                 (effects this) (issued this)) with this by (destruct this; reflexivity).
      destruct (is_observer H (VArray address)); [exact (Hplain _ Rdisconnect) | ].
      destruct (IsConnection H (VArray address)); [exact (Hplain _ RDisconnect) | ].
      destruct (is_HTMLElement H (VArray address)); [exact (Hplain _ Rremove) | ].
      discriminate.
  - (* another object *)
    cbn [orb] in Hitem. cbn [scheduler fst snd].
    replace (mk (Items this) (DestroyedState this) (scheduler this)
               (effects this) (issued this)) with this by (destruct this; reflexivity).
    destruct (is_observer H (VObject id)); [exact (Hplain _ Rdisconnect) | ].
    destruct (IsConnection H (VObject id)); [exact (Hplain _ RDisconnect) | ].
    destruct (is_HTMLElement H (VObject id)); [exact (Hplain _ Rremove) | ].
    discriminate.
Qed.

Lemma clean_each_cleanable H entries :
  forall this,
    forallb (fun entry => cleanable H (scheduler this) (snd entry)) entries = true ->
    forallb (fun entry => returns H (snd entry)) entries = true ->
    exists this', clean_each H entries this = (Normal tt, this').
Proof.
  induction entries as [ | [key item] rest IH]; intros this Hall Hreturn.
  - eexists. reflexivity.
  - cbn [forallb snd] in Hall, Hreturn.
    apply andb_true_iff in Hall as [Hitem Hrest].
    apply andb_true_iff in Hreturn as [Hreturns Hreturn].
    rewrite clean_each_cons.
    match goal with
    | |- context [CleanItem H item ?s] =>
        destruct (CleanItem_cleanable H item s Hitem Hreturns) as (this1 & -> & Hkept)
    end.
    apply IH; [ | exact Hreturn]. cbn [scheduler] in Hkept.
    rewrite forallb_forall in *. intros entry Hentry. apply Hkept, Hrest, Hentry.
Qed.

Lemma cleanable_holds_items H w entries :
  forallb (fun entry => cleanable H w (snd entry)) entries = true ->
  holds_items entries = true.
Proof.
  unfold holds_items. rewrite !forallb_forall. intros Hall entry Hentry.
  specialize (Hall entry Hentry). unfold cleanable in Hall.
  destruct (snd entry); try discriminate; reflexivity.
Qed.

(** X16.  [Destroy] goes through when every item can be cleaned and no
    item's own call throws: on a maid that is not destroyed and whose items
    are each an object with a [Destroy] method, a handle of the scheduler,
    an observer, a connection, an element or a function, and such that the
    call made on each item ([Destroy], [disconnect], [Disconnect], [remove]
    or the call of the function) returns, [Destroy] returns normally and
    leaves the Map empty and the maid destroyed. *)
Theorem Destroy_completes (H : Host) (this : t) :
  DestroyedState this = false ->
  forallb (fun entry => cleanable H (scheduler this) (snd entry)) (Items this) = true ->
  forallb (fun entry => returns H (snd entry)) (Items this) = true ->
  exists this',
    Destroy H this = (Normal tt, this')
    /\ Items this' = nil
    /\ DestroyedState this' = true.
Proof.
  intros Hlive Hall Hreturn.
  rewrite (Destroy_unfolded H this Hlive (cleanable_holds_items _ _ _ Hall)).
  unfold bind at 1. unfold effect at 1. unfold bind at 1.
  match goal with
  | |- context [clean_each H ?l ?s] =>
      pose proof (clean_each_Items H l s) as HI;
      destruct (clean_each_cleanable H l s Hall Hreturn) as (this1 & Hclean)
  end.
  rewrite Hclean. eexists. split; [reflexivity | ].
  cbn [Items DestroyedState]. split; [ | reflexivity].
  destruct (HI this1 Hclean) as [Hnil | [Hnil ->]]; exact Hnil.
Qed.

Lemma Destroy_completes_witness :
  let H :=
    mkHost (fun _ => 7%float)
      (fun item => match item with VObject 1 => true | _ => false end)
      (fun _ => false) (fun _ => false) (fun _ => false) (fun _ => VString "id") (fun _ => None) in
  let this :=
    mk ((VString "maid", VObject 1) :: (VString "task", VArray 0)
          :: (VString "undo", VFunction (UserCallback 2)) :: nil)
       false
       (mkWorld ((VNumber 1%float :: VNumber 7%float :: nil) :: nil)
          (setInterval (UserCallback 0) 0%float :: nil))
       nil 0 in
  exists this',
    Destroy H this = (Normal tt, this')
    /\ Items this' = nil
    /\ DestroyedState this' = true.
Proof.
  intros H this. exact (Destroy_completes H this eq_refl eq_refl eq_refl).
Defined.

(** The proviso on the items' own calls is needed: when the [Destroy] of an
    item throws, [Destroy] throws that error, the items after it are not
    cleaned, and the maid is left not destroyed, still holding them. *)
Example Destroy_of_a_throwing_item :
  let H :=
    mkHost (fun _ => 7%float)
      (fun item => match item with VObject 1 => true | _ => false end)
      (fun _ => false) (fun _ => false) (fun _ => false) (fun _ => VString "id")
      (fun e =>
         match e with
         | item_Destroy (VObject 1) => Some (MkError "the item's own error")
         | _ => None
         end) in
  let this :=
    mk ((VString "maid", VObject 1)
          :: (VString "undo", VFunction (UserCallback 2)) :: nil)
       false (mkWorld nil nil) nil 0 in
  forallb (fun entry => cleanable H (scheduler this) (snd entry)) (Items this) = true
  /\ returns H (VObject 1) = false
  /\ Destroy H this
     = (Throw (MkError "the item's own error"),
        mk ((VString "undo", VFunction (UserCallback 2)) :: nil) false (mkWorld nil nil)
           (Fire DestroyingSignal :: item_Destroy (VObject 1) :: nil) 0).
Proof. repeat split. Qed.

(** *** A destroyed maid *)

Lemma Give_destroyed H item key this :
  DestroyedState this = true ->
  Give H item key this = (CleanItem H item ;; ret item)%maid this.
Proof. intros Hd. unfold Give. unfold bind at 1. unfold get. rewrite Hd. reflexivity. Qed.

Lemma framed_Give_destroyed H item key this :
  DestroyedState this = true ->
  Items (snd (Give H item key this)) = Items this
  /\ DestroyedState (snd (Give H item key this)) = DestroyedState this
  /\ issued (snd (Give H item key this)) = issued this.
Proof.
  intros Hd. rewrite (Give_destroyed H item key this Hd).
  apply (framed_bind (CleanItem H item) (fun _ => ret item));
    [apply framed_CleanItem | intros _; apply framed_ret].
Qed.

Lemma for_of_cons {A} (x : A) l body this :
  for_of (x :: l) body this
  = match body x this with
    | (Normal _, this') => for_of l body this'
    | (Throw e, this') => (Throw e, this')
    end.
Proof. reflexivity. Qed.

Lemma for_of_Give_destroyed H args :
  forall this,
    DestroyedState this = true ->
    let this' := snd (for_of args (fun item => Give H item VUndefined ;; ret tt)%maid this) in
    Items this' = Items this
    /\ DestroyedState this' = DestroyedState this
    /\ issued this' = issued this.
Proof.
  set (body := fun item => (Give H item VUndefined ;; ret tt)%maid).
  induction args as [ | item args IH]; intros this Hd; cbn zeta.
  - cbn. auto.
  - rewrite for_of_cons.
    assert (Hbody : body item this
                    = match Give H item VUndefined this with
                      | (Normal _, this') => (Normal tt, this')
                      | (Throw e, this') => (Throw e, this')
                      end) by reflexivity.
    rewrite Hbody.
    destruct (framed_Give_destroyed H item VUndefined this Hd) as (HI & HD & Hi).
    destruct (Give H item VUndefined this) as [[v | e] this1]; cbn [snd] in *.
    + destruct (IH this1) as (HI' & HD' & Hi'); [congruence | ].
      cbn zeta in HI', HD', Hi'. repeat apply conj; congruence.
    + auto.
Qed.

Lemma perform_destroyed H c this :
  DestroyedState this = true ->
  Items (perform H c this) = Items this
  /\ DestroyedState (perform H c this) = true
  /\ issued (perform H c this) = issued this.
Proof.
  intros Hd. destruct c; cbn [perform].
  - destruct (framed_Give_destroyed H item key this Hd) as (HI & HD & Hi).
    repeat apply conj; congruence.
  - assert (E : snd (GiveItems H args this)
                = snd (for_of args (fun item => Give H item VUndefined ;; ret tt)%maid
                         this)).
    { unfold GiveItems, bind. destruct (for_of args _ this) as [[[] | e] this1];
        reflexivity. }
    rewrite E.
    destruct (for_of_Give_destroyed H args this Hd) as (HI & HD & Hi).
    cbn zeta in HI, HD, Hi. repeat apply conj; congruence.
  - cbn. auto.
  - cbn. auto.
  - unfold Clean, bind, get. rewrite Hd. cbn. auto.
  - unfold CleanUp, bind, get. rewrite Hd. cbn. auto.
  - cbn. auto.
  - unfold Destroy, bind, get. rewrite Hd. cbn. auto.
Qed.

(** X17.  A destroyed maid stays destroyed and keeps nothing.  After any
    sequence of calls of its public methods, with whatever arguments and
    whether or not some of them throw, it is still destroyed and its Map is
    untouched; [Has] answers false and [Get] undefined for every key; and
    [Give] cleans the item it is given at once and returns it, storing
    nothing. *)
Theorem destroyed_maid_is_inert (H : Host) (calls : list Call) (this : t) :
  DestroyedState this = true ->
  let this' := perform_all H calls this in
  DestroyedState this' = true
  /\ Items this' = Items this
  /\ (forall key,
        Has key this' = (Normal false, this')
        /\ Get key this' = (Normal VUndefined, this'))
  /\ (forall item key,
        Give H item key this' = (CleanItem H item ;; ret item)%maid this').
Proof.
  intros Hd. cbn zeta.
  assert (Hinv : DestroyedState (perform_all H calls this) = true
                 /\ Items (perform_all H calls this) = Items this).
  { revert this Hd. unfold perform_all.
    induction calls as [ | c calls IH]; intros this Hd; cbn [fold_left].
    - auto.
    - destruct (perform_destroyed H c this Hd) as (HI & HD & _).
      destruct (IH _ HD) as [HD' HI']. split; congruence. }
  destruct Hinv as [HD HI]. repeat apply conj; try assumption.
  - intros key. unfold Has, Get, bind, get, ret. rewrite HD. auto.
  - intros item key. apply Give_destroyed, HD.
Qed.

Lemma destroyed_maid_is_inert_witness :
  let H :=
    mkHost (fun _ => 0%float) (fun _ => false) (fun _ => false) (fun _ => false)
      (fun _ => false) (fun _ => VString "id") (fun _ => None) in
  let this := mk nil true empty nil 0 in
  let this' :=
    perform_all H
      (CallGive (VFunction (UserCallback 1)) (VString "a") :: CallCleanUp
         :: CallGive (VObject 3) VUndefined :: CallDestroy :: nil)
      this in
  DestroyedState this' = true
  /\ Items this' = Items this
  /\ (forall key,
        Has key this' = (Normal false, this')
        /\ Get key this' = (Normal VUndefined, this'))
  /\ (forall item key,
        Give H item key this' = (CleanItem H item ;; ret item)%maid this').
Proof.
  intros H this.
  exact (destroyed_maid_is_inert H
           (CallGive (VFunction (UserCallback 1)) (VString "a") :: CallCleanUp
              :: CallGive (VObject 3) VUndefined :: CallDestroy :: nil)
           this eq_refl).
Defined.

(** *** Give and Get *)

Lemma Map_get_set_same key key' v entries :
  SameValueZero key key' = true -> Map_get key' (Map_set key v entries) = v.
Proof.
  intros Hk. induction entries as [ | [k0 v0] rest IH]; cbn [Map_set Map_get].
  - rewrite (SameValueZero_trans _ _ _ (SameValueZero_stored_key key) Hk).
    reflexivity.
  - destruct (SameValueZero k0 key) eqn:E; cbn [Map_get].
    + rewrite (SameValueZero_trans _ _ _ E Hk). reflexivity.
    + destruct (SameValueZero k0 key') eqn:E'; [ | exact IH].
      rewrite (SameValueZero_trans _ _ _ E' (SameValueZero_sym _ _ Hk)) in E.
      discriminate.
Qed.

Lemma Map_get_set_other key other v entries :
  SameValueZero key other = false ->
  Map_get other (Map_set key v entries) = Map_get other entries.
Proof.
  intros Hk. induction entries as [ | [k0 v0] rest IH]; cbn [Map_set Map_get].
  - rewrite (SameValueZero_false_l _ _ _ (SameValueZero_stored_key key) Hk).
    reflexivity.
  - destruct (SameValueZero k0 key) eqn:E; cbn [Map_get].
    + rewrite (SameValueZero_false_l _ _ _ E Hk). reflexivity.
    + rewrite IH. reflexivity.
Qed.

Lemma Map_get_delete_other key other entries :
  SameValueZero key other = false ->
  Map_get other (Map_delete key entries) = Map_get other entries.
Proof.
  intros Hk. induction entries as [ | [k0 v0] rest IH]; cbn [Map_delete Map_get].
  - reflexivity.
  - destruct (SameValueZero k0 key) eqn:E; cbn [Map_get].
    + rewrite (SameValueZero_false_l _ _ _ E Hk). reflexivity.
    + rewrite IH. reflexivity.
Qed.

Lemma Clean_live H key this :
  DestroyedState this = false ->
  Clean H key this
  = if negb (is_undefined (Map_get key (Items this))) then
      CleanItem H (Map_get key (Items this))
        (mk (Map_delete key (Items this)) false (scheduler this) (effects this)
            (issued this))
    else (Normal tt, this).
Proof.
  intros Hlive. unfold Clean, bind, get, set_Items. rewrite Hlive.
  cbv beta iota zeta.
  destruct (negb (is_undefined (Map_get key (Items this))));
    rewrite ?Hlive; reflexivity.
Qed.

(** What [Clean] leaves of the instance: the Map as it was, or without the
    key. *)
Lemma Clean_Items H key this :
  DestroyedState this = false ->
  DestroyedState (snd (Clean H key this)) = false
  /\ issued (snd (Clean H key this)) = issued this
  /\ (Items (snd (Clean H key this)) = Items this
      \/ Items (snd (Clean H key this)) = Map_delete key (Items this)).
Proof.
  intros Hlive. rewrite (Clean_live H key this Hlive).
  destruct (negb (is_undefined (Map_get key (Items this)))).
  - match goal with
    | |- context [CleanItem H ?item ?s] =>
        destruct (CleanItem_frame H item s) as (HI & HD & Hi)
    end.
    cbn [Items DestroyedState issued] in HI, HD, Hi. auto.
  - auto.
Qed.

(** X18.  What [Give] stores, [Get] returns.  When [Give(item, key)] on a
    maid that is not destroyed returns, it returns the item; the item is
    then found under the key, or, when the key is left out (or null), under
    the id [GetUniqueId] returned; and under every other key [Get] finds
    what was there before. *)
Theorem Give_then_Get (H : Host) (item key : Value) (this this' : t)
    (result : Value) :
  DestroyedState this = false ->
  Give H item key this = (Normal result, this') ->
  let finalKey := if nullish key then GetUniqueId H (issued this) else key in
  result = item
  /\ Get finalKey this' = (Normal item, this')
  /\ (forall other,
        SameValueZero finalKey other = false ->
        Get other this' = (Normal (Map_get other (Items this)), this')).
Proof.
  intros Hlive. destruct this as [items destroyed w log ids].
  cbn [DestroyedState] in Hlive. subst destroyed. cbn [issued Items].
  unfold Give. unfold bind at 1. unfold get at 1. cbn [DestroyedState].
  set (finalKey := if nullish key then GetUniqueId H ids else key).
  set (this0 := mk items false w log (if nullish key then S ids else ids)).
  assert (H0 : (if nullish key then unique_id H else ret key) (mk items false w log ids)
               = (Normal finalKey, this0)).
  { unfold finalKey, this0. destruct (nullish key); reflexivity. }
  unfold bind at 1. rewrite H0. unfold bind at 1. unfold Has at 1.
  unfold bind at 1. unfold get at 1. unfold ret at 1.
  cbn [DestroyedState Items this0].
  assert (Hstep :
    forall this1,
      DestroyedState this1 = false ->
      (Items this1 = items \/ Items this1 = Map_delete finalKey items) ->
      (this2 <- get ;; set_Items (Map_set finalKey item (Items this2)) ;; ret item)%maid
        this1 = (Normal result, this') ->
      result = item
      /\ Get finalKey this' = (Normal item, this')
      /\ (forall other,
            SameValueZero finalKey other = false ->
            Get other this' = (Normal (Map_get other items), this'))).
  { intros this1 Hlive1 HItems E. cbn in E. injection E as <- <-.
    unfold Get, bind, get, ret. cbn [DestroyedState Items]. rewrite Hlive1.
    repeat apply conj.
    - reflexivity.
    - rewrite Map_get_set_same by apply SameValueZero_refl. reflexivity.
    - intros other Hother. rewrite Map_get_set_other by exact Hother.
      destruct HItems as [-> | ->]; [reflexivity | ].
      rewrite Map_get_delete_other by exact Hother. reflexivity. }
  destruct (Map_has finalKey items).
  - unfold bind at 1.
    destruct (Clean_Items H finalKey this0 eq_refl) as (HD & _ & HI).
    destruct (Clean H finalKey this0) as [[[] | e] this1]; cbn [snd] in *;
      [ | discriminate].
    apply Hstep; assumption.
  - unfold bind at 1. unfold ret at 1. apply Hstep; [reflexivity | left; reflexivity].
Qed.

Lemma Give_then_Get_witness :
  let H :=
    mkHost (fun _ => 0%float) (fun _ => false) (fun _ => false) (fun _ => false)
      (fun _ => false) (fun _ => VString "id") (fun _ => None) in
  let this :=
    mk ((VNumber 0%float, VFunction (UserCallback 1))
          :: (VString "b", VFunction (UserCallback 2)) :: nil)
       false empty nil 0 in
  let this' :=
    mk ((VString "b", VFunction (UserCallback 2))
          :: (VNumber 0%float, VObject 3) :: nil)
       false empty (item_call (VFunction (UserCallback 1)) :: nil) 0 in
  Give H (VObject 3) (VNumber (-0)%float) this = (Normal (VObject 3), this')
  /\ Get (VNumber (-0)%float) this' = (Normal (VObject 3), this')
  /\ (forall other,
        SameValueZero (VNumber (-0)%float) other = false ->
        Get other this' = (Normal (Map_get other (Items this)), this')).
Proof.
  intros H this this'.
  assert (E : Give H (VObject 3) (VNumber (-0)%float) this = (Normal (VObject 3), this'))
    by reflexivity.
  split; [exact E | ].
  exact (proj2 (Give_then_Get H (VObject 3) (VNumber (-0)%float) this this'
                  (VObject 3) eq_refl E)).
Defined.

(** *** A task given to a maid *)

(** Cleaning a handle of the scheduler cancels its task. *)
Lemma CleanItem_cancels H scheduled kind id this :
  has_Destroy H (VArray scheduled) = false ->
  elements_of scheduled (scheduler this)
  = VNumber (code kind) :: VNumber id :: nil ->
  CleanItem H (VArray scheduled) this
  = (Normal tt,
     mk (Items this) (DestroyedState this)
        (mkWorld (marked scheduled (scheduler this))
           (calls (scheduler this) ++ clear kind (VNumber id) :: nil))
        (effects this) (issued this)).
Proof.
  intros Hdestroy Helements. unfold CleanItem. cbn [is_object negb].
  rewrite Hdestroy. unfold bind, in_Scheduler, IsScheduled. rewrite Helements.
  assert (Hshape : scheduled_shape (VNumber (code kind) :: VNumber id :: nil) = true)
    by reflexivity.
  rewrite Hshape. cbv beta iota. cbn [scheduler].
  rewrite (Cancel_registered (timers H) scheduled (scheduler this) kind (VNumber id) nil
             Helements eq_refl).
  reflexivity.
Qed.

(** X19.  A task given to a maid is cancelled when the maid is destroyed.
    For a handle returned by any creator of the scheduler and given to a new
    maid, under any key or none, [Destroy] returns normally, the host is
    asked to clear the task, with the clearing function of its kind and the
    id the host had returned, and nothing else is asked of the host; the
    maid ends up empty and destroyed. *)
Theorem Destroy_cancels_a_given_task (H : Host) (create : Operation) (w : World)
    (scheduled : nat) (key : Value) (log : list Effect) (ids : nat) :
  result (timers H) create w = VArray scheduled ->
  has_Destroy H (VArray scheduled) = false ->
  exists (kind : Kind) (registration : HostCall) (this' : t),
    registers registration = Some kind
    /\ (Give H (VArray scheduled) key ;; Destroy H)%maid
         (constructor (operate (timers H) create w) log ids)
       = (Normal tt, this')
    /\ calls (scheduler this')
       = calls w ++ registration
           :: clear kind (VNumber (timers H (length (calls w)))) :: nil
    /\ Items this' = nil
    /\ DestroyedState this' = true.
Proof.
  intros Hcreate Hdestroy.
  destruct (operate_create (timers H) create w scheduled Hcreate)
    as (-> & kind & registration & Hkind & ->).
  set (scheduled := length (arrays w)) in *.
  set (w1 := mkWorld _ _).
  assert (Helements : elements_of scheduled w1
                      = VNumber (code kind)
                          :: VNumber (timers H (length (calls w))) :: nil).
  { unfold elements_of, w1, scheduled. cbn [arrays].
    rewrite app_nth2, Nat.sub_diag by lia. reflexivity. }
  set (finalKey := if nullish key then GetUniqueId H ids else key).
  set (this1 := mk ((stored_key finalKey, VArray scheduled) :: nil) false w1
                   (effects (constructor w1 log ids))
                   (if nullish key then S ids else ids)).
  assert (HGive : Give H (VArray scheduled) key (constructor w1 log ids)
                  = (Normal (VArray scheduled), this1)).
  { unfold this1, finalKey, Give, constructor. destruct (nullish key); reflexivity. }
  pose proof (Destroy_unfolded H this1 eq_refl eq_refl) as HDestroy.
  exists kind, registration. eexists.
  split; [exact Hkind | ]. split.
  - unfold bind at 1. rewrite HGive, HDestroy.
    unfold bind at 1. unfold effect at 1.
    unfold bind at 1. cbn [Items this1]. rewrite clean_each_cons.
    cbn [DestroyedState scheduler effects issued].
    match goal with
    | |- context [CleanItem H (VArray scheduled) ?s] =>
        rewrite (CleanItem_cancels H scheduled kind
                   (timers H (length (calls w))) s Hdestroy Helements)
    end.
    reflexivity.
  - cbn [scheduler Items DestroyedState calls]. unfold this1, w1.
    cbn [scheduler calls]. rewrite <- app_assoc. repeat apply conj; reflexivity.
Qed.

Lemma Destroy_cancels_a_given_task_witness :
  let H :=
    mkHost (fun _ => 7%float) (fun _ => false) (fun _ => false) (fun _ => false)
      (fun _ => false) (fun _ => VString "id") (fun _ => None) in
  exists (kind : Kind) (registration : HostCall) (this' : t),
    registers registration = Some kind
    /\ (Give H (VArray 0) VUndefined ;; Destroy H)%maid
         (constructor
            (operate (timers H) (DoInterval 2%float (UserCallback 0)) empty) nil 0)
       = (Normal tt, this')
    /\ calls (scheduler this')
       = calls empty ++ registration
           :: clear kind (VNumber (timers H (length (calls empty)))) :: nil
    /\ Items this' = nil
    /\ DestroyedState this' = true.
Proof.
  intros H.
  exact (Destroy_cancels_a_given_task H (DoInterval 2%float (UserCallback 0)) empty 0
           VUndefined nil 0 eq_refl eq_refl).
Defined.

(** At that instance: the interval is registered, given to a new maid and
    cleared with [clearInterval] when the maid is destroyed. *)
Example Destroy_cancels_a_given_task_runs :
  let H :=
    mkHost (fun _ => 7%float) (fun _ => false) (fun _ => false) (fun _ => false)
      (fun _ => false) (fun _ => VString "id") (fun _ => None) in
  calls
    (scheduler
       (snd
          ((Give H (VArray 0) VUndefined ;; Destroy H)%maid
             (constructor
                (operate (timers H) (DoInterval 2%float (UserCallback 0)) empty)
                nil 0))))
  = setInterval (UserCallback 0) 2000%float :: clearInterval (VNumber 7%float) :: nil.
Proof. reflexivity. Qed.

(** *** GiveItems *)

Lemma Give_new_id H item this :
  DestroyedState this = false ->
  Map_has (GetUniqueId H (issued this)) (Items this) = false ->
  Give H item VUndefined this
  = (Normal item,
     mk (Map_set (GetUniqueId H (issued this)) item (Items this)) false
        (scheduler this) (effects this) (S (issued this))).
Proof.
  intros Hlive Hnew. destruct this as [entries destroyed w log ids].
  cbn [DestroyedState Items issued] in *. subst destroyed.
  unfold Give, Has, unique_id, set_Items, bind, get, ret.
  cbn [nullish DestroyedState Items issued scheduler effects].
  rewrite Hnew. reflexivity.
Qed.

Lemma Map_set_new key item entries :
  Map_has key entries = false ->
  Map_set key item entries = entries ++ (stored_key key, item) :: nil.
Proof.
  induction entries as [ | [k v] rest IH]; cbn [Map_has Map_set]; [reflexivity | ].
  intros Hnew. apply orb_false_iff in Hnew as [-> Hrest].
  rewrite (IH Hrest). reflexivity.
Qed.

(** X20.  [GiveItems] keeps every item when [GetUniqueId] gives new ids.
    On a maid that is not destroyed, if none of the ids returned during the
    call is a key of the Map at that moment, then [GiveItems] returns its
    arguments, calls nothing on any item, and leaves each item in the Map
    under its id, after the entries that were there and in the order of the
    arguments. *)
Theorem GiveItems_keeps_every_item (H : Host) (args : list Value) (this : t) :
  DestroyedState this = false ->
  new_ids H (Items this) (issued this) args = true ->
  GiveItems H args this
  = (Normal args,
     mk (given H (Items this) (issued this) args) false (scheduler this)
        (effects this) (length args + issued this))
  /\ List.map snd (given H (Items this) (issued this) args)
     = List.map snd (Items this) ++ args.
Proof.
  intros Hlive Hnew.
  assert (Hloop :
    forall args this,
      DestroyedState this = false ->
      new_ids H (Items this) (issued this) args = true ->
      for_of args (fun item => Give H item VUndefined ;; ret tt)%maid this
      = (Normal tt,
         mk (given H (Items this) (issued this) args) false (scheduler this)
            (effects this) (length args + issued this))).
  { clear. induction args as [ | item args IH]; intros this Hlive Hnew.
    - destruct this; cbn in *; subst; reflexivity.
    - cbn [new_ids] in Hnew. apply andb_true_iff in Hnew as [Hid Hrest].
      apply negb_true_iff in Hid.
      rewrite for_of_cons. unfold bind at 1.
      rewrite (Give_new_id H item this Hlive Hid). unfold ret at 1.
      rewrite IH; cbn [DestroyedState Items issued scheduler effects];
        [ | reflexivity | exact Hrest].
      cbn [given length]. rewrite Nat.add_succ_r. reflexivity. }
  split.
  - unfold GiveItems. unfold bind at 1. rewrite (Hloop args this Hlive Hnew).
    reflexivity.
  - clear Hloop Hlive. revert Hnew. generalize (Items this), (issued this).
    induction args as [ | item args IH]; intros entries ids Hnew.
    + cbn. rewrite app_nil_r. reflexivity.
    + cbn [new_ids] in Hnew. apply andb_true_iff in Hnew as [Hid Hrest].
      apply negb_true_iff in Hid. cbn [given].
      rewrite (IH _ _ Hrest), (Map_set_new _ _ _ Hid), map_app, <- app_assoc.
      reflexivity.
Qed.

Lemma GiveItems_keeps_every_item_witness :
  let H :=
    mkHost (fun _ => 0%float) (fun _ => false) (fun _ => false) (fun _ => false)
      (fun _ => false)
      (fun n => VNumber (of_uint63 (Uint63.of_Z (Z.of_nat n)))) (fun _ => None) in
  let this := mk ((VString "a", VObject 1) :: nil) false empty nil 4 in
  let args := VFunction (UserCallback 1) :: VFunction (UserCallback 2) :: nil in
  GiveItems H args this
  = (Normal args,
     mk (given H (Items this) (issued this) args) false (scheduler this)
        (effects this) (length args + issued this))
  /\ List.map snd (given H (Items this) (issued this) args)
     = List.map snd (Items this) ++ args.
Proof.
  intros H this args.
  exact (GiveItems_keeps_every_item H args this eq_refl eq_refl).
Defined.

(** When [GetUniqueId] repeats an id, the item given first is cleaned and
    replaced by the second. *)
Example GiveItems_repeated_id_runs :
  let H :=
    mkHost (fun _ => 0%float) (fun _ => false) (fun _ => false) (fun _ => false)
      (fun _ => false) (fun _ => VString "id") (fun _ => None) in
  GiveItems H (VFunction (UserCallback 1) :: VFunction (UserCallback 2) :: nil)
    (mk nil false empty nil 0)
  = (Normal (VFunction (UserCallback 1) :: VFunction (UserCallback 2) :: nil),
     mk ((VString "id", VFunction (UserCallback 2)) :: nil) false empty
        (item_call (VFunction (UserCallback 1)) :: nil) 2).
Proof. reflexivity. Qed.

(** *** The Map keeps its keys apart *)

Lemma SameValueZero_congr x y z :
  SameValueZero x y = true -> SameValueZero x z = SameValueZero y z.
Proof.
  intros Hxy. destruct (SameValueZero y z) eqn:E.
  - apply SameValueZero_trans with y; assumption.
  - apply SameValueZero_false_l with y; assumption.
Qed.

Lemma SameValueZero_comm x y : SameValueZero x y = SameValueZero y x.
Proof.
  destruct (SameValueZero x y) eqn:E.
  - symmetry. apply SameValueZero_sym, E.
  - destruct (SameValueZero y x) eqn:E'; [ | reflexivity].
    apply SameValueZero_sym in E'. congruence.
Qed.

Lemma Map_has_congr key key' entries :
  SameValueZero key key' = true -> Map_has key entries = Map_has key' entries.
Proof.
  intros Hk. induction entries as [ | [k v] rest IH]; cbn [Map_has]; [reflexivity | ].
  rewrite IH, (SameValueZero_comm k key), (SameValueZero_comm k key').
  rewrite (SameValueZero_congr _ _ _ Hk). reflexivity.
Qed.

Lemma Map_get_absent key entries :
  Map_has key entries = false -> Map_get key entries = VUndefined.
Proof.
  induction entries as [ | [k v] rest IH]; cbn [Map_has Map_get]; [reflexivity | ].
  intros Hk. apply orb_false_iff in Hk as [-> Hrest]. apply IH, Hrest.
Qed.

Lemma Map_has_delete key other entries :
  Map_has other (Map_delete key entries) = true -> Map_has other entries = true.
Proof.
  induction entries as [ | [k v] rest IH]; cbn [Map_delete Map_has]; [auto | ].
  destruct (SameValueZero k key); cbn [Map_has].
  - intros ->. apply orb_true_r.
  - intros Ho. apply orb_true_iff in Ho as [-> | Ho]; [reflexivity | ].
    rewrite (IH Ho). apply orb_true_r.
Qed.

Lemma Map_has_delete_same key entries :
  unique_keys entries = true -> Map_has key (Map_delete key entries) = false.
Proof.
  induction entries as [ | [k v] rest IH]; cbn [unique_keys Map_delete Map_has];
    [reflexivity | ].
  intros Hu. apply andb_true_iff in Hu as [Hk Hrest]. apply negb_true_iff in Hk.
  destruct (SameValueZero k key) eqn:E; cbn [Map_has].
  - rewrite <- (Map_has_congr _ _ _ E). exact Hk.
  - rewrite E. apply IH, Hrest.
Qed.

Lemma unique_keys_delete key entries :
  unique_keys entries = true -> unique_keys (Map_delete key entries) = true.
Proof.
  induction entries as [ | [k v] rest IH]; cbn [unique_keys Map_delete]; [auto | ].
  intros Hu. apply andb_true_iff in Hu as [Hk Hrest]. apply negb_true_iff in Hk.
  destruct (SameValueZero k key); [exact Hrest | ].
  cbn [unique_keys]. rewrite (IH Hrest), andb_true_r. apply negb_true_iff.
  destruct (Map_has k (Map_delete key rest)) eqn:E; [ | reflexivity].
  apply Map_has_delete in E. congruence.
Qed.

Lemma Map_has_set key other value entries :
  Map_has other (Map_set key value entries)
  = SameValueZero key other || Map_has other entries.
Proof.
  induction entries as [ | [k v] rest IH]; cbn [Map_set Map_has].
  - rewrite (SameValueZero_congr _ _ other (SameValueZero_stored_key key)).
    reflexivity.
  - destruct (SameValueZero k key) eqn:E; cbn [Map_has].
    + rewrite (SameValueZero_congr _ _ other E).
      destruct (SameValueZero key other); reflexivity.
    + rewrite IH.
      destruct (SameValueZero k other), (SameValueZero key other); reflexivity.
Qed.

Lemma unique_keys_set key value entries :
  unique_keys entries = true -> unique_keys (Map_set key value entries) = true.
Proof.
  induction entries as [ | [k v] rest IH]; cbn [unique_keys Map_set]; [auto | ].
  intros Hu. apply andb_true_iff in Hu as [Hk Hrest].
  destruct (SameValueZero k key) eqn:E; cbn [unique_keys].
  - rewrite Hk, Hrest. reflexivity.
  - rewrite (IH Hrest), andb_true_r, Map_has_set, (SameValueZero_comm key k), E.
    exact Hk.
Qed.

(** A method that keeps the keys of the Map apart, whether it returns or
    throws. *)
Lemma framed_unique {A} (m : Method A) this :
  framed m ->
  unique_keys (Items this) = true -> unique_keys (Items (snd (m this))) = true.
Proof. intros Hm Hu. destruct (Hm this) as (-> & _ & _). exact Hu. Qed.

Lemma Clean_unique H key this :
  unique_keys (Items this) = true ->
  unique_keys (Items (snd (Clean H key this))) = true.
Proof.
  intros Hu. destruct (DestroyedState this) eqn:Hd.
  - unfold Clean, bind, get. rewrite Hd. exact Hu.
  - destruct (Clean_Items H key this Hd) as (_ & _ & [-> | ->]);
      [exact Hu | apply unique_keys_delete, Hu].
Qed.

Lemma Give_unique H item key this :
  unique_keys (Items this) = true ->
  unique_keys (Items (snd (Give H item key this))) = true.
Proof.
  intros Hu. destruct (DestroyedState this) eqn:Hd.
  - destruct (framed_Give_destroyed H item key this Hd) as (-> & _ & _). exact Hu.
  - destruct this as [items destroyed w log ids].
    cbn [DestroyedState Items] in *. subst destroyed.
    unfold Give. unfold bind at 1. unfold get at 1. cbn [DestroyedState].
    set (finalKey := if nullish key then GetUniqueId H ids else key).
    set (this0 := mk items false w log (if nullish key then S ids else ids)).
    assert (H0 : (if nullish key then unique_id H else ret key) (mk items false w log ids)
                 = (Normal finalKey, this0)).
    { unfold finalKey, this0. destruct (nullish key); reflexivity. }
    unfold bind at 1. rewrite H0. unfold bind at 1. unfold Has at 1.
    unfold bind at 1. unfold get at 1. unfold ret at 1.
    cbn [DestroyedState Items this0].
    assert (Hstep :
      forall this1,
        unique_keys (Items this1) = true ->
        unique_keys
          (Items
             (snd ((this2 <- get ;;
                    set_Items (Map_set finalKey item (Items this2)) ;;
                    ret item)%maid this1))) = true).
    { intros this1 H1. cbn. apply unique_keys_set, H1. }
    destruct (Map_has finalKey items).
    + unfold bind at 1.
      pose proof (Clean_unique H finalKey this0 Hu) as Hc.
      destruct (Clean H finalKey this0) as [[[] | e] this1]; cbn [snd] in *;
        [apply Hstep, Hc | exact Hc].
    + unfold bind at 1. unfold ret at 1. apply Hstep. exact Hu.
Qed.

Lemma for_of_unique {A} (l : list A) (body : A -> Method unit) :
  (forall x this,
      unique_keys (Items this) = true ->
      unique_keys (Items (snd (body x this))) = true) ->
  forall this,
    unique_keys (Items this) = true ->
    unique_keys (Items (snd (for_of l body this))) = true.
Proof.
  intros Hbody. induction l as [ | x l IH]; intros this Hu.
  - exact Hu.
  - rewrite for_of_cons. specialize (Hbody x this Hu).
    destruct (body x this) as [[[] | e] this1]; cbn [snd] in *;
      [apply IH, Hbody | exact Hbody].
Qed.

Lemma CleanUp_unique H this :
  unique_keys (Items this) = true ->
  unique_keys (Items (snd (CleanUp H this))) = true.
Proof.
  intros Hu. unfold CleanUp. unfold bind at 1. unfold get at 1.
  destruct (DestroyedState this); [exact Hu | ].
  unfold bind at 1.
  pose proof (for_of_unique (List.map fst (Items this)) (Clean H)
                (Clean_unique H) this Hu) as Hloop.
  destruct (for_of (List.map fst (Items this)) (Clean H) this) as [[[] | e] this1];
    cbn [snd] in *; [ | exact Hloop].
  unfold bind, get. destruct (Bool.eqb (DestroyedState this1) false); exact Hloop.
Qed.

Lemma Destroy_unique H this :
  unique_keys (Items this) = true ->
  unique_keys (Items (snd (Destroy H this))) = true.
Proof.
  intros Hu. unfold Destroy. unfold bind at 1. unfold get at 1.
  destruct (Bool.eqb (DestroyedState this) false); [ | exact Hu].
  unfold bind at 1. unfold effect at 1. unfold bind at 1.
  match goal with
  | |- context [CleanUp H ?s] =>
      pose proof (CleanUp_unique H s Hu) as Hc;
      destruct (CleanUp H s) as [[[] | e] this1]; cbn [snd] in *
  end; [ | exact Hc].
  cbn. exact Hc.
Qed.

Lemma perform_unique H c this :
  unique_keys (Items this) = true ->
  unique_keys (Items (perform H c this)) = true.
Proof.
  intros Hu. destruct c; cbn [perform].
  - apply Give_unique, Hu.
  - unfold GiveItems. unfold bind.
    pose proof (for_of_unique args (fun item => Give H item VUndefined ;; ret tt)%maid)
      as Hloop.
    match goal with
    | |- context [for_of args ?body this] =>
        assert (Hl : unique_keys (Items (snd (for_of args body this))) = true)
    end.
    { apply Hloop; [ | exact Hu]. intros x this0 H0. unfold bind.
      pose proof (Give_unique H x VUndefined this0 H0) as Hg.
      destruct (Give H x VUndefined this0) as [[v | e] this1]; exact Hg. }
    destruct (for_of args _ this) as [[[] | e] this1]; exact Hl.
  - exact Hu.
  - exact Hu.
  - apply Clean_unique, Hu.
  - apply CleanUp_unique, Hu.
  - exact Hu.
  - apply Destroy_unique, Hu.
Qed.

(** X21.  [Clean] removes the key.  On a maid made by the constructor,
    after any sequence of calls of its public methods, [Clean(key)] leaves
    nothing to get under the key, whether it returns or the item's cleaning
    throws; if there was an item under the key, [Has] then answers false;
    and on a maid that is not destroyed every other key keeps its item. *)
Theorem Clean_removes_the_key (H : Host) (w : World) (log : list Effect) (ids : nat)
    (calls : list Call) (key : Value) :
  let this := perform_all H calls (constructor w log ids) in
  let this' := snd (Clean H key this) in
  Get key this' = (Normal VUndefined, this')
  /\ (is_undefined (Map_get key (Items this)) = false ->
      Has key this' = (Normal false, this'))
  /\ (forall other,
        DestroyedState this = false ->
        SameValueZero key other = false ->
        Get other this' = (Normal (Map_get other (Items this)), this')).
Proof.
  cbn zeta. set (this := perform_all H calls (constructor w log ids)).
  assert (Hu : unique_keys (Items this) = true).
  { unfold this, perform_all. generalize (constructor w log ids), (eq_refl : unique_keys (Items (constructor w log ids)) = true).
    induction calls as [ | c calls IH]; intros this0 H0; cbn [fold_left].
    - exact H0.
    - apply IH, perform_unique, H0. }
  destruct (DestroyedState this) eqn:Hd.
  - assert (E : Clean H key this = (Normal tt, this)).
    { unfold Clean, bind, get. rewrite Hd. reflexivity. }
    rewrite E. cbn [snd]. unfold Get, Has, bind, get, ret. rewrite Hd.
    repeat apply conj; [reflexivity | reflexivity | discriminate].
  - destruct (Clean_Items H key this Hd) as (Hd' & _ & _).
    pose proof (Clean_live H key this Hd) as E.
    unfold Get, Has, bind, get, ret. rewrite Hd'.
    destruct (negb (is_undefined (Map_get key (Items this)))) eqn:Hitem.
    + match type of E with
      | _ = CleanItem H ?item ?s =>
          destruct (CleanItem_frame H item s) as (HI & _ & _)
      end.
      rewrite <- E in HI. cbn [Items] in HI. rewrite HI.
      repeat apply conj.
      * rewrite Map_get_absent; [reflexivity | ].
        apply Map_has_delete_same, Hu.
      * intros _. rewrite Map_has_delete_same by exact Hu. reflexivity.
      * intros other _ Hother. rewrite Map_get_delete_other by exact Hother.
        reflexivity.
    + rewrite E. cbn [snd]. apply negb_false_iff in Hitem.
      repeat apply conj.
      * destruct (Map_get key (Items this)); try discriminate. reflexivity.
      * intros Hdefined. congruence.
      * intros other _ _. reflexivity.
Qed.

(** A key that holds [undefined] stays: [Clean] takes it for a key with no
    item. *)
Example Clean_undefined_runs :
  let H :=
    mkHost (fun _ => 0%float) (fun _ => false) (fun _ => false) (fun _ => false)
      (fun _ => false) (fun _ => VString "id") (fun _ => None) in
  (Give H VUndefined (VString "a") ;; Clean H (VString "a") ;; Has (VString "a"))%maid
    (constructor empty nil 0)
  = (Normal true,
     mk ((VString "a", VUndefined) :: nil) false empty
        (effects (constructor empty nil 0)) 0).
Proof. reflexivity. Qed.

(* ===================================================================== *)
(** ** The maid as it was before: what its methods do *)
(* ===================================================================== *)

(** *** The first version *)

Lemma Map_get_new_array w key entries :
  FirstMaid.allocated w entries = true ->
  length (arrays w) <= key ->
  Map_get (VArray key) entries = VUndefined.
Proof.
  intros Hall Hkey. induction entries as [ | [k v] rest IH]; [reflexivity | ].
  cbn [FirstMaid.allocated forallb fst] in Hall.
  apply andb_true_iff in Hall as [Hk Hrest]. cbn [Map_get].
  assert (E : SameValueZero k (VArray key) = false).
  { destruct k; try reflexivity. cbn. apply Nat.ltb_lt in Hk.
    apply Nat.eqb_neq. lia. }
  rewrite E. apply IH, Hrest.
Qed.

Lemma allocated_more w w' entries :
  length (arrays w) <= length (arrays w') ->
  FirstMaid.allocated w entries = true -> FirstMaid.allocated w' entries = true.
Proof.
  intros Hle. unfold FirstMaid.allocated. rewrite !forallb_forall.
  intros Hall entry Hentry. specialize (Hall entry Hentry).
  destruct (fst entry); try reflexivity.
  apply Nat.ltb_lt in Hall. apply Nat.ltb_lt. lia.
Qed.

Lemma FirstMaid_Clean_new_array H all destroyed w w' log ids key :
  FirstMaid.allocated w all = true ->
  length (arrays w) <= key ->
  FirstMaid.Clean H (VArray key) (FirstMaid.mk (Some all) destroyed w' log ids)
  = (Normal tt, FirstMaid.mk (Some all) destroyed w' log ids).
Proof.
  intros Hall Hkey. unfold FirstMaid.Clean, FirstMaid.the_Items, Run.bind, Run.get.
  cbn [FirstMaid.Items]. unfold Run.ret at 1. cbv zeta.
  rewrite (Map_get_new_array w key all Hall Hkey). reflexivity.
Qed.

Lemma FirstMaid_loop H all destroyed log ids rest :
  forall w,
    FirstMaid.allocated w all = true ->
    Run.for_of rest
      (fun entry =>
         Run.bind (FirstMaid.in_Scheduler (alloc (fst entry :: snd entry :: nil)))
           (fun key => FirstMaid.Clean H (VArray key)))
      (FirstMaid.mk (Some all) destroyed w log ids)
    = (Normal tt,
       FirstMaid.mk (Some all) destroyed (FirstMaid.with_entries w rest) log ids).
Proof.
  induction rest as [ | [k v] rest IH]; intros w Hall.
  - unfold FirstMaid.with_entries. cbn. rewrite app_nil_r, world_eta. reflexivity.
  - cbn [Run.for_of]. unfold Run.bind at 1. unfold Run.bind at 1.
    unfold FirstMaid.in_Scheduler at 1. unfold alloc at 1.
    cbn [FirstMaid.scheduler FirstMaid.Items FirstMaid.Destroyed FirstMaid.effects
         FirstMaid.issued fst snd].
    set (w' := mkWorld (arrays w ++ (k :: v :: nil) :: nil) (calls w)).
    assert (Hle : length (arrays w) <= length (arrays w')).
    { unfold w'. cbn [arrays]. rewrite length_app. lia. }
    rewrite (FirstMaid_Clean_new_array H all destroyed w w' log ids
               (length (arrays w)) Hall (Nat.le_refl _)).
    rewrite (IH w' (allocated_more w w' all Hle Hall)).
    unfold FirstMaid.with_entries, w'. cbn [arrays calls List.map fst snd].
    rewrite <- app_assoc. reflexivity.
Qed.

(** X22.  In the first version of the class [CleanUp] cleans nothing, and
    [Destroy] throws the items away uncleaned.  The loop hands [Clean] the
    entries of the Map, each a new array, where it means the keys; no key
    is that array, so [Clean] finds no item.  Whatever the Map holds,
    [CleanUp] returns with the Map as it was and no call made on any item,
    and [Destroy] sets the destroyed state and then deletes the Map. *)
Theorem FirstMaid_Destroy_cleans_nothing (H : FirstMaid.Host)
    (entries : list (Value * Value)) (w : World) (log : list Effect) (ids : nat) :
  FirstMaid.allocated w entries = true ->
  FirstMaid.CleanUp H (FirstMaid.mk (Some entries) false w log ids)
  = (Normal tt,
     FirstMaid.mk (Some entries) false (FirstMaid.with_entries w entries) log ids)
  /\ FirstMaid.Destroy H (FirstMaid.mk (Some entries) false w log ids)
     = (Normal tt,
        FirstMaid.mk None true (FirstMaid.with_entries w entries) log ids).
Proof.
  intros Hall. split.
  - rewrite <- (FirstMaid_loop H entries false log ids entries w Hall). reflexivity.
  - assert (E : FirstMaid.Destroy H (FirstMaid.mk (Some entries) false w log ids)
                = Run.bind
                    (Run.for_of entries
                       (fun entry =>
                          Run.bind
                            (FirstMaid.in_Scheduler
                               (alloc (fst entry :: snd entry :: nil)))
                            (fun key => FirstMaid.Clean H (VArray key))))
                    (fun _ => FirstMaid.set_Items None)
                    (FirstMaid.mk (Some entries) true w log ids))
      by reflexivity.
    rewrite E. unfold Run.bind at 1.
    rewrite (FirstMaid_loop H entries true log ids entries w Hall). reflexivity.
Qed.

Lemma FirstMaid_Destroy_cleans_nothing_witness :
  let H := FirstMaid.mkHost (fun _ => 0%float) (fun _ => false) (fun _ => VString "id") in
  let entries :=
    (VString "a", VFunction (UserCallback 1))
      :: (VArray 0, VFunction (UserCallback 2)) :: nil in
  let w := mkWorld ((VNumber 0%float :: VNumber 5%float :: nil) :: nil) nil in
  FirstMaid.CleanUp H (FirstMaid.mk (Some entries) false w nil 0)
  = (Normal tt,
     FirstMaid.mk (Some entries) false (FirstMaid.with_entries w entries) nil 0)
  /\ FirstMaid.Destroy H (FirstMaid.mk (Some entries) false w nil 0)
     = (Normal tt,
        FirstMaid.mk None true (FirstMaid.with_entries w entries) nil 0).
Proof.
  intros H entries w.
  exact (FirstMaid_Destroy_cleans_nothing H entries w nil 0 eq_refl).
Defined.

(** The items are cleaned when [Clean] is called with their keys, as the
    loop of the present class does. *)
Example FirstMaid_Clean_runs :
  let H := FirstMaid.mkHost (fun _ => 0%float) (fun _ => false) (fun _ => VString "id") in
  FirstMaid.Clean H (VString "a")
    (FirstMaid.mk (Some ((VString "a", VFunction (UserCallback 1)) :: nil)) false
       empty nil 0)
  = (Normal tt,
     FirstMaid.mk (Some nil) false empty (item_call (VFunction (UserCallback 1)) :: nil) 0).
Proof. reflexivity. Qed.

(** *** The second version *)

Lemma SecondMaid_CleanItem_frame H item this :
  SecondMaid.Items (snd (SecondMaid.CleanItem H item this)) = SecondMaid.Items this
  /\ SecondMaid.Destroyed (snd (SecondMaid.CleanItem H item this))
     = SecondMaid.Destroyed this.
Proof.
  unfold SecondMaid.CleanItem.
  destruct (is_object item && SecondMaid.is_Maid H item); [cbn; auto | ].
  destruct (is_object item && SecondMaid.is_observer H item); [cbn; auto | ].
  destruct (SecondMaid.IsConnection H item); [cbn; auto | ].
  destruct (is_object item && SecondMaid.is_HTMLElement H item); [cbn; auto | ].
  unfold SecondMaid.call. destruct item; try (cbn; auto).
  unfold Run.bind, SecondMaid.effect, SecondMaid.in_Scheduler.
  cbn [SecondMaid.scheduler].
  destruct (invoke (SecondMaid.timers H) f (SecondMaid.scheduler this)).
  cbn. auto.
Qed.

Lemma SecondMaid_Give_event H item key this :
  ToBoolean (SecondMaid.Destroyed this) = true ->
  SecondMaid.Give H item key this
  = Run.bind (SecondMaid.CleanItem H item) (fun _ => Run.ret item) this.
Proof.
  intros Hevent. unfold SecondMaid.Give. unfold Run.bind at 1. unfold Run.get.
  rewrite Hevent. reflexivity.
Qed.

Lemma SecondMaid_Give_frame H item key this :
  ToBoolean (SecondMaid.Destroyed this) = true ->
  SecondMaid.Items (snd (SecondMaid.Give H item key this)) = SecondMaid.Items this
  /\ SecondMaid.Destroyed (snd (SecondMaid.Give H item key this))
     = SecondMaid.Destroyed this.
Proof.
  intros Hevent. rewrite (SecondMaid_Give_event H item key this Hevent).
  unfold Run.bind. destruct (SecondMaid_CleanItem_frame H item this) as [HI HD].
  destruct (SecondMaid.CleanItem H item this) as [[[] | e] this']; cbn [snd] in *;
    auto.
Qed.

Lemma SecondMaid_GiveItems_frame H items :
  forall this,
    ToBoolean (SecondMaid.Destroyed this) = true ->
    SecondMaid.Items (snd (SecondMaid.GiveItems H items this)) = SecondMaid.Items this
    /\ SecondMaid.Destroyed (snd (SecondMaid.GiveItems H items this))
       = SecondMaid.Destroyed this.
Proof.
  assert (Hloop :
    forall this,
      ToBoolean (SecondMaid.Destroyed this) = true ->
      let this' :=
        snd (Run.for_of items
               (fun item =>
                  Run.bind (SecondMaid.Give H item VUndefined) (fun _ => Run.ret tt))
               this) in
      SecondMaid.Items this' = SecondMaid.Items this
      /\ SecondMaid.Destroyed this' = SecondMaid.Destroyed this).
  { induction items as [ | item items IH]; intros this Hevent; cbn zeta.
    - cbn. auto.
    - cbn [Run.for_of]. unfold Run.bind at 1 2 4 5.
      destruct (SecondMaid_Give_frame H item VUndefined this Hevent) as [HI HD].
      destruct (SecondMaid.Give H item VUndefined this) as [[v | e] this1];
        cbn [snd] in *; [ | auto].
      unfold Run.ret at 1 3.
      destruct (IH this1) as [HI' HD']; [congruence | ].
      cbn zeta in HI', HD'. split; congruence. }
  intros this Hevent. destruct (Hloop this Hevent) as [HI HD]. cbn zeta in HI, HD.
  unfold SecondMaid.GiveItems, Run.bind.
  destruct (Run.for_of items _ this) as [[[] | e] this1]; cbn [snd] in *; auto.
Qed.

Lemma SecondMaid_perform_keeps H c this :
  ToBoolean (SecondMaid.Destroyed this) = true ->
  SecondMaid.holds_nothing this = true ->
  SecondMaid.Destroyed (SecondMaid.perform H c this) = SecondMaid.Destroyed this
  /\ SecondMaid.holds_nothing (SecondMaid.perform H c this) = true.
Proof.
  intros Hevent Hnothing. destruct c; cbn [SecondMaid.perform].
  - destruct (SecondMaid_Give_frame H item key this Hevent) as [HI HD].
    unfold SecondMaid.holds_nothing in *. rewrite HI. auto.
  - destruct (SecondMaid_GiveItems_frame H items this Hevent) as [HI HD].
    unfold SecondMaid.holds_nothing in *. rewrite HI. auto.
  - destruct this as [[[ | entry entries] | ] destroyed signals e1 e2 e3 w log ids];
      try discriminate; cbn; auto.
  - destruct this as [[[ | entry entries] | ] destroyed signals e1 e2 e3 w log ids];
      try discriminate; cbn; auto.
  - destruct this as [[[ | entry entries] | ] [] [] e1 e2 e3 w log ids];
      try discriminate; cbn; auto.
  - cbn. auto.
  - destruct this as [[[ | entry entries] | ] [] [] e1 e2 e3 w log ids];
      try discriminate; cbn; auto.
Qed.

(** X23.  In the second version of the class [Give] stores nothing.  Its
    test reads the property [Destroyed], which holds the event of the
    Destroyed signal, where it means [DestroyedState]; an event is an
    object, and an object counts as true.  So on a maid made by the
    constructor, after any sequence of calls of its public methods, the Map
    holds nothing, and [Give] cleans the item it is given at once and
    returns it, although the maid was never destroyed. *)
Theorem SecondMaid_Give_stores_nothing (H : SecondMaid.Host) (w : World)
    (log : list Effect) (ids : nat) (calls : list SecondMaid.Call) :
  ToBoolean (SecondMaid.GetEvent H DestroyedSignal) = true ->
  let this := SecondMaid.perform_all H calls (SecondMaid.constructor H w log ids) in
  SecondMaid.holds_nothing this = true
  /\ (forall item key,
        SecondMaid.Give H item key this
        = Run.bind (SecondMaid.CleanItem H item) (fun _ => Run.ret item) this).
Proof.
  intros Hevent. cbn zeta.
  assert (Hinv :
    forall this,
      ToBoolean (SecondMaid.Destroyed this) = true ->
      SecondMaid.holds_nothing this = true ->
      ToBoolean (SecondMaid.Destroyed (SecondMaid.perform_all H calls this)) = true
      /\ SecondMaid.holds_nothing (SecondMaid.perform_all H calls this) = true).
  { unfold SecondMaid.perform_all.
    induction calls as [ | c calls IH]; intros this He Hn; cbn [fold_left].
    - auto.
    - destruct (SecondMaid_perform_keeps H c this He Hn) as [HD Hn'].
      apply IH; [rewrite HD; exact He | exact Hn']. }
  destruct (Hinv (SecondMaid.constructor H w log ids) Hevent eq_refl) as [He Hn].
  split; [exact Hn | ].
  intros item key. apply SecondMaid_Give_event, He.
Qed.

Lemma SecondMaid_Give_stores_nothing_witness :
  let H :=
    SecondMaid.mkHost (fun _ => 0%float) (fun _ => false) (fun _ => false)
      (fun _ => false) (fun _ => false) (fun _ => VString "id")
      (fun signal =>
         match signal with
         | DestroyingSignal => VObject 1
         | CleanedSignal => VObject 2
         | DestroyedSignal => VObject 3
         end) in
  let this :=
    SecondMaid.perform_all H
      (SecondMaid.CallGive (VFunction (UserCallback 1)) (VString "a")
         :: SecondMaid.CallCleanUp :: nil)
      (SecondMaid.constructor H empty nil 0) in
  SecondMaid.holds_nothing this = true
  /\ (forall item key,
        SecondMaid.Give H item key this
        = Run.bind (SecondMaid.CleanItem H item) (fun _ => Run.ret item) this).
Proof.
  intros H.
  exact (SecondMaid_Give_stores_nothing H empty nil 0
           (SecondMaid.CallGive (VFunction (UserCallback 1)) (VString "a")
              :: SecondMaid.CallCleanUp :: nil)
           eq_refl).
Defined.

(** At that instance: the function given under the key "a" is called at
    once, [Has] answers false, and nothing is left for [Destroy]. *)
Example SecondMaid_Give_runs :
  let H :=
    SecondMaid.mkHost (fun _ => 0%float) (fun _ => false) (fun _ => false)
      (fun _ => false) (fun _ => false) (fun _ => VString "id")
      (fun signal =>
         match signal with
         | DestroyingSignal => VObject 1
         | CleanedSignal => VObject 2
         | DestroyedSignal => VObject 3
         end) in
  let this := SecondMaid.mk (Some nil) false true (VObject 1) (VObject 2) (VObject 3)
                empty nil 0 in
  Run.bind (SecondMaid.Give H (VFunction (UserCallback 1)) (VString "a"))
    (fun _ => SecondMaid.Has (VString "a")) this
  = (Normal false,
     SecondMaid.mk (Some nil) false true (VObject 1) (VObject 2) (VObject 3) empty
       (item_call (VFunction (UserCallback 1)) :: nil) 0).
Proof. reflexivity. Qed.
